(** * Customer / address REST service: the Express handlers over SQLite

    A shallow embedding of the server module (the file that opens
    [database.db], creates the tables [customers] and [addresses] and
    registers the routes under [/api]).

    - [JS]      : the JavaScript string and number primitives the handlers use
                  ([parseInt], [x || d], [split(':')], [toUpperCase],
                  [includes], the validator's [trim] and its count of
                  characters).  A string is held as its UTF-8 bytes, the form
                  in which it is stored, one [ascii] per byte (an unpaired
                  surrogate, which has no UTF-8 form, is held as U+FFFD, as
                  it is stored); the primitives work on the characters these
                  bytes encode.  A number is a double that holds an integer,
                  an infinity or [NaN].
    - [SQLite]  : the two tables, the statements the handlers send and what
                  the engine does with them (rowid allocation, the UNIQUE
                  index on [phone_number], LIKE, ORDER BY, LIMIT / OFFSET,
                  foreign-key enforcement).
    - [Server]  : one definition per route handler, written in a small
                  state-and-error monad that mirrors [await] / [try] /
                  [catch]. *)

From Stdlib Require Import ZArith List Bool Ascii String Lia.
From Stdlib Require Import Sorting.Sorted.
Import ListNotations.

Open Scope string_scope.
Open Scope Z_scope.

(* ====================================================================== *)
(** ** JavaScript primitives *)
(* ====================================================================== *)

Module JS.

(** The value of a byte. *)
Definition code (c : ascii) : Z := Z.of_N (N_of_ascii c).

(** The string with the given bytes. *)
Definition of_bytes (l : list Z) : string :=
  fold_right (fun n s => String (ascii_of_N (Z.to_N n)) s) EmptyString l.

(** *** White space *)

(** White space is what [\s] matches, which is also what [parseInt] skips:
    TAB, LF, VT, FF, CR, SPACE, U+00A0, U+1680, U+2000 to U+200A, U+2028,
    U+2029, U+202F, U+205F, U+3000 and U+FEFF.  In UTF-8 these characters
    take one, two or three bytes. *)
Definition space1 (a : ascii) : bool :=
  let a := code a in ((9 <=? a) && (a <=? 13)) || (a =? 32).

Definition space2 (a b : ascii) : bool :=
  (code a =? 194) && (code b =? 160).                              (* U+00A0 *)

Definition space3 (a b c : ascii) : bool :=
  let a := code a in
  let b := code b in
  let c := code c in
  ((a =? 225) && (b =? 154) && (c =? 128))                         (* U+1680 *)
  || ((a =? 226) && (b =? 128)
      && (((128 <=? c) && (c <=? 138))                             (* U+2000 .. U+200A *)
          || (c =? 168) || (c =? 169)                              (* U+2028, U+2029 *)
          || (c =? 175)))                                          (* U+202F *)
  || ((a =? 226) && (b =? 129) && (c =? 159))                      (* U+205F *)
  || ((a =? 227) && (b =? 128) && (c =? 128))                      (* U+3000 *)
  || ((a =? 239) && (b =? 187) && (c =? 191)).                     (* U+FEFF *)

(** The rest of a string after the white-space character it starts with, if
    it starts with one. *)
Definition strip_space (s : string) : option string :=
  match s with
  | EmptyString => None
  | String a r1 =>
      if space1 a then Some r1
      else match r1 with
           | EmptyString => None
           | String b r2 =>
               if space2 a b then Some r2
               else match r2 with
                    | EmptyString => None
                    | String c r3 => if space3 a b c then Some r3 else None
                    end
           end
  end.

Definition is_empty (s : string) : bool :=
  match s with EmptyString => true | String _ _ => false end.

(** Truthiness of a string value: every string but [''] is truthy. *)
Definition truthy (s : string) : bool := negb (is_empty s).

(** The validator's [toString] of a field: [''] for an absent one. *)
Definition to_string (v : option string) : string :=
  match v with Some s => s | None => "" end.

(** [v || d] for a value that is a string or [undefined]. *)
Definition or_string (v : option string) (d : string) : string :=
  match v with
  | Some s => if truthy s then s else d
  | None => d
  end.

(** Truthiness of a value that is a string or [undefined]. *)
Definition truthy_opt (v : option string) : bool :=
  match v with Some s => truthy s | None => false end.

(** [str.replace(/^\s+/g, '')]: the leading white-space characters go. *)
Fixpoint ltrim (s : string) : string :=
  match s with
  | EmptyString => EmptyString
  | String a r1 =>
      if space1 a then ltrim r1
      else match r1 with
           | EmptyString => s
           | String b r2 =>
               if space2 a b then ltrim r2
               else match r2 with
                    | EmptyString => s
                    | String c r3 => if space3 a b c then ltrim r3 else s
                    end
           end
  end.

(** [/^\s*$/]: the string is made of white-space characters only. *)
Fixpoint blank (s : string) : bool :=
  match s with
  | EmptyString => true
  | String a r1 =>
      if space1 a then blank r1
      else match r1 with
           | EmptyString => false
           | String b r2 =>
               if space2 a b then blank r2
               else match r2 with
                    | EmptyString => false
                    | String c r3 => space3 a b c && blank r3
                    end
           end
  end.

(** The validator's [rtrim]: the index goes down from the end while the
    character under it is white space, and the string is cut there; what is
    cut is the longest suffix of white-space characters. *)
Fixpoint rtrim (s : string) : string :=
  match s with
  | EmptyString => EmptyString
  | String a r => if blank s then EmptyString else String a (rtrim r)
  end.

(** validator's [trim(str)] with no [chars] argument:
    [rtrim(ltrim(str))]. *)
Definition trim (s : string) : string := rtrim (ltrim s).

(** *** Counting characters *)

(** A byte that continues a UTF-8 character. *)
Definition is_continuation (c : ascii) : bool :=
  (128 <=? code c) && (code c <? 192).

(** The string starts with a variation selector, U+FE0E or U+FE0F. *)
Definition variation_selector (s : string) : bool :=
  match s with
  | String a (String b (String c _)) =>
      (code a =? 239) && (code b =? 184) && ((code c =? 142) || (code c =? 143))
  | _ => false
  end.

(** The length validator's [isLength] compares with [min] and [max]:
    [str.length] less the surrogate pairs and the variation selectors, which
    is the number of characters that are not variation selectors. *)
Fixpoint characters (s : string) : Z :=
  match s with
  | EmptyString => 0
  | String a r =>
      (if is_continuation a || variation_selector s then 0 else 1) + characters r
  end.

(** *** Upper case *)

Definition upper_char (c : ascii) : ascii :=
  let n := code c in
  if (97 <=? n) && (n <=? 122) then ascii_of_N (Z.to_N (n - 32)) else c.

(** The characters outside ASCII whose upper case holds an ASCII letter
    (Unicode's UnicodeData and SpecialCasing), by the number of bytes they
    take. *)
Definition upper2 (a b : ascii) : option string :=
  let a := code a in
  let b := code b in
  if (a =? 195) && (b =? 159) then Some "SS"                       (* U+00DF *)
  else if (a =? 196) && (b =? 177) then Some "I"                   (* U+0131 *)
  else if (a =? 197) && (b =? 137) then Some (of_bytes [202; 188; 78])  (* U+0149 *)
  else if (a =? 197) && (b =? 191) then Some "S"                   (* U+017F *)
  else if (a =? 199) && (b =? 176) then Some (of_bytes [74; 204; 140])  (* U+01F0 *)
  else None.

Definition upper3 (a b c : ascii) : option string :=
  let a := code a in
  let b := code b in
  let c := code c in
  if (a =? 225) && (b =? 186) then
    if c =? 150 then Some (of_bytes [72; 204; 177])                (* U+1E96 *)
    else if c =? 151 then Some (of_bytes [84; 204; 136])           (* U+1E97 *)
    else if c =? 152 then Some (of_bytes [87; 204; 138])           (* U+1E98 *)
    else if c =? 153 then Some (of_bytes [89; 204; 138])           (* U+1E99 *)
    else if c =? 154 then Some (of_bytes [65; 202; 190])           (* U+1E9A *)
    else None
  else if (a =? 239) && (b =? 172) then
    if c =? 128 then Some "FF"                                     (* U+FB00 *)
    else if c =? 129 then Some "FI"                                (* U+FB01 *)
    else if c =? 130 then Some "FL"                                (* U+FB02 *)
    else if c =? 131 then Some "FFI"                               (* U+FB03 *)
    else if c =? 132 then Some "FFL"                               (* U+FB04 *)
    else if c =? 133 then Some "ST"                                (* U+FB05 *)
    else if c =? 134 then Some "ST"                                (* U+FB06 *)
    else None
  else None.

(** [String.prototype.toUpperCase], as far as ASCII letters are concerned:
    the letters [a] to [z] and the characters above are mapped as JavaScript
    maps them.  Any other character is left as it is; JavaScript may replace
    it by another character outside ASCII, never by an ASCII one.  The
    handler only compares the result with ['DESC']. *)
Fixpoint toUpperCase (s : string) : string :=
  match s with
  | EmptyString => EmptyString
  | String a r =>
      match r with
      | EmptyString => String (upper_char a) EmptyString
      | String b r2 =>
          match upper2 a b with
          | Some u => u ++ toUpperCase r2
          | None =>
              match r2 with
              | EmptyString => String (upper_char a) (toUpperCase r)
              | String c r3 =>
                  match upper3 a b c with
                  | Some u => u ++ toUpperCase r3
                  | None => String (upper_char a) (toUpperCase r)
                  end
              end
          end
      end
  end.

(** *** Arrays of strings *)

(** [s.split(':')]: the pieces between colons; never the empty array. *)
Fixpoint split_colon (s : string) : list string :=
  match s with
  | EmptyString => [EmptyString]
  | String c s' =>
      if Ascii.eqb c ":" then EmptyString :: split_colon s'
      else match split_colon s' with
           | p :: ps => String c p :: ps
           | [] => [String c EmptyString]
           end
  end.

(** [let [a, b] = arr]: a missing element is [undefined]. *)
Definition destructure2 (l : list string) : option string * option string :=
  (nth_error l 0, nth_error l 1).

(** [arr.includes(x)] for an array of strings and a possibly undefined [x]. *)
Definition array_includes (l : list string) (x : option string) : bool :=
  match x with
  | Some s => existsb (String.eqb s) l
  | None => false
  end.

(** [s.includes(sub)]: [sub] occurs in [s] (case-sensitive). *)
Fixpoint includes (s sub : string) : bool :=
  String.prefix sub s ||
  match s with
  | EmptyString => false
  | String _ s' => includes s' sub
  end.

(** [arr.join(sep)] *)
Definition join (sep : string) (l : list string) : string := String.concat sep l.

(** *** Numbers *)

(** A number that holds an integer, an infinity or [NaN].  [Finite n] stands
    for the double of value [n]; [-0] is [Finite 0], the handler never tells
    the two zeros apart. *)
Inductive number :=
| Finite (n : Z)
| Infinity
| NegInfinity
| NaN.

(** The double nearest to the integer [n], ties going to the even
    significand: [n] itself up to 2^53, beyond that a multiple of a power of
    two with 53 significant bits, and an infinity from 2^1024 - 2^970 on. *)
Definition double (n : Z) : number :=
  let a := Z.abs n in
  if a <=? 2 ^ 53 then Finite n
  else
    let e := Z.log2 a - 52 in
    let m := a / 2 ^ e in
    let r := a mod 2 ^ e in
    let m' := if (2 ^ (e - 1) <? r) || ((r =? 2 ^ (e - 1)) && Z.odd m)
              then m + 1 else m in
    if 2 ^ 1024 <=? m' * 2 ^ e
    then (if n <? 0 then NegInfinity else Infinity)
    else Finite (Z.sgn n * (m' * 2 ^ e)).

(** [x - y] *)
Definition sub (x y : number) : number :=
  match x, y with
  | NaN, _ | _, NaN => NaN
  | Finite a, Finite b => double (a - b)
  | Finite _, Infinity => NegInfinity
  | Finite _, NegInfinity => Infinity
  | Infinity, Infinity => NaN
  | NegInfinity, NegInfinity => NaN
  | Infinity, _ => Infinity
  | NegInfinity, _ => NegInfinity
  end.

(** The infinity of the sign of [s], [NaN] for no sign. *)
Definition infinity_of_sign (s : Z) : number :=
  if 0 <? s then Infinity else if s <? 0 then NegInfinity else NaN.

Definition sign (x : number) : Z :=
  match x with
  | Finite n => Z.sgn n
  | Infinity => 1
  | NegInfinity => -1
  | NaN => 0
  end.

(** [x * y] *)
Definition mul (x y : number) : number :=
  match x, y with
  | NaN, _ | _, NaN => NaN
  | Finite a, Finite b => double (a * b)
  | _, _ => infinity_of_sign (sign x * sign y)
  end.

(** [x <= y] and [x >= y]: false as soon as one side is [NaN]. *)
Definition leb (x y : number) : bool :=
  match x, y with
  | NaN, _ | _, NaN => false
  | Finite a, Finite b => a <=? b
  | NegInfinity, _ => true
  | _, Infinity => true
  | _, _ => false
  end.

Definition geb (x y : number) : bool := leb y x.

(** Value of a digit or letter in a radix up to 36. *)
Definition digit_value (c : ascii) : option Z :=
  let n := code c in
  if (48 <=? n) && (n <=? 57) then Some (n - 48)
  else if (97 <=? n) && (n <=? 122) then Some (n - 87)
  else if (65 <=? n) && (n <=? 90) then Some (n - 55)
  else None.

(** Reads the longest prefix of radix-[radix] digits; [acc] is the value read
    so far, [None] while no digit has been read. *)
Fixpoint digits (radix : Z) (s : string) (acc : option Z) : option Z :=
  match s with
  | EmptyString => acc
  | String c s' =>
      match digit_value c with
      | Some d =>
          if d <? radix
          then digits radix s' (Some (radix * match acc with Some a => a | None => 0 end + d))
          else acc
      | None => acc
      end
  end.

(** [parseInt(v)] with no radix argument: leading white space, an optional
    sign, an optional [0x] / [0X] prefix, then digits; the result is the
    double nearest to the integer read, [NaN] when there is no digit.
    [parseInt(undefined)] is [NaN]. *)
Definition parseInt (v : option string) : number :=
  match v with
  | None => NaN
  | Some s =>
      let s1 := ltrim s in
      let '(sign, s2) :=
        match s1 with
        | String c r =>
            if Ascii.eqb c "-" then (-1, r)
            else if Ascii.eqb c "+" then (1, r)
            else (1, s1)
        | EmptyString => (1, s1)
        end in
      let '(radix, s3) :=
        match s2 with
        | String z (String x r) =>
            if Ascii.eqb z "0" && (Ascii.eqb x "x" || Ascii.eqb x "X")
            then (16, r) else (10, s2)
        | _ => (10, s2)
        end in
      match digits radix s3 None with
      | Some n => double (sign * n)
      | None => NaN
      end
  end.

(** [x || d] for a number: [NaN] and zero are falsy. *)
Definition or_number (x d : number) : number :=
  match x with
  | Finite n => if n =? 0 then d else x
  | NaN => d
  | _ => x
  end.

End JS.

(* ====================================================================== *)
(** ** The SQLite store *)
(* ====================================================================== *)

Module SQLite.

(** A bound parameter: an integer, a floating-point number or a text.  (A
    [NaN] reaches SQLite as NULL; neither is an integer, which is all the
    statements below ask of a number.) *)
Inductive value :=
| VInt (n : Z)
| VReal (x : JS.number)
| VText (s : string).

(** A row of [customers]. *)
Record customer := mkCustomer {
  id : Z;
  first_name : string;
  last_name : string;
  phone_number : string
}.

(** A row of [addresses]. *)
Record address := mkAddress {
  address_id : Z;
  customer_id : Z;
  address_details : string;
  city : string;
  state : string;
  pin_code : string
}.

(** The connection [db]: both tables in rowid order, the AUTOINCREMENT
    counters kept in [sqlite_sequence], and the connection's
    [PRAGMA foreign_keys] setting. *)
Record database := mkDatabase {
  customers : list customer;
  addresses : list address;
  seq_customers : Z;
  seq_addresses : Z;
  foreign_keys : bool
}.

(** [new sqlite3.Database(DB_PATH)] followed by [db.exec(initSql)] on a fresh
    file: two empty tables.  The module sends no PRAGMA statement, so the
    connection keeps SQLite's default, foreign-key enforcement off. *)
Definition db_open : database :=
  {| customers := []; addresses := []; seq_customers := 0; seq_addresses := 0;
     foreign_keys := false |}.

Inductive error := Error (message : string).

Definition message (e : error) : string := let 'Error m := e in m.

Inductive result (A : Type) :=
| Ok (a : A)
| Err (e : error).
Arguments Ok {A} a.
Arguments Err {A} e.

(** What [runAsync] resolves to: [{ id: this.lastID, changes: this.changes }].
    The handlers read [lastID] after an INSERT only. *)
Record run_info := mkRun { lastID : Z; changes : Z }.

Definition unique_failed : error :=
  Error "SQLITE_CONSTRAINT: UNIQUE constraint failed: customers.phone_number".
Definition foreign_key_failed : error :=
  Error "SQLITE_CONSTRAINT: FOREIGN KEY constraint failed".
Definition no_such_column (c : string) : error :=
  Error ("SQLITE_ERROR: no such column: " ++ c).
Definition syntax_error (tok : string) : error :=
  Error ("SQLITE_ERROR: near " ++ tok ++ ": syntax error").
Definition datatype_mismatch : error :=
  Error "SQLITE_MISMATCH: datatype mismatch".

(** AUTOINCREMENT: one more than the largest rowid ever used. *)
Definition next_rowid (seq : Z) (ids : list Z) : Z :=
  fold_right Z.max seq ids + 1.

Definition count {A} (f : A -> bool) (l : list A) : Z :=
  Z.of_nat (List.length (filter f l)).

(** The first row of [customers] with the given id, if any. *)
Definition customer_by_id (db : database) (i : Z) : option customer :=
  find (fun c => id c =? i) (customers db).

(** The first row of [addresses] with the given id, if any. *)
Definition address_by_id (db : database) (i : Z) : option address :=
  find (fun a => address_id a =? i) (addresses db).

(** The rows of [addresses] that refer to the given customer. *)
Definition addresses_of (db : database) (i : Z) : list address :=
  filter (fun a => customer_id a =? i) (addresses db).

(** [SELECT * FROM customers WHERE id = ?] *)
Definition select_customer (i : Z) (db : database) : result (option customer) :=
  Ok (customer_by_id db i).

(** [SELECT * FROM addresses WHERE id = ?] *)
Definition select_address (i : Z) (db : database) : result (option address) :=
  Ok (address_by_id db i).

(** [SELECT * FROM addresses WHERE customer_id = ?] *)
Definition select_addresses (i : Z) (db : database) : result (list address) :=
  Ok (addresses_of db i).

(** [INSERT INTO customers (first_name, last_name, phone_number) VALUES (?,?,?)].
    The UNIQUE index on [phone_number] aborts the statement, leaving the
    database as it was. *)
Definition insert_customer (fn ln ph : string) (db : database)
  : result run_info * database :=
  if existsb (fun c => phone_number c =? ph)%string (customers db)
  then (Err unique_failed, db)
  else
    let i := next_rowid (seq_customers db) (map id (customers db)) in
    (Ok (mkRun i 1),
     {| customers := customers db ++ [mkCustomer i fn ln ph];
        addresses := addresses db;
        seq_customers := i;
        seq_addresses := seq_addresses db;
        foreign_keys := foreign_keys db |}).

(** [INSERT INTO addresses (customer_id, address_details, city, state, pin_code)
    VALUES (?,?,?,?,?)].  The parent row is looked for only when foreign keys
    are enforced. *)
Definition insert_address (cid : Z) (details c s p : string) (db : database)
  : result run_info * database :=
  if foreign_keys db && negb (existsb (fun k => id k =? cid) (customers db))
  then (Err foreign_key_failed, db)
  else
    let i := next_rowid (seq_addresses db) (map address_id (addresses db)) in
    (Ok (mkRun i 1),
     {| customers := customers db;
        addresses := addresses db ++ [mkAddress i cid details c s p];
        seq_customers := seq_customers db;
        seq_addresses := i;
        foreign_keys := foreign_keys db |}).

(** [DELETE FROM customers WHERE id = ?].  [ON DELETE CASCADE] on
    [addresses.customer_id] acts only when foreign keys are enforced. *)
Definition delete_customer (i : Z) (db : database) : result run_info * database :=
  (Ok (mkRun (seq_customers db) (count (fun c => id c =? i) (customers db))),
   {| customers := filter (fun c => negb (id c =? i)) (customers db);
      addresses :=
        if foreign_keys db
        then filter (fun a => negb (customer_id a =? i)) (addresses db)
        else addresses db;
      seq_customers := seq_customers db;
      seq_addresses := seq_addresses db;
      foreign_keys := foreign_keys db |}).

(** [DELETE FROM addresses WHERE id = ?] *)
Definition delete_address (i : Z) (db : database) : result run_info * database :=
  (Ok (mkRun (seq_addresses db) (count (fun a => address_id a =? i) (addresses db))),
   {| customers := customers db;
      addresses := filter (fun a => negb (address_id a =? i)) (addresses db);
      seq_customers := seq_customers db;
      seq_addresses := seq_addresses db;
      foreign_keys := foreign_keys db |}).

(** The columns an UPDATE of [customers] may assign. *)
Inductive customer_column := first_name_col | last_name_col | phone_number_col.

Definition customer_column_name (k : customer_column) : string :=
  match k with
  | first_name_col => "first_name"
  | last_name_col => "last_name"
  | phone_number_col => "phone_number"
  end.

Definition set_customer_column (c : customer) (kv : customer_column * string) : customer :=
  match fst kv with
  | first_name_col => mkCustomer (id c) (snd kv) (last_name c) (phone_number c)
  | last_name_col => mkCustomer (id c) (first_name c) (snd kv) (phone_number c)
  | phone_number_col => mkCustomer (id c) (first_name c) (last_name c) (snd kv)
  end.

(** The value an assignment list gives to [phone_number], if any (the last
    assignment wins). *)
Fixpoint assigned_phone (sets : list (customer_column * string)) : option string :=
  match sets with
  | [] => None
  | (phone_number_col, v) :: rest =>
      match assigned_phone rest with Some w => Some w | None => Some v end
  | _ :: rest => assigned_phone rest
  end.

(** [UPDATE customers SET c1 = ?, ... WHERE id = ?], the assignments paired
    with their bound values.  A new [phone_number] already held by another
    row aborts the whole statement. *)
Definition update_customers (sets : list (customer_column * string)) (i : Z)
  (db : database) : result run_info * database :=
  let hit := existsb (fun c => id c =? i) (customers db) in
  let clash :=
    match assigned_phone sets with
    | Some ph =>
        existsb (fun c => negb (id c =? i) && (phone_number c =? ph)%string)
                (customers db)
    | None => false
    end in
  if hit && clash then (Err unique_failed, db)
  else
    (Ok (mkRun (seq_customers db) (count (fun c => id c =? i) (customers db))),
     {| customers :=
          map (fun c => if id c =? i then fold_left set_customer_column sets c else c)
              (customers db);
        addresses := addresses db;
        seq_customers := seq_customers db;
        seq_addresses := seq_addresses db;
        foreign_keys := foreign_keys db |}).

(** The columns an UPDATE of [addresses] may assign. *)
Inductive address_column := address_details_col | city_col | state_col | pin_code_col.

Definition address_column_name (k : address_column) : string :=
  match k with
  | address_details_col => "address_details"
  | city_col => "city"
  | state_col => "state"
  | pin_code_col => "pin_code"
  end.

Definition set_address_column (a : address) (kv : address_column * string) : address :=
  match fst kv with
  | address_details_col =>
      mkAddress (address_id a) (customer_id a) (snd kv) (city a) (state a) (pin_code a)
  | city_col =>
      mkAddress (address_id a) (customer_id a) (address_details a) (snd kv) (state a) (pin_code a)
  | state_col =>
      mkAddress (address_id a) (customer_id a) (address_details a) (city a) (snd kv) (pin_code a)
  | pin_code_col =>
      mkAddress (address_id a) (customer_id a) (address_details a) (city a) (state a) (snd kv)
  end.

(** [UPDATE addresses SET c1 = ?, ... WHERE id = ?] *)
Definition update_addresses (sets : list (address_column * string)) (i : Z)
  (db : database) : result run_info * database :=
  (Ok (mkRun (seq_addresses db) (count (fun a => address_id a =? i) (addresses db))),
   {| customers := customers db;
      addresses :=
        map (fun a => if address_id a =? i then fold_left set_address_column sets a else a)
            (addresses db);
      seq_customers := seq_customers db;
      seq_addresses := seq_addresses db;
      foreign_keys := foreign_keys db |}).

(** *** The list query: WHERE, LIKE, ORDER BY, LIMIT and OFFSET *)

Definition lower_char (c : ascii) : ascii :=
  let n := JS.code c in
  if (65 <=? n) && (n <=? 90) then ascii_of_N (Z.to_N (n + 32)) else c.

(** Two characters are equal for LIKE when they differ at most in ASCII case. *)
Definition like_char (a b : ascii) : bool :=
  Ascii.eqb (lower_char a) (lower_char b).

Definition is_percent (c : ascii) : bool := Ascii.eqb c "%".
Definition is_underscore (c : ascii) : bool := Ascii.eqb c "_".
Definition is_nul (c : ascii) : bool := Ascii.eqb c zero.

(** The bytes that continue the UTF-8 character begun before [s] are
    skipped. *)
Fixpoint skip_continuation (s : string) : string :=
  match s with
  | EmptyString => EmptyString
  | String c s' => if JS.is_continuation c then skip_continuation s' else s
  end.

(** The comparison behind LIKE, with no ESCAPE clause: [%] matches any run
    of characters, [_] one character (all the bytes of it), any other byte
    itself, up to case for the ASCII letters. *)
Fixpoint pattern_compare (pattern text : string) : bool :=
  match pattern with
  | EmptyString => JS.is_empty text
  | String p pattern' =>
      if is_percent p then
        (fix any_run (t : string) : bool :=
           pattern_compare pattern' t ||
           match t with
           | EmptyString => false
           | String _ t' => any_run t'
           end) text
      else
        match text with
        | EmptyString => false
        | String c text' =>
            if is_underscore p
            then pattern_compare pattern'
                   (if 192 <=? JS.code c then skip_continuation text' else text')
            else like_char p c && pattern_compare pattern' text'
        end
  end.

(** A text as the C string LIKE reads: up to its first NUL character. *)
Fixpoint c_string (s : string) : string :=
  match s with
  | EmptyString => EmptyString
  | String c s' => if is_nul c then EmptyString else String c (c_string s')
  end.

(** [text LIKE pattern]: both sides are read as C strings. *)
Definition like (pattern text : string) : bool :=
  pattern_compare (c_string pattern) (c_string text).

(** One element of [whereParts]. *)
Inductive where_part :=
| search_like      (* (first_name || ' ' || last_name LIKE ? OR phone_number LIKE ?) *)
| city_in          (* id IN (SELECT customer_id FROM addresses WHERE city = ?) *)
| state_in         (* id IN (SELECT customer_id FROM addresses WHERE state = ?) *)
| pin_code_in.     (* id IN (SELECT customer_id FROM addresses WHERE pin_code = ?) *)

(** The SQL text of each part, as the handler pushes it. *)
Definition where_text (w : where_part) : string :=
  match w with
  | search_like => "(first_name || ' ' || last_name LIKE ? OR phone_number LIKE ?)"
  | city_in => "id IN (SELECT customer_id FROM addresses WHERE city = ?)"
  | state_in => "id IN (SELECT customer_id FROM addresses WHERE state = ?)"
  | pin_code_in => "id IN (SELECT customer_id FROM addresses WHERE pin_code = ?)"
  end.

(** Number of [?] placeholders of a part. *)
Definition placeholders (w : where_part) : nat :=
  match w with search_like => 2%nat | _ => 1%nat end.

(** [id IN (SELECT customer_id FROM addresses WHERE <column> = v)] *)
Definition has_address (db : database) (column : address -> string) (v : string)
  (c : customer) : bool :=
  existsb (fun a => (customer_id a =? id c) && (column a =? v)%string) (addresses db).

(** Truth of one part on the row [c], its placeholders bound to the first
    elements of [params].  A text column compared with a number or with a
    missing (NULL) parameter is not true. *)
Definition part_holds (db : database) (w : where_part) (params : list value)
  (c : customer) : bool :=
  match w, params with
  | search_like, VText p1 :: VText p2 :: _ =>
      like p1 (first_name c ++ " " ++ last_name c) || like p2 (phone_number c)
  | city_in, VText v :: _ => has_address db city v c
  | state_in, VText v :: _ => has_address db state v c
  | pin_code_in, VText v :: _ => has_address db pin_code v c
  | _, _ => false
  end.

(** The conjunction [p1 AND p2 AND ...], placeholders bound left to right. *)
Fixpoint where_holds (db : database) (parts : list where_part) (params : list value)
  (c : customer) : bool :=
  match parts with
  | [] => true
  | w :: ws =>
      part_holds db w params c && where_holds db ws (skipn (placeholders w) params) c
  end.

(** The parameters left for the placeholders that follow the WHERE clause. *)
Fixpoint after_where (parts : list where_part) (params : list value) : list value :=
  match parts with
  | [] => params
  | w :: ws => after_where ws (skipn (placeholders w) params)
  end.

(** Insertion into a list ordered by [le]; the new row goes before the first
    row it is not greater than. *)
Fixpoint insert_row {A} (le : A -> A -> bool) (x : A) (l : list A) : list A :=
  match l with
  | [] => [x]
  | y :: t => if le x y then x :: y :: t else y :: insert_row le x t
  end.

(** The sorter behind ORDER BY: rows with equal keys keep their table order. *)
Fixpoint sort_rows {A} (le : A -> A -> bool) (l : list A) : list A :=
  match l with
  | [] => []
  | x :: t => insert_row le x (sort_rows le t)
  end.

(** Ascending order of a column of [customers]: integers by value, text by
    the BINARY collation (byte-wise). *)
Definition column_le (field : string) : option (customer -> customer -> bool) :=
  if (field =? "id")%string then Some (fun a b => id a <=? id b)
  else if (field =? "first_name")%string
       then Some (fun a b => String.leb (first_name a) (first_name b))
  else if (field =? "last_name")%string
       then Some (fun a b => String.leb (last_name a) (last_name b))
  else if (field =? "phone_number")%string
       then Some (fun a b => String.leb (phone_number a) (phone_number b))
  else None.

(** [ORDER BY field dir] *)
Definition order_by (field dir : string) (rows : list customer)
  : result (list customer) :=
  match column_le field with
  | None => Err (no_such_column field)
  | Some le =>
      if (dir =? "ASC")%string then Ok (sort_rows le rows)
      else if (dir =? "DESC")%string then Ok (sort_rows (fun a b => le b a) rows)
      else Err (syntax_error dir)
  end.

(** The rows after the first [n]; all of them when [n] is not positive. *)
Fixpoint skip_rows {A} (n : Z) (rows : list A) : list A :=
  match rows with
  | [] => []
  | x :: rest => if 0 <? n then skip_rows (n - 1) rest else rows
  end.

(** The first [n] rows; none when [n] is not positive. *)
Fixpoint take_rows {A} (n : Z) (rows : list A) : list A :=
  match rows with
  | [] => []
  | x :: rest => if 0 <? n then x :: take_rows (n - 1) rest else []
  end.

(** [LIMIT limit OFFSET offset]: a negative OFFSET counts as zero and a
    negative LIMIT is no limit at all. *)
Definition limit_offset {A} (limit offset : Z) (rows : list A) : list A :=
  let rest := skip_rows offset rows in
  if limit <? 0 then rest else take_rows limit rest.

(** The count statement and the page statement of the list handler. *)
Record count_statement := count_customers {
  count_where : list where_part
}.

Record select_statement := select_customers {
  select_where : list where_part;
  order_field : string;
  order_dir : string
}.

(** [whereParts.length ? 'WHERE ' + whereParts.join(' AND ') : ''] *)
Definition whereSql (whereParts : list where_part) : string :=
  match whereParts with
  | [] => ""
  | _ => "WHERE " ++ JS.join " AND " (map where_text whereParts)
  end.

(** The SQL text of the two template literals. *)
Definition count_text (s : count_statement) : string :=
  "SELECT COUNT(*) as count FROM customers " ++ whereSql (count_where s).

Definition select_text (s : select_statement) : string :=
  "SELECT * FROM customers " ++ whereSql (select_where s)
  ++ " ORDER BY " ++ order_field s ++ " " ++ order_dir s ++ " LIMIT ? OFFSET ?".

(** The single row [{ count }] of the count statement. *)
Definition run_count (s : count_statement) (params : list value) (db : database)
  : result (option Z) :=
  Ok (Some (count (where_holds db (count_where s) params) (customers db))).

(** The integer a LIMIT or OFFSET expression must come to: an integer as it
    is, a floating-point number when it holds an integer strictly between
    the least and the greatest 64-bit integer.  (The handler binds numbers to
    these two places; a text is refused here as well, where SQLite would
    first try to read it as a number.) *)
Definition must_be_int (v : value) : option Z :=
  match v with
  | VInt n => Some n
  | VReal (JS.Finite n) =>
      if (- 2 ^ 63 <? n) && (n <? 2 ^ 63 - 1) then Some n else None
  | _ => None
  end.

(** The rows of the page statement; LIMIT and OFFSET take the two parameters
    after those of the WHERE clause, and the statement fails with a datatype
    mismatch when one of them is not an integer.  The LIMIT is looked at
    first, and a LIMIT of zero ends the statement before the OFFSET is. *)
Definition run_select (s : select_statement) (params : list value) (db : database)
  : result (list customer) :=
  match order_by (order_field s) (order_dir s)
          (filter (where_holds db (select_where s) params) (customers db)) with
  | Err e => Err e
  | Ok rows =>
      match after_where (select_where s) params with
      | limit :: offset :: _ =>
          match must_be_int limit with
          | Some l =>
              if l =? 0 then Ok []
              else match must_be_int offset with
                   | Some o => Ok (limit_offset l o rows)
                   | None => Err datatype_mismatch
                   end
          | None => Err datatype_mismatch
          end
      | _ => Err datatype_mismatch
      end
  end.

End SQLite.

(* ====================================================================== *)
(** ** The route handlers *)
(* ====================================================================== *)

Module Server.
Import SQLite.

(** *** Requests and responses *)

(** The [address] object of a create-customer body, and the body of the two
    address routes.  An absent key is [None]. *)
Record address_body := mkAddressBody {
  body_address_details : option string;
  body_city : option string;
  body_state : option string;
  body_pin_code : option string
}.

(** The JSON body of POST and PUT [/api/customers]. *)
Record customer_body := mkCustomerBody {
  body_first_name : option string;
  body_last_name : option string;
  body_phone_number : option string;
  body_address : option address_body
}.

(** [req.query] of GET [/api/customers]: each parameter is absent or given
    once, as a string.  The request line passed Node's HTTP parser, which
    keeps it under 16 KB, so that a search text stays far below the 50000
    bytes SQLite allows a LIKE pattern. *)
Record query := mkQuery {
  query_page : option string;
  query_limit : option string;
  query_search : option string;
  query_city : option string;
  query_state : option string;
  query_pin_code : option string;
  query_sort : option string
}.

(** [meta: { page, limit, total }].  [total] is the count SQLite returned,
    an integer far below 2^53 (a database file holds less than 2^48 bytes),
    hence the same as a JavaScript number. *)
Record meta := mkMeta { meta_page : JS.number; meta_limit : JS.number; meta_total : Z }.

(** The JSON documents the handlers send. *)
Inductive payload :=
| validation_errors (errors : list string)          (* { success: false, errors } *)
| failure (message : string)                        (* { success: false, message } *)
| succeeded (message : string)                      (* { success: true, message } *)
| customer_data (data : option customer) (message : string)
| customer_page (data : list customer) (m : meta)
| customer_detail (data : customer) (addresses : list address)
| address_data (data : option address) (message : string)
| address_list (data : list address).

Record response := mkResponse { status : Z; json : payload }.

(** *** Awaiting the store inside [try] / [catch] *)

(** A computation that reads and writes the database and may throw; the
    database keeps whatever was written before the throw. *)
Definition M (A : Type) : Type := database -> result A * database.

Definition ret {A} (a : A) : M A := fun db => (Ok a, db).

Definition bind {A B} (m : M A) (k : A -> M B) : M B :=
  fun db =>
    match m db with
    | (Ok a, db') => k a db'
    | (Err e, db') => (Err e, db')
    end.

Notation "x <- m ;; k" := (bind m (fun x => k))
  (at level 61, m at next level, right associativity).

(** [await runAsync(sql, params)] *)
Definition runAsync (stmt : database -> result run_info * database) : M run_info := stmt.

(** [await getAsync(sql, params)] and [await allAsync(sql, params)]: the
    statement reads, the database stays as it is. *)
Definition getAsync {A} (stmt : database -> result A) : M A := fun db => (stmt db, db).
Definition allAsync {A} (stmt : database -> result A) : M A := fun db => (stmt db, db).

(** [try { body } catch (err) { handler }] *)
Definition try_catch (body : M response) (handler : error -> response)
  : database -> response * database :=
  fun db =>
    match body db with
    | (Ok r, db') => (r, db')
    | (Err e, db') => (handler e, db')
    end.

(** A handler that answers before touching the store. *)
Definition reply (r : response) : database -> response * database :=
  fun db => (r, db).

Definition internal_error : response := mkResponse 500 (failure "Internal server error").

(** The [catch] block of the two customer-writing routes. *)
Definition catch_unique (err : error) : response :=
  if JS.truthy (message err) && JS.includes (message err) "UNIQUE constraint failed"
  then mkResponse 409 (failure "Phone number already exists")
  else internal_error.

(** *** express-validator chains *)

(** [.trim().notEmpty().withMessage(msg)] on a required field. *)
Definition check_not_empty (v : option string) (msg : string) : list string :=
  if JS.is_empty (JS.trim (JS.to_string v)) then [msg] else [].

(** [.isLength({ min, max })] on the trimmed value. *)
Definition isLength (s : string) (min max : Z) : bool :=
  let n := JS.characters s in (min <=? n) && (n <=? max).

(** [.optional()]: the rest of the chain is skipped for an absent field. *)
Definition optional (v : option string) (chain : option string -> list string)
  : list string :=
  match v with None => [] | Some _ => chain v end.

(** The value a handler reads back from [req.body] after a chain with
    [.trim()] has run on a required field. *)
Definition sanitized (v : option string) : string := JS.trim (JS.to_string v).

(** The same after [.optional().trim()]: an absent field stays absent. *)
Definition sanitized_optional (v : option string) : option string :=
  option_map JS.trim v.

Definition null {A} (l : list A) : bool :=
  match l with [] => true | _ => false end.

(** Validation chains of POST [/api/customers]. *)
Definition validate_create (b : customer_body) : list string :=
  check_not_empty (body_first_name b) "first_name required"
  ++ check_not_empty (body_last_name b) "last_name required"
  ++ check_not_empty (body_phone_number b) "phone_number required"
  ++ (if isLength (sanitized (body_phone_number b)) 6 20 then []
      else ["phone_number length invalid"]).

(** Validation chains of PUT [/api/customers/:id]. *)
Definition validate_update (b : customer_body) : list string :=
  optional (body_first_name b) (fun v => check_not_empty v "first_name cannot be empty")
  ++ optional (body_last_name b) (fun v => check_not_empty v "last_name cannot be empty")
  ++ optional (body_phone_number b)
       (fun v => if isLength (sanitized v) 6 20 then []
                 else ["phone_number length invalid"]).

(** Validation chains of POST [/api/customers/:id/addresses]. *)
Definition validate_address (b : address_body) : list string :=
  check_not_empty (body_address_details b) "Invalid value"
  ++ check_not_empty (body_city b) "Invalid value"
  ++ check_not_empty (body_state b) "Invalid value"
  ++ check_not_empty (body_pin_code b) "Invalid value".

(** Validation chains of PUT [/api/addresses/:addressId]. *)
Definition validate_address_update (b : address_body) : list string :=
  optional (body_address_details b) (fun v => check_not_empty v "Invalid value")
  ++ optional (body_city b) (fun v => check_not_empty v "Invalid value")
  ++ optional (body_state b) (fun v => check_not_empty v "Invalid value")
  ++ optional (body_pin_code b) (fun v => check_not_empty v "Invalid value").

(** *** POST /api/customers *)

(** [if (address && address.address_details) { await runAsync(insertAddressSql, ...) }] *)
Definition insert_inline_address (customerId : Z) (address : option address_body)
  : M unit :=
  match address with
  | Some a =>
      if JS.truthy_opt (body_address_details a)
      then
        _ <- runAsync (insert_address customerId
                         (JS.to_string (body_address_details a))
                         (JS.or_string (body_city a) "")
                         (JS.or_string (body_state a) "")
                         (JS.or_string (body_pin_code a) "")) ;;
        ret tt
      else ret tt
  | None => ret tt
  end.

Definition post_customers (b : customer_body) : database -> response * database :=
  let errors := validate_create b in
  if negb (null errors) then reply (mkResponse 400 (validation_errors errors))
  else
    let first_name := sanitized (body_first_name b) in
    let last_name := sanitized (body_last_name b) in
    let phone_number := sanitized (body_phone_number b) in
    let address := body_address b in
    try_catch
      (result <- runAsync (insert_customer first_name last_name phone_number) ;;
       let customerId := lastID result in
       _ <- insert_inline_address customerId address ;;
       created <- getAsync (select_customer customerId) ;;
       ret (mkResponse 201 (customer_data created "Customer created")))
      catch_unique.

(** *** GET /api/customers *)

Definition page (q : query) : JS.number :=
  JS.or_number (JS.parseInt (query_page q)) (JS.Finite 1).
Definition limit (q : query) : JS.number :=
  JS.or_number (JS.parseInt (query_limit q)) (JS.Finite 10).
Definition offset (q : query) : JS.number :=
  JS.mul (JS.sub (page q) (JS.Finite 1)) (limit q).
Definition search (q : query) : string := JS.or_string (query_search q) "".
Definition city (q : query) : string := JS.or_string (query_city q) "".
Definition state (q : query) : string := JS.or_string (query_state q) "".
Definition pin_code (q : query) : string := JS.or_string (query_pin_code q) "".
Definition sort (q : query) : string := JS.or_string (query_sort q) "id:asc".

(** The elements pushed on [whereParts], in order. *)
Definition whereParts (q : query) : list where_part :=
  ((if JS.truthy (search q) then [search_like] else [])
   ++ (if JS.truthy (city q) then [city_in] else [])
   ++ (if JS.truthy (state q) then [state_in] else [])
   ++ (if JS.truthy (pin_code q) then [pin_code_in] else []))%list.

(** The values pushed on [params], in order. *)
Definition params (q : query) : list value :=
  ((if JS.truthy (search q)
    then [VText ("%" ++ search q ++ "%"); VText ("%" ++ search q ++ "%")] else [])
   ++ (if JS.truthy (city q) then [VText (city q)] else [])
   ++ (if JS.truthy (state q) then [VText (state q)] else [])
   ++ (if JS.truthy (pin_code q) then [VText (pin_code q)] else []))%list.

Definition allowedFields : list string :=
  ["first_name"; "last_name"; "id"; "phone_number"].

(** [sort.split(':')] destructured into its first two pieces. *)
Definition sort_pieces (q : query) : option string * option string :=
  JS.destructure2 (JS.split_colon (sort q)).

(** [if (!allowedFields.includes(sortField)) sortField = 'id'] *)
Definition sortField (q : query) : string :=
  let f := fst (sort_pieces q) in
  if negb (JS.array_includes allowedFields f) then "id" else JS.to_string f.

(** [(sortDir && sortDir.toUpperCase() === 'DESC') ? 'DESC' : 'ASC'] *)
Definition sortDir (q : query) : string :=
  let d := snd (sort_pieces q) in
  if JS.truthy_opt d && (JS.toUpperCase (JS.to_string d) =? "DESC")%string
  then "DESC" else "ASC".

Definition totalSql (q : query) : count_statement := count_customers (whereParts q).
Definition sql (q : query) : select_statement :=
  select_customers (whereParts q) (sortField q) (sortDir q).

(** How the sqlite3 module binds a number: as an integer when it is one of
    32 bits, as a floating-point number otherwise. *)
Definition bind_number (x : JS.number) : value :=
  match x with
  | JS.Finite n => if (- 2 ^ 31 <=? n) && (n <? 2 ^ 31) then VInt n else VReal x
  | _ => VReal x
  end.

(** [[...params, limit, offset]] *)
Definition page_params (q : query) : list value :=
  (params q ++ [bind_number (limit q); bind_number (offset q)])%list.

Definition get_customers (q : query) : database -> response * database :=
  try_catch
    (totalRow <- getAsync (run_count (totalSql q) (params q)) ;;
     let total :=
       match totalRow with
       | Some n => if n =? 0 then 0 else n
       | None => 0
       end in
     rows <- allAsync (run_select (sql q) (page_params q)) ;;
     ret (mkResponse 200 (customer_page rows (mkMeta (page q) (limit q) total))))
    (fun _ => internal_error).

(** *** GET /api/customers/:id *)

Definition get_customer (i : Z) : database -> response * database :=
  try_catch
    (customer <- getAsync (select_customer i) ;;
     match customer with
     | None => ret (mkResponse 404 (failure "Customer not found"))
     | Some c =>
         addresses <- allAsync (select_addresses i) ;;
         ret (mkResponse 200 (customer_detail c addresses))
     end)
    (fun _ => internal_error).

(** *** PUT /api/customers/:id *)

Definition put_customer (i : Z) (b : customer_body) : database -> response * database :=
  let errors := validate_update b in
  if negb (null errors) then reply (mkResponse 400 (validation_errors errors))
  else
    let first_name := sanitized_optional (body_first_name b) in
    let last_name := sanitized_optional (body_last_name b) in
    let phone_number := sanitized_optional (body_phone_number b) in
    try_catch
      (existing <- getAsync (select_customer i) ;;
       match existing with
       | None => ret (mkResponse 404 (failure "Customer not found"))
       | Some _ =>
           let updates : list (customer_column * string) :=
             ((if JS.truthy_opt first_name
               then [(first_name_col, JS.to_string first_name)] else [])
              ++ (if JS.truthy_opt last_name
                  then [(last_name_col, JS.to_string last_name)] else [])
              ++ (if JS.truthy_opt phone_number
                  then [(phone_number_col, JS.to_string phone_number)] else []))%list in
           if (List.length updates =? 0)%nat
           then ret (mkResponse 400 (failure "No fields to update"))
           else
             _ <- runAsync (update_customers updates i) ;;
             updated <- getAsync (select_customer i) ;;
             ret (mkResponse 200 (customer_data updated "Customer updated"))
       end)
      catch_unique.

(** *** DELETE /api/customers/:id *)

Definition delete_customer_route (i : Z) : database -> response * database :=
  try_catch
    (existing <- getAsync (select_customer i) ;;
     match existing with
     | None => ret (mkResponse 404 (failure "Customer not found"))
     | Some _ =>
         _ <- runAsync (delete_customer i) ;;
         (* addresses will be removed due to foreign key ON DELETE CASCADE *)
         ret (mkResponse 200 (succeeded "Customer deleted"))
     end)
    (fun _ => internal_error).

(** *** POST /api/customers/:id/addresses *)

Definition post_address (customerId : Z) (b : address_body)
  : database -> response * database :=
  let errors := validate_address b in
  if negb (null errors) then reply (mkResponse 400 (validation_errors errors))
  else
    let address_details := sanitized (body_address_details b) in
    let city := sanitized (body_city b) in
    let state := sanitized (body_state b) in
    let pin_code := sanitized (body_pin_code b) in
    try_catch
      (existing <- getAsync (select_customer customerId) ;;
       match existing with
       | None => ret (mkResponse 404 (failure "Customer not found"))
       | Some _ =>
           result <- runAsync (insert_address customerId address_details city state pin_code) ;;
           created <- getAsync (select_address (lastID result)) ;;
           ret (mkResponse 201 (address_data created "Address added"))
       end)
      (fun _ => internal_error).

(** *** GET /api/customers/:id/addresses *)

Definition get_addresses (customerId : Z) : database -> response * database :=
  try_catch
    (existing <- getAsync (select_customer customerId) ;;
     match existing with
     | None => ret (mkResponse 404 (failure "Customer not found"))
     | Some _ =>
         rows <- allAsync (select_addresses customerId) ;;
         ret (mkResponse 200 (address_list rows))
     end)
    (fun _ => internal_error).

(** *** PUT /api/addresses/:addressId *)

Definition put_address (addressId : Z) (b : address_body)
  : database -> response * database :=
  let errors := validate_address_update b in
  if negb (null errors) then reply (mkResponse 400 (validation_errors errors))
  else
    let address_details := sanitized_optional (body_address_details b) in
    let city := sanitized_optional (body_city b) in
    let state := sanitized_optional (body_state b) in
    let pin_code := sanitized_optional (body_pin_code b) in
    try_catch
      (existing <- getAsync (select_address addressId) ;;
       match existing with
       | None => ret (mkResponse 404 (failure "Address not found"))
       | Some _ =>
           let updates : list (address_column * string) :=
             ((if JS.truthy_opt address_details
               then [(address_details_col, JS.to_string address_details)] else [])
              ++ (if JS.truthy_opt city then [(city_col, JS.to_string city)] else [])
              ++ (if JS.truthy_opt state then [(state_col, JS.to_string state)] else [])
              ++ (if JS.truthy_opt pin_code
                  then [(pin_code_col, JS.to_string pin_code)] else []))%list in
           if (List.length updates =? 0)%nat
           then ret (mkResponse 400 (failure "No fields to update"))
           else
             _ <- runAsync (update_addresses updates addressId) ;;
             updated <- getAsync (select_address addressId) ;;
             ret (mkResponse 200 (address_data updated "Address updated"))
       end)
      (fun _ => internal_error).

(** *** DELETE /api/addresses/:addressId *)

Definition delete_address_route (addressId : Z) : database -> response * database :=
  try_catch
    (existing <- getAsync (select_address addressId) ;;
     match existing with
     | None => ret (mkResponse 404 (failure "Address not found"))
     | Some _ =>
         _ <- runAsync (delete_address addressId) ;;
         ret (mkResponse 200 (succeeded "Address deleted"))
     end)
    (fun _ => internal_error).

(** *** The service as a whole *)

(** One request to the API; path parameters are the integers SQLite reads
    them as under the INTEGER affinity of the [id] columns. *)
Inductive request :=
| POST_customers (b : customer_body)
| GET_customers (q : query)
| GET_customer (i : Z)
| PUT_customer (i : Z) (b : customer_body)
| DELETE_customer (i : Z)
| POST_address (customerId : Z) (b : address_body)
| GET_addresses (customerId : Z)
| PUT_address (addressId : Z) (b : address_body)
| DELETE_address (addressId : Z).

Definition handle (r : request) : database -> response * database :=
  match r with
  | POST_customers b => post_customers b
  | GET_customers q => get_customers q
  | GET_customer i => get_customer i
  | PUT_customer i b => put_customer i b
  | DELETE_customer i => delete_customer_route i
  | POST_address i b => post_address i b
  | GET_addresses i => get_addresses i
  | PUT_address i b => put_address i b
  | DELETE_address i => delete_address_route i
  end.

(** The database after serving the requests one after the other. *)
Fixpoint serve (rs : list request) (db : database) : database :=
  match rs with
  | [] => db
  | r :: rest => serve rest (snd (handle r db))
  end.

(** The databases the service can be in: those reached from the freshly
    opened one by serving requests. *)
Definition reachable (db : database) : Prop :=
  exists rs, db = serve rs db_open.

End Server.

(* ====================================================================== *)
(** ** The vocabulary of the specification *)
(* ====================================================================== *)

(** These definitions follow the words of the specification, not the code,
    and read the request as it arrives ([query_search], [query_city], ...);
    the theorems below compare the handlers with them. *)
Module Spec.
Import SQLite Server.

(** *** Searching *)

(** [s] is a prefix of [t], ASCII case ignored. *)
Fixpoint prefix_ci (s t : string) : bool :=
  match s, t with
  | EmptyString, _ => true
  | String _ _, EmptyString => false
  | String a s', String b t' => like_char a b && prefix_ci s' t'
  end.

(** [s] occurs in [t] as a substring, ASCII case ignored. *)
Fixpoint occurs_ci (s t : string) : bool :=
  prefix_ci s t ||
  match t with
  | EmptyString => false
  | String _ t' => occurs_ci s t'
  end.

Fixpoint lower (s : string) : string :=
  match s with
  | EmptyString => EmptyString
  | String c s' => String (lower_char c) (lower s')
  end.

(** First and last name joined by a single space. *)
Definition full_name (c : customer) : string := first_name c ++ " " ++ last_name c.

(** What a search reads of a stored text: the text up to its first NUL
    character, all of it when it has none. *)
Fixpoint before_nul (t : string) : string :=
  match t with
  | EmptyString => EmptyString
  | String c t' => if Ascii.eqb c zero then EmptyString else String c (before_nul t')
  end.

(** The search text occurs in the full name or in the phone number. *)
Definition search_matches (s : string) (c : customer) : bool :=
  occurs_ci s (before_nul (full_name c)) || occurs_ci s (before_nul (phone_number c)).

(** A text to be matched as it stands: it holds no [%], no [_] and no NUL
    character. *)
Fixpoint plain (s : string) : bool :=
  match s with
  | EmptyString => true
  | String c s' =>
      negb (Ascii.eqb c "%") && negb (Ascii.eqb c "_") && negb (Ascii.eqb c zero)
      && plain s'
  end.

(** *** Filters *)

(** The value of a parameter that is present and not empty. *)
Definition active (v : option string) : option string :=
  match v with
  | Some (String c s) => Some (String c s)
  | _ => None
  end.

(** The search filter: inactive without a search text, otherwise the full
    name or the phone number matches the LIKE pattern [%text%]. *)
Definition search_filter (v : option string) (c : customer) : bool :=
  match active v with
  | Some s => like ("%" ++ s ++ "%") (full_name c) || like ("%" ++ s ++ "%") (phone_number c)
  | None => true
  end.

(** A location filter: inactive without a value, otherwise some address of
    the customer has exactly this value in the column. *)
Definition location_filter (db : database) (column : address -> string)
  (v : option string) (c : customer) : bool :=
  match active v with
  | Some s =>
      existsb (fun a => (customer_id a =? id c) && (column a =? s)%string) (addresses db)
  | None => true
  end.

(** The conjunction of the filters of a request. *)
Definition selected (db : database) (q : query) (c : customer) : bool :=
  search_filter (query_search q) c
  && location_filter db SQLite.city (query_city q) c
  && location_filter db SQLite.state (query_state q) c
  && location_filter db SQLite.pin_code (query_pin_code q) c.

(** The customers a request selects, in table order. *)
Definition matching (db : database) (q : query) : list customer :=
  filter (selected db q) (customers db).

(** *** Sorting *)

(** The sort parameter, ['id:asc'] when it is absent or empty. *)
Definition sort_text (q : query) : string :=
  match active (query_sort q) with Some s => s | None => "id:asc" end.

(** The text before the first colon. *)
Fixpoint field_part (s : string) : string :=
  match s with
  | EmptyString => EmptyString
  | String c s' => if Ascii.eqb c ":" then EmptyString else String c (field_part s')
  end.

(** The text after the first colon, if there is a colon. *)
Fixpoint after_colon (s : string) : option string :=
  match s with
  | EmptyString => None
  | String c s' => if Ascii.eqb c ":" then Some s' else after_colon s'
  end.

(** The text between the first colon and the next one (or the end). *)
Definition direction_part (s : string) : option string :=
  option_map field_part (after_colon s).

Definition sortable : list string := ["id"; "first_name"; "last_name"; "phone_number"].

(** The field the rows are sorted by: the field part when it is a sortable
    column, [id] otherwise. *)
Definition sort_field (q : query) : string :=
  let f := field_part (sort_text q) in
  if existsb (String.eqb f) sortable then f else "id".

(** The long s, U+017F, whose upper case is [S]. *)
Definition long_s : string := JS.of_bytes [197; 191].

(** [d] is [desc] up to case: four letters, each in either case, where the
    long s counts as a lower-case [s]. *)
Definition desc_up_to_case (d : string) : bool :=
  match d with
  | String c1 (String c2 d') =>
      like_char c1 "d" && like_char c2 "e"
      && match d' with
         | String c3 (String c4 EmptyString) => like_char c3 "s" && like_char c4 "c"
         | String c3 (String c3' (String c4 EmptyString)) =>
             (String c3 (String c3' EmptyString) =? long_s)%string && like_char c4 "c"
         | _ => false
         end
  | _ => false
  end.

(** The rows are wanted in descending order. *)
Definition descending (q : query) : bool :=
  match direction_part (sort_text q) with
  | Some d => desc_up_to_case d
  | None => false
  end.

(** Ascending order by a sortable column: [id] by value, a text column byte
    by byte. *)
Definition field_le (field : string) (a b : customer) : bool :=
  if (field =? "first_name")%string then String.leb (first_name a) (first_name b)
  else if (field =? "last_name")%string then String.leb (last_name a) (last_name b)
  else if (field =? "phone_number")%string then String.leb (phone_number a) (phone_number b)
  else id a <=? id b.

(** The order a request asks for. *)
Definition row_le (q : query) (a b : customer) : bool :=
  if descending q then field_le (sort_field q) b a else field_le (sort_field q) a b.

(** The customers a request selects, in the order it asks for; customers
    that compare equal keep their table order. *)
Definition listing (db : database) (q : query) : list customer :=
  sort_rows (row_le q) (matching db q).

(** *** Paging *)

(** The decimal digits. *)
Definition is_digit (c : ascii) : bool :=
  let n := JS.code c in (48 <=? n) && (n <=? 57).

(** A value that does not read as a number: past leading white space and an
    optional sign it does not start with a digit. *)
Definition non_numeric (s : string) : bool :=
  match JS.ltrim s with
  | EmptyString => true
  | String c r =>
      if Ascii.eqb c "-" || Ascii.eqb c "+"
      then match r with String d _ => negb (is_digit d) | EmptyString => true end
      else negb (is_digit c)
  end.

(** A numeric parameter with its default: the default when the parameter is
    absent, does not read as a number or reads as zero, otherwise the number
    it reads as. *)
Definition number_or (v : option string) (d : Z) : JS.number :=
  match v with
  | None => JS.Finite d
  | Some s =>
      if non_numeric s then JS.Finite d
      else JS.or_number (JS.parseInt (Some s)) (JS.Finite d)
  end.

Definition page (q : query) : JS.number := number_or (query_page q) 1.
Definition limit (q : query) : JS.number := number_or (query_limit q) 10.

(** [(page - 1) * limit], in JavaScript's arithmetic. *)
Definition offset (q : query) : JS.number :=
  JS.mul (JS.sub (page q) (JS.Finite 1)) (limit q).

(** A number SQLite takes for LIMIT or OFFSET: an integer strictly between
    the least and the greatest 64-bit integer. *)
Definition sqlite_integer (x : JS.number) : option Z :=
  match x with
  | JS.Finite n => if (- 2 ^ 63 <? n) && (n <? 2 ^ 63 - 1) then Some n else None
  | _ => None
  end.

(** The LIMIT and the OFFSET of a request, when SQLite takes both. *)
Definition window (q : query) : option (Z * Z) :=
  match sqlite_integer (limit q), sqlite_integer (offset q) with
  | Some l, Some o => Some (l, o)
  | _, _ => None
  end.

(** The answer to a list request: the window of the listing with the page,
    the limit and the number of selected customers, or an internal error when
    SQLite refuses the LIMIT or the OFFSET. *)
Definition answer (db : database) (q : query) : response :=
  match window q with
  | Some (l, o) =>
      mkResponse 200
        (customer_page (limit_offset l o (listing db q))
           (mkMeta (page q) (limit q) (count (selected db q) (customers db))))
  | None => internal_error
  end.

(** *** Lengths *)

(** The number of characters of a text: its bytes that do not continue a
    character. *)
Fixpoint code_points (s : string) : Z :=
  match s with
  | EmptyString => 0
  | String a r => (if JS.is_continuation a then 0 else 1) + code_points r
  end.

(** The number of variation selectors, U+FE0E and U+FE0F, among them. *)
Fixpoint variation_selectors (s : string) : Z :=
  match s with
  | EmptyString => 0
  | String a r => (if JS.variation_selector s then 1 else 0) + variation_selectors r
  end.

(** *** Invariants *)

(** A computation that maintains the property [P] of the database. *)
Definition preserves (P : database -> Prop) {A} (m : database -> A * database) : Prop :=
  forall db, P db -> P (snd (m db)).

(** Foreign keys are not enforced on the connection. *)
Definition foreign_keys_off (db : database) : Prop := foreign_keys db = false.

(** Every stored phone number is free of leading and trailing white space. *)
Definition phones_trimmed (db : database) : Prop :=
  Forall (fun c => JS.trim (phone_number c) = phone_number c) (customers db).

(** A field that is absent or holds white space only. *)
Definition missing_or_blank (v : option string) : bool :=
  match v with
  | None => true
  | Some s => JS.blank s
  end.

End Spec.

(* ====================================================================== *)
(** ** Sample requests and databases *)
(* ====================================================================== *)

Module Samples.
Import SQLite Server.

Definition no_address : address_body := mkAddressBody None None None None.

(** [{ first_name: "Ann", last_name: "Lee", phone_number: "5551234",
       address: { address_details: "1 Main St", city: "Pune" } }] *)
Definition ann_body : customer_body :=
  mkCustomerBody (Some "Ann") (Some "Lee") (Some "5551234")
    (Some (mkAddressBody (Some "1 Main St") (Some "Pune") None None)).

(** [{ first_name: "Bob", last_name: "Ray", phone_number: "7771234" }] *)
Definition bob_body : customer_body :=
  mkCustomerBody (Some "Bob") (Some "Ray") (Some "7771234") None.

Definition ann : customer := mkCustomer 1 "Ann" "Lee" "5551234".
Definition bob : customer := mkCustomer 2 "Bob" "Ray" "7771234".

(** The database after the two creations on a fresh file. *)
Definition two_customers : database :=
  serve [POST_customers ann_body; POST_customers bob_body] db_open.

(** The same with two more addresses for Ann: one in Delhi, Goa and one in
    Agra, Kerala. *)
Definition three_addresses : database :=
  serve [POST_address 1 (mkAddressBody (Some "2 Hill Rd") (Some "Delhi") (Some "Goa") (Some "110001"));
         POST_address 1 (mkAddressBody (Some "3 Lake Rd") (Some "Agra") (Some "Kerala") (Some "282001"))]
        two_customers.

Definition empty_query : query := mkQuery None None None None None None None.

(** [?limit=-1] *)
Definition negative_limit : query :=
  mkQuery None (Some "-1") None None None None None.

(** [?limit=-99999999999999999999] *)
Definition huge_limit : query :=
  mkQuery None (Some "-99999999999999999999") None None None None None.

(** [?page=2&limit=1] *)
Definition second_of_one : query :=
  mkQuery (Some "2") (Some "1") None None None None None.

(** [?page=1&limit=1] *)
Definition first_of_one : query :=
  mkQuery (Some "1") (Some "1") None None None None None.



(** [?sort=bogus:desc] *)
Definition bogus_desc : query :=
  mkQuery None None None None None None (Some "bogus:desc").

(** [?sort=phone_number:desc] *)
Definition phone_desc : query :=
  mkQuery None None None None None None (Some "phone_number:desc").

(** [?sort=id:de%C5%BFc], the direction written with a long s. *)
Definition long_s_desc : query :=
  mkQuery None None None None None None (Some ("id:de" ++ Spec.long_s ++ "c")).

(** [?search=ann&city=Pune&sort=last_name:desc] *)
Definition plain_request : query :=
  mkQuery None None (Some "ann") (Some "Pune") None None (Some "last_name:desc").

(** The same shape with a hostile search text. *)
Definition hostile_request : query :=
  mkQuery (Some "3") (Some "50") (Some "x' OR 1=1; DROP TABLE customers; --")
          (Some "Delhi") None None (Some "last_name:DESC").

(** [?city=Pune&state=Kerala]: no single address of Ann has both. *)
Definition pune_kerala : query :=
  mkQuery None None None (Some "Pune") (Some "Kerala") None None.

(** [?limit=9223372036854775808], that is 2^63, with no page. *)
Definition limit_2_63 : query :=
  mkQuery None (Some "9223372036854775808") None None None None None.

(** [?page=abc&limit=xyz] *)
Definition words_for_numbers : query :=
  mkQuery (Some "abc") (Some "xyz") None None None None None.

(** Seven euro signs: seven characters, twenty-one bytes. *)
Definition seven_euros : string :=
  JS.of_bytes [226; 130; 172; 226; 130; 172; 226; 130; 172; 226; 130; 172;
               226; 130; 172; 226; 130; 172; 226; 130; 172].

End Samples.

(* ====================================================================== *)
(** ** The browser client *)
(* ====================================================================== *)

(** The parts of the React pages that decide what is shown and what is
    requested: the pagination controls of the customer list and the checks
    the two forms make before they send anything. *)
Module Client.
Import SQLite Server.

(** [Math.ceil(a / b)] for an integer [a] and a number [b], computed on the
    exact quotient.  JavaScript rounds the quotient to a double before it
    takes the ceiling; for [0 <= a < 2^53] and [b > 0] the ceiling is the
    same, since the quotient then lies at least [1 / b] above the integer
    below it, more than the rounding can bridge. *)
Definition ceil_div (a : Z) (b : JS.number) : JS.number :=
  match b with
  | JS.Finite b =>
      if b =? 0 then JS.infinity_of_sign a else JS.Finite (- ((- a) / b))
  | JS.NaN => JS.NaN
  | _ => JS.Finite 0
  end.

(** [Math.ceil(meta.total/meta.limit)||1], the page count shown. *)
Definition page_count (m : meta) : JS.number :=
  JS.or_number (ceil_div (meta_total m) (meta_limit m)) (JS.Finite 1).

(** [disabled={meta.page<=1}] on the Prev button. *)
Definition prev_disabled (m : meta) : bool := JS.leb (meta_page m) (JS.Finite 1).

(** [disabled={meta.page*meta.limit>=meta.total}] on the Next button. *)
Definition next_disabled (m : meta) : bool :=
  JS.geb (JS.mul (meta_page m) (meta_limit m)) (JS.Finite (meta_total m)).

(** The state [form] of the customer form page. *)
Record customer_form := mkCustomerForm {
  form_first_name : string;
  form_last_name : string;
  form_phone_number : string
}.

(** The state [form] of the address form. *)
Record address_form := mkAddressForm {
  form_address_details : string;
  form_city : string;
  form_state : string;
  form_pin_code : string
}.

(** [load] of the edit page: the form takes the three fields of the customer
    that GET [/api/customers/:id] returned. *)
Definition load (data : customer) : customer_form :=
  mkCustomerForm (first_name data) (last_name data) (phone_number data).

(** The JSON the forms are sent as. *)
Definition customer_form_body (f : customer_form) : customer_body :=
  mkCustomerBody (Some (form_first_name f)) (Some (form_last_name f))
                 (Some (form_phone_number f)) None.

Definition address_form_body (f : address_form) : address_body :=
  mkAddressBody (Some (form_address_details f)) (Some (form_city f))
                (Some (form_state f)) (Some (form_pin_code f)).

(** What a submit handler does first: warn the user with [alert], or send a
    request through the [api] module, whose paths are taken to be those of
    the server under [/api]. *)
Inductive submission :=
| warn (text : string)
| send (r : request).

(** [handleSubmit] of the customer form page, up to the request it sends:
    [id] is the route parameter, present on the edit page. *)
Definition handleSubmit (id : option Z) (form : customer_form) : submission :=
  if negb (JS.truthy (form_first_name form))
     || negb (JS.truthy (form_last_name form))
     || negb (JS.truthy (form_phone_number form))
  then warn "Fill required fields"
  else match id with
       | Some i => send (PUT_customer i (customer_form_body form))
       | None => send (POST_customers (customer_form_body form))
       end.

(** [submit] of the address form followed by [addAddress], up to the request
    sent. *)
Definition submit (customerId : Z) (form : address_form) : submission :=
  if negb (JS.truthy (form_address_details form))
  then warn "Enter details"
  else send (POST_address customerId (address_form_body form)).

End Client.

(* ====================================================================== *)
(** ** What the stored rows look like *)
(* ====================================================================== *)

Module Stored.
Import SQLite Server.

(** A customer row as the validation chains let it in: names trimmed and not
    empty, phone number trimmed and of 6 to 20 characters. *)
Definition valid_customer (c : customer) : Prop :=
  JS.trim (first_name c) = first_name c /\ first_name c <> ""
  /\ JS.trim (last_name c) = last_name c /\ last_name c <> ""
  /\ JS.trim (phone_number c) = phone_number c
  /\ isLength (phone_number c) 6 20 = true.

(** An assignment as the update handler collects it: a trimmed, non-empty
    value, of 6 to 20 characters for the phone number. *)
Definition valid_assignment (kv : customer_column * string) : Prop :=
  JS.trim (snd kv) = snd kv /\ snd kv <> ""
  /\ (fst kv = phone_number_col -> isLength (snd kv) 6 20 = true).

(** Row ids are distinct and lie between 1 and the AUTOINCREMENT counter of
    their table. *)
Definition ids_issued (db : database) : Prop :=
  (0 <= seq_customers db /\ 0 <= seq_addresses db)
  /\ NoDup (map id (customers db))
  /\ Forall (fun c => 1 <= id c <= seq_customers db) (customers db)
  /\ NoDup (map address_id (addresses db))
  /\ Forall (fun a => 1 <= address_id a <= seq_addresses db) (addresses db).

(** No two customers share a phone number. *)
Definition phones_unique (db : database) : Prop :=
  NoDup (map phone_number (customers db)).

(** Every address has some details and refers to a customer id that has been
    issued. *)
Definition addresses_anchored (db : database) : Prop :=
  Forall (fun a => 1 <= customer_id a <= seq_customers db /\ address_details a <> "")
         (addresses db).

(** All of the above. *)
Definition well_formed (db : database) : Prop :=
  ids_issued db
  /\ phones_unique db
  /\ Forall valid_customer (customers db)
  /\ addresses_anchored db.

(** The customers of [db'] carry ids that [db] already had, or ids above the
    counter of [db]; the counter has not gone down. *)
Definition ids_from (db db' : database) : Prop :=
  seq_customers db <= seq_customers db'
  /\ Forall (fun c => In (id c) (map id (customers db)) \/ seq_customers db < id c)
            (customers db').

(** The value a field has after a partial update: the trimmed submitted
    value, or the old one when the field was not submitted. *)
Definition pick (v : option string) (old : string) : string :=
  match v with Some s => JS.trim s | None => old end.

(** The assignment a submitted field gives rise to. *)
Definition assignment {K} (k : K) (v : option string) : list (K * string) :=
  match v with Some s => [(k, JS.trim s)] | None => [] end.

(** Two list requests that differ at most in the page. *)
Definition same_but_page (q q' : query) : Prop :=
  query_limit q' = query_limit q /\ query_search q' = query_search q
  /\ query_city q' = query_city q /\ query_state q' = query_state q
  /\ query_pin_code q' = query_pin_code q /\ query_sort q' = query_sort q.

(** The answers that report a client error. *)
Definition client_error (r : response) : bool :=
  (status r =? 400) || (status r =? 404) || (status r =? 409).

End Stored.

(* ====================================================================== *)
(** ** White space, trimming and upper case *)
(* ====================================================================== *)

Section Strings.

Lemma code_inj (a b : ascii) : JS.code a = JS.code b -> a = b.
Proof.
  unfold JS.code. intros H. apply N2Z.inj in H.
  rewrite <- (ascii_N_embedding a), <- (ascii_N_embedding b). now rewrite H.
Qed.

(** Stripping a white-space character leaves a shorter string. *)
Lemma strip_space_shorter (s r : string) :
  JS.strip_space s = Some r -> (String.length r < String.length s)%nat.
Proof.
  destruct s as [|a [|b [|c s]]]; cbn.
  - discriminate.
  - destruct (JS.space1 a); [|discriminate]. intros H. injection H as <-. cbn. lia.
  - destruct (JS.space1 a); [intros H; injection H as <-; cbn; lia|].
    destruct (JS.space2 a b); [|discriminate]. intros H. injection H as <-. cbn. lia.
  - destruct (JS.space1 a); [intros H; injection H as <-; cbn; lia|].
    destruct (JS.space2 a b); [intros H; injection H as <-; cbn; lia|].
    destruct (JS.space3 a b c); [|discriminate]. intros H. injection H as <-. cbn. lia.
Qed.

(** [ltrim] and [blank] go through the string one white-space character at
    a time. *)
Lemma ltrim_step (s : string) :
  JS.ltrim s = match JS.strip_space s with Some r => JS.ltrim r | None => s end.
Proof.
  destruct s as [|a [|b [|c s]]]; cbn [JS.ltrim JS.strip_space]; try reflexivity.
  - destruct (JS.space1 a); reflexivity.
  - destruct (JS.space1 a); [reflexivity|]. destruct (JS.space2 a b); reflexivity.
  - destruct (JS.space1 a); [reflexivity|]. destruct (JS.space2 a b); [reflexivity|].
    destruct (JS.space3 a b c); reflexivity.
Qed.

Lemma blank_step (s : string) :
  JS.blank s = match s with
               | EmptyString => true
               | String _ _ =>
                   match JS.strip_space s with Some r => JS.blank r | None => false end
               end.
Proof.
  destruct s as [|a [|b [|c s]]]; cbn [JS.blank JS.strip_space]; try reflexivity.
  - destruct (JS.space1 a); reflexivity.
  - destruct (JS.space1 a); [reflexivity|]. destruct (JS.space2 a b); reflexivity.
  - destruct (JS.space1 a); [reflexivity|]. destruct (JS.space2 a b); [reflexivity|].
    destruct (JS.space3 a b c); reflexivity.
Qed.

(** Induction along [strip_space]. *)
Lemma strip_space_ind (P : string -> Prop) :
  (forall s, (forall r, JS.strip_space s = Some r -> P r) -> P s) ->
  forall s, P s.
Proof.
  intros step s.
  assert (H : forall n s, (String.length s <= n)%nat -> P s).
  { induction n as [|n IH]; intros t Ht; apply step; intros r Hr;
      apply strip_space_shorter in Hr; [lia | apply IH; lia]. }
  apply (H (String.length s)). lia.
Qed.

(** What [ltrim] returns does not start with white space. *)
Lemma ltrim_head (s : string) : JS.strip_space (JS.ltrim s) = None.
Proof.
  induction s as [s IH] using strip_space_ind.
  rewrite ltrim_step. destruct (JS.strip_space s) as [r|] eqn:E; [now apply IH | exact E].
Qed.

Lemma ltrim_fixed (s : string) : JS.strip_space s = None -> JS.ltrim s = s.
Proof. intros H. now rewrite ltrim_step, H. Qed.

(** Appending to a string that starts with white space. *)
Lemma strip_space_app (s r w : string) :
  JS.strip_space s = Some r -> JS.strip_space (s ++ w) = Some (r ++ w).
Proof.
  destruct s as [|a [|b [|c s]]]; cbn [JS.strip_space append].
  - discriminate.
  - destruct (JS.space1 a); [|discriminate]. intros H. now injection H as <-.
  - destruct (JS.space1 a); [intros H; now injection H as <-|].
    destruct (JS.space2 a b); [|discriminate]. intros H. now injection H as <-.
  - destruct (JS.space1 a); [intros H; now injection H as <-|].
    destruct (JS.space2 a b); [intros H; now injection H as <-|].
    destruct (JS.space3 a b c); [|discriminate]. intros H. now injection H as <-.
Qed.

(** A string that starts with white space has a prefix that does, however
    short the prefix is cut: a prefix that starts with white space shows
    that the string does. *)
Lemma strip_space_prefix (s w : string) :
  JS.strip_space (s ++ w) = None -> JS.strip_space s = None.
Proof.
  intros H. destruct (JS.strip_space s) as [r|] eqn:E; [|reflexivity].
  now rewrite (strip_space_app _ _ w E) in H.
Qed.

Lemma blank_app (s w : string) :
  JS.blank s = true -> JS.blank w = true -> JS.blank (s ++ w) = true.
Proof.
  induction s as [s IH] using strip_space_ind. intros Hs Hw.
  destruct s as [|a s']; [exact Hw|].
  rewrite blank_step in Hs.
  destruct (JS.strip_space (String a s')) as [r|] eqn:E; [|discriminate].
  change (String a s' ++ w) with (String a (s' ++ w)).
  rewrite blank_step.
  change (String a (s' ++ w)) with (String a s' ++ w).
  rewrite (strip_space_app _ _ w E). now apply IH.
Qed.

(** [rtrim] cuts a blank suffix off. *)
Lemma rtrim_split (s : string) : exists w, s = JS.rtrim s ++ w /\ JS.blank w = true.
Proof.
  induction s as [|a s [w [E B]]].
  - exists "". split; reflexivity.
  - cbn [JS.rtrim]. destruct (JS.blank (String a s)) eqn:Hb.
    + exists (String a s). split; [reflexivity | exact Hb].
    + exists w. split; [cbn; now rewrite <- E | exact B].
Qed.

Lemma rtrim_empty (s : string) : JS.is_empty (JS.rtrim s) = JS.blank s.
Proof.
  destruct s as [|a s]; [reflexivity|].
  cbn [JS.rtrim]. destruct (JS.blank (String a s)); reflexivity.
Qed.

Lemma rtrim_rtrim (s : string) : JS.rtrim (JS.rtrim s) = JS.rtrim s.
Proof.
  induction s as [|a s IH]; [reflexivity|].
  cbn [JS.rtrim]. destruct (JS.blank (String a s)) eqn:Hb; [reflexivity|].
  cbn [JS.rtrim]. rewrite IH.
  destruct (JS.blank (String a (JS.rtrim s))) eqn:Hc; [|reflexivity].
  destruct (rtrim_split s) as [w [E B]].
  rewrite E in Hb. change (String a (JS.rtrim s ++ w)) with (String a (JS.rtrim s) ++ w) in Hb.
  rewrite (blank_app _ _ Hc B) in Hb. discriminate.
Qed.

(** Cutting the blank suffix off does not bring white space to the front. *)
Lemma rtrim_head (s : string) :
  JS.strip_space s = None -> JS.strip_space (JS.rtrim s) = None.
Proof.
  intros H. destruct (rtrim_split s) as [w [E B]].
  rewrite E in H. now apply strip_space_prefix in H.
Qed.

(** Trimming twice is trimming once. *)
Lemma trim_trim (s : string) : JS.trim (JS.trim s) = JS.trim s.
Proof.
  unfold JS.trim.
  rewrite (ltrim_fixed (JS.rtrim (JS.ltrim s))) by apply rtrim_head, ltrim_head.
  apply rtrim_rtrim.
Qed.

Lemma blank_ltrim (s : string) : JS.blank (JS.ltrim s) = JS.blank s.
Proof.
  induction s as [s IH] using strip_space_ind.
  rewrite ltrim_step, (blank_step s).
  destruct (JS.strip_space s) as [r|] eqn:E.
  - rewrite (IH r eq_refl). destruct s; [discriminate | reflexivity].
  - destruct s; [reflexivity|]. rewrite blank_step, E. reflexivity.
Qed.

(** A field is empty after [trim] exactly when it is blank. *)
Lemma trim_empty (s : string) : JS.is_empty (JS.trim s) = JS.blank s.
Proof. unfold JS.trim. now rewrite rtrim_empty, blank_ltrim. Qed.

(** What [isLength] counts: the characters that are not variation
    selectors. *)
Lemma characters_split (s : string) :
  JS.characters s = Spec.code_points s - Spec.variation_selectors s
  /\ 0 <= Spec.variation_selectors s <= Spec.code_points s.
Proof.
  induction s as [|a r [IH1 IH2]]; [cbn; lia|].
  cbn [JS.characters Spec.code_points Spec.variation_selectors].
  rewrite IH1.
  destruct (JS.variation_selector (String a r)) eqn:V.
  - assert (C : JS.is_continuation a = false).
    { destruct r as [|b [|c r']]; try discriminate. cbn [JS.variation_selector] in V.
      apply andb_true_iff in V as [V _]. apply andb_true_iff in V as [V _].
      apply Z.eqb_eq in V. unfold JS.is_continuation. rewrite V. reflexivity. }
    rewrite C. cbn [orb]. lia.
  - rewrite orb_false_r. destruct (JS.is_continuation a); lia.
Qed.

(** A string of at least one counted character is not empty. *)
Lemma characters_truthy (s : string) : 0 < JS.characters s -> JS.truthy s = true.
Proof. destruct s; [cbn; lia | reflexivity]. Qed.

(** *** Upper case *)

Lemma upper_is_D (c : ascii) : Ascii.eqb (JS.upper_char c) "D" = SQLite.like_char c "d".
Proof. destruct c as [[] [] [] [] [] [] [] []]; reflexivity. Qed.
Lemma upper_is_E (c : ascii) : Ascii.eqb (JS.upper_char c) "E" = SQLite.like_char c "e".
Proof. destruct c as [[] [] [] [] [] [] [] []]; reflexivity. Qed.
Lemma upper_is_S (c : ascii) : Ascii.eqb (JS.upper_char c) "S" = SQLite.like_char c "s".
Proof. destruct c as [[] [] [] [] [] [] [] []]; reflexivity. Qed.
Lemma upper_is_C (c : ascii) : Ascii.eqb (JS.upper_char c) "C" = SQLite.like_char c "c".
Proof. destruct c as [[] [] [] [] [] [] [] []]; reflexivity. Qed.

(** The three ways [toUpperCase] deals with the head of a string. *)
Lemma toUpperCase_step (a : ascii) (r : string) :
  JS.toUpperCase (String a r) = String (JS.upper_char a) (JS.toUpperCase r)
  \/ (exists b r2 u, r = String b r2 /\ JS.upper2 a b = Some u
                     /\ JS.toUpperCase (String a r) = u ++ JS.toUpperCase r2)
  \/ (exists b c r3 u, r = String b (String c r3) /\ JS.upper3 a b c = Some u
                       /\ JS.toUpperCase (String a r) = u ++ JS.toUpperCase r3).
Proof.
  destruct r as [|b [|c r3]]; cbn [JS.toUpperCase].
  - left. reflexivity.
  - destruct (JS.upper2 a b) as [u|] eqn:E; [|left; reflexivity].
    right. left. exists b, "", u. auto.
  - destruct (JS.upper2 a b) as [u|] eqn:E.
    + right. left. exists b, (String c r3), u. auto.
    + destruct (JS.upper3 a b c) as [u|] eqn:E3; [|left; reflexivity].
      right. right. exists b, c, r3, u. auto.
Qed.

(** The upper case of a character of two bytes: [S] for the long s, and
    otherwise a text that does not start with [D], [E] or [C], nor with [S]
    followed by [C] or by nothing. *)
Lemma upper2_values (a b : ascii) (u : string) :
  JS.upper2 a b = Some u ->
  (u = "S" /\ String a (String b "") = Spec.long_s)
  \/ u = "SS" \/ u = "I" \/ u = JS.of_bytes [202; 188; 78] \/ u = JS.of_bytes [74; 204; 140].
Proof.
  unfold JS.upper2.
  destruct ((JS.code a =? 195) && (JS.code b =? 159)); [intros H; injection H as <-; auto|].
  destruct ((JS.code a =? 196) && (JS.code b =? 177)); [intros H; injection H as <-; auto|].
  destruct ((JS.code a =? 197) && (JS.code b =? 137)); [intros H; injection H as <-; auto 6|].
  destruct ((JS.code a =? 197) && (JS.code b =? 191)) eqn:E.
  { intros H. injection H as <-. left. split; [reflexivity|].
    apply andb_true_iff in E as [Ea Eb]. apply Z.eqb_eq in Ea, Eb.
    rewrite (code_inj a (ascii_of_N 197)), (code_inj b (ascii_of_N 191)) by assumption.
    reflexivity. }
  destruct ((JS.code a =? 199) && (JS.code b =? 176)); [intros H; injection H as <-; auto 6|].
  discriminate.
Qed.

Lemma upper3_values (a b c : ascii) (u : string) :
  JS.upper3 a b c = Some u ->
  In u [JS.of_bytes [72; 204; 177]; JS.of_bytes [84; 204; 136]; JS.of_bytes [87; 204; 138];
        JS.of_bytes [89; 204; 138]; JS.of_bytes [65; 202; 190];
        "FF"; "FI"; "FL"; "FFI"; "FFL"; "ST"].
Proof.
  unfold JS.upper3.
  repeat match goal with
         | |- context [if ?x then _ else _] => destruct x
         end;
    intros H; try discriminate; injection H as <-; cbn; auto 20.
Qed.

Lemma toUpperCase_empty (s : string) : JS.toUpperCase s = "" -> s = "".
Proof.
  destruct s as [|a r]; [reflexivity|]. intros H.
  destruct (toUpperCase_step a r) as [E | [[b [r2 [u [-> [Hu E]]]]] | [b [c [r3 [u [-> [Hu E]]]]]]]];
    rewrite E in H.
  - discriminate.
  - apply upper2_values in Hu.
    destruct Hu as [[-> _] | [-> | [-> | [-> | ->]]]]; discriminate.
  - apply upper3_values in Hu. cbn in Hu.
    repeat (destruct Hu as [<- | Hu]; [discriminate|]). contradiction.
Qed.

End Strings.
(* ====================================================================== *)
(** ** Reading the sort and the paging parameters *)
(* ====================================================================== *)

Section Parsing.
Import SQLite Server.

(** Destructuring [sort.split(':')] gives the text before the first colon
    and, when there is a colon, the text up to the next one. *)
Lemma split_colon_pieces (s : string) :
  JS.destructure2 (JS.split_colon s)
  = (Some (Spec.field_part s), Spec.direction_part s).
Proof.
  unfold JS.destructure2, Spec.direction_part.
  induction s as [|c s IH]; [reflexivity|].
  cbn [JS.split_colon Spec.field_part Spec.after_colon].
  injection IH as IH0 IH1.
  destruct (Ascii.eqb c ":").
  - cbn [nth_error option_map]. now rewrite IH0.
  - destruct (JS.split_colon s) as [|p ps]; [discriminate|].
    cbn [nth_error] in *. injection IH0 as ->. now rewrite <- IH1.
Qed.

(** When the upper case of a text starts with [D], [E] or [C], so does the
    upper case of its first byte. *)
Lemma toUpperCase_head (s : string) (x : ascii) (t : string) :
  In x ["D"; "E"; "C"]%char ->
  JS.toUpperCase s = String x t ->
  exists a r, s = String a r /\ JS.upper_char a = x /\ JS.toUpperCase r = t.
Proof.
  intros Hx H. destruct s as [|a r]; [discriminate|].
  destruct (toUpperCase_step a r)
    as [E | [[b [r2 [u [-> [Hu E]]]]] | [b [c [r3 [u [-> [Hu E]]]]]]]];
    rewrite E in H; clear E.
  - injection H as H1 H2. eauto.
  - exfalso. apply upper2_values in Hu.
    destruct Hu as [[-> _] | [-> | [-> | [-> | ->]]]];
      injection H as H1 _; subst x; cbn in Hx; intuition discriminate.
  - exfalso. apply upper3_values in Hu. cbn in Hu.
    repeat (destruct Hu as [<- | Hu];
            [injection H as H1 _; subst x; cbn in Hx; intuition discriminate|]).
    contradiction.
Qed.

(** When it starts with [SC], the text starts with an [s] in either case or
    with a long s. *)
Lemma toUpperCase_head_S (s t : string) :
  JS.toUpperCase s = String "S" (String "C" t) ->
  (exists a r, s = String a r /\ JS.upper_char a = "S"%char
               /\ JS.toUpperCase r = String "C" t)
  \/ (exists r, s = Spec.long_s ++ r /\ JS.toUpperCase r = String "C" t).
Proof.
  intros H. destruct s as [|a r]; [discriminate|].
  destruct (toUpperCase_step a r)
    as [E | [[b [r2 [u [-> [Hu E]]]]] | [b [c [r3 [u [-> [Hu E]]]]]]]];
    rewrite E in H; clear E.
  - injection H as H1 H2. left. eauto.
  - apply upper2_values in Hu.
    destruct Hu as [[-> Hs] | [-> | [-> | [-> | ->]]]]; try discriminate.
    right. exists r2. split.
    + change (String a (String b r2)) with (String a (String b "") ++ r2).
      now rewrite Hs.
    + now injection H.
  - exfalso. apply upper3_values in Hu. cbn in Hu.
    repeat (destruct Hu as [<- | Hu]; [discriminate|]).
    contradiction.
Qed.

Lemma like_char_d (c : ascii) : like_char c "d" = true -> c = "d"%char \/ c = "D"%char.
Proof. destruct c as [[] [] [] [] [] [] [] []]; cbn; (discriminate || auto). Qed.
Lemma like_char_e (c : ascii) : like_char c "e" = true -> c = "e"%char \/ c = "E"%char.
Proof. destruct c as [[] [] [] [] [] [] [] []]; cbn; (discriminate || auto). Qed.
Lemma like_char_s (c : ascii) : like_char c "s" = true -> c = "s"%char \/ c = "S"%char.
Proof. destruct c as [[] [] [] [] [] [] [] []]; cbn; (discriminate || auto). Qed.
Lemma like_char_c (c : ascii) : like_char c "c" = true -> c = "c"%char \/ c = "C"%char.
Proof. destruct c as [[] [] [] [] [] [] [] []]; cbn; (discriminate || auto). Qed.

(** [d.toUpperCase() === 'DESC'] says that [d] is [desc] up to case. *)
Lemma upper_is_DESC (d : string) :
  (JS.toUpperCase d =? "DESC")%string = Spec.desc_up_to_case d.
Proof.
  destruct (String.eqb_spec (JS.toUpperCase d) "DESC") as [H|H].
  - symmetry.
    apply toUpperCase_head in H as [c1 [r1 [-> [H1 H]]]]; [|cbn; auto].
    apply toUpperCase_head in H as [c2 [r2 [-> [H2 H]]]]; [|cbn; auto].
    apply (f_equal (fun x => Ascii.eqb x "D")) in H1. rewrite upper_is_D in H1.
    apply (f_equal (fun x => Ascii.eqb x "E")) in H2. rewrite upper_is_E in H2.
    cbn in H1, H2. cbn [Spec.desc_up_to_case]. rewrite H1, H2. cbn [andb].
    apply toUpperCase_head_S in H as [[c3 [r3 [-> [H3 H]]]] | [r3 [-> H]]];
      apply toUpperCase_head in H as [c4 [r4 [-> [H4 H]]]]; try (cbn; auto);
      apply toUpperCase_empty in H; subst r4;
      apply (f_equal (fun x => Ascii.eqb x "C")) in H4; rewrite upper_is_C in H4;
      cbn in H4.
    + apply (f_equal (fun x => Ascii.eqb x "S")) in H3. rewrite upper_is_S in H3.
      cbn in H3. now rewrite H3, H4.
    + cbn. now rewrite H4.
  - symmetry. apply not_true_iff_false. intros D. apply H. clear H.
    destruct d as [|c1 [|c2 d']]; try discriminate.
    cbn [Spec.desc_up_to_case] in D.
    apply andb_true_iff in D as [D D3]. apply andb_true_iff in D as [D1 D2].
    apply like_char_d in D1. apply like_char_e in D2.
    destruct d' as [|c3 [|c4 [|c5 [|c6 d']]]]; try discriminate.
    + apply andb_true_iff in D3 as [D3 D4].
      apply like_char_s in D3. apply like_char_c in D4.
      destruct D1, D2, D3, D4; subst; reflexivity.
    + apply andb_true_iff in D3 as [D3 D4].
      apply String.eqb_eq in D3. injection D3 as -> ->.
      apply like_char_c in D4.
      destruct D1, D2, D4; subst; reflexivity.
Qed.

(** The text with a long s. *)
Example long_s_is_desc : JS.toUpperCase ("de" ++ Spec.long_s ++ "c") = "DESC".
Proof. reflexivity. Qed.

Lemma digits_stop (d : ascii) (r : string) :
  Spec.is_digit d = false -> JS.digits 10 (String d r) None = None.
Proof.
  unfold Spec.is_digit, JS.digits, JS.digit_value. intros H.
  rewrite H.
  destruct ((97 <=? JS.code d) && (JS.code d <=? 122)) eqn:E1.
  - apply andb_true_iff in E1 as [E1 _]. apply Z.leb_le in E1.
    destruct (JS.code d - 87 <? 10) eqn:E; [apply Z.ltb_lt in E; lia | reflexivity].
  - destruct ((65 <=? JS.code d) && (JS.code d <=? 90)) eqn:E2; [|reflexivity].
    apply andb_true_iff in E2 as [E2 _]. apply Z.leb_le in E2.
    destruct (JS.code d - 55 <? 10) eqn:E; [apply Z.ltb_lt in E; lia | reflexivity].
Qed.

Lemma zero_is_digit (c : ascii) : Ascii.eqb c "0" = true -> Spec.is_digit c = true.
Proof. intros H. apply Ascii.eqb_eq in H. now subst. Qed.

(** No radix prefix and no digit to read: the digits of a text that does not
    start with a digit. *)
Lemma no_leading_digit (s : string) :
  match s with String d _ => Spec.is_digit d = false | EmptyString => True end ->
  (let '(radix, s3) :=
     match s with
     | String z (String x r) =>
         if Ascii.eqb z "0" && (Ascii.eqb x "x" || Ascii.eqb x "X")
         then (16, r) else (10, s)
     | _ => (10, s)
     end in JS.digits radix s3 None) = None.
Proof.
  destruct s as [|z [|x r]]; intros H; [reflexivity | now apply digits_stop |].
  destruct (Ascii.eqb z "0") eqn:E.
  - apply zero_is_digit in E. congruence.
  - cbn [andb]. now apply digits_stop.
Qed.

(** [parseInt] of a value that does not read as a number is [NaN]. *)
Lemma parseInt_non_numeric (s : string) :
  Spec.non_numeric s = true -> JS.parseInt (Some s) = JS.NaN.
Proof.
  unfold Spec.non_numeric, JS.parseInt.
  destruct (JS.ltrim s) as [|c r]; [reflexivity|].
  destruct (Ascii.eqb c "-") eqn:Em; cbn [orb].
  - intros H.
    assert (G := no_leading_digit r).
    destruct r as [|d r']; [reflexivity|].
    apply negb_true_iff in H. specialize (G H).
    destruct (match String d r' with
              | String z (String x r0) =>
                  if Ascii.eqb z "0" && (Ascii.eqb x "x" || Ascii.eqb x "X")
                  then (16, r0) else (10, String d r')
              | _ => (10, String d r')
              end) as [radix s3].
    now rewrite G.
  - destruct (Ascii.eqb c "+") eqn:Ep.
    + intros H.
      assert (G := no_leading_digit r).
      destruct r as [|d r']; [reflexivity|].
      apply negb_true_iff in H. specialize (G H).
      destruct (match String d r' with
                | String z (String x r0) =>
                    if Ascii.eqb z "0" && (Ascii.eqb x "x" || Ascii.eqb x "X")
                    then (16, r0) else (10, String d r')
                | _ => (10, String d r')
                end) as [radix s3].
      now rewrite G.
    + intros H. apply negb_true_iff in H.
      assert (G := no_leading_digit (String c r) H).
      destruct (match String c r with
                | String z (String x r0) =>
                    if Ascii.eqb z "0" && (Ascii.eqb x "x" || Ascii.eqb x "X")
                    then (16, r0) else (10, String c r)
                | _ => (10, String c r)
                end) as [radix s3].
      now rewrite G.
Qed.

(** [parseInt(v) || d] is the parameter with its default. *)
Lemma or_number_spec (v : option string) (d : Z) :
  JS.or_number (JS.parseInt v) (JS.Finite d) = Spec.number_or v d.
Proof.
  destruct v as [s|]; [|reflexivity]. unfold Spec.number_or.
  destruct (Spec.non_numeric s) eqn:E; [|reflexivity].
  now rewrite parseInt_non_numeric.
Qed.

(** An integer up to 2^53 is a double. *)
Lemma double_exact (n : Z) : Z.abs n <= 2 ^ 53 -> JS.double n = JS.Finite n.
Proof.
  intros H. unfold JS.double.
  destruct (Z.abs n <=? 2 ^ 53) eqn:E; [reflexivity | apply Z.leb_gt in E; lia].
Qed.

(** What SQLite makes of a bound number where it wants an integer. *)
Lemma must_be_int_bind (x : JS.number) :
  must_be_int (bind_number x) = Spec.sqlite_integer x.
Proof.
  destruct x as [n| | |]; try reflexivity. cbn [bind_number Spec.sqlite_integer].
  destruct ((- 2 ^ 31 <=? n) && (n <? 2 ^ 31)) eqn:E; [|reflexivity].
  cbn [must_be_int]. apply andb_true_iff in E as [E1 E2].
  apply Z.leb_le in E1. apply Z.ltb_lt in E2.
  assert (H1 : (- 2 ^ 63 <? n) = true) by (apply Z.ltb_lt; lia).
  assert (H2 : (n <? 2 ^ 63 - 1) = true) by (apply Z.ltb_lt; lia).
  now rewrite H1, H2.
Qed.

End Parsing.
(* ====================================================================== *)
(** ** Properties of the list handler *)
(* ====================================================================== *)

Section ListQuery.
Import SQLite Server.

Variable db : database.
Variable q : query.

(** The WHERE clause with its positional parameters is the conjunction of the
    filters of the request; the trailing LIMIT and OFFSET parameters do not
    disturb it. *)
Lemma where_holds_selected (extra : list value) (c : customer) :
  where_holds db (whereParts q) (params q ++ extra)%list c = Spec.selected db q c.
Proof.
  unfold whereParts, params, search, city, state, pin_code,
    Spec.selected, Spec.search_filter, Spec.location_filter.
  destruct (query_search q) as [[|a1 s1]|]; destruct (query_city q) as [[|a2 s2]|];
    destruct (query_state q) as [[|a3 s3]|]; destruct (query_pin_code q) as [[|a4 s4]|];
    cbn [JS.or_string JS.truthy JS.is_empty negb app where_holds part_holds
         placeholders skipn orb Spec.active];
    unfold Spec.full_name, has_address;
    rewrite ?andb_true_r, ?andb_true_l, ?andb_assoc; reflexivity.
Qed.

Lemma after_where_extra (extra : list value) :
  after_where (whereParts q) (params q ++ extra)%list = extra.
Proof.
  unfold whereParts, params.
  destruct (search q); destruct (city q); destruct (state q); destruct (pin_code q);
    reflexivity.
Qed.

(** The sort field placed in the SQL text is one of the four allowed
    columns, the direction one of the two keywords. *)
Lemma sortField_allowed :
  sortField q = "id" \/ sortField q = "first_name"
  \/ sortField q = "last_name" \/ sortField q = "phone_number".
Proof.
  unfold sortField.
  destruct (fst (sort_pieces q)) as [f|]; cbn [JS.array_includes allowedFields existsb];
    [|cbn; auto].
  destruct (String.eqb_spec f "first_name") as [->|]; [cbn; auto|].
  destruct (String.eqb_spec f "last_name") as [->|]; [cbn; auto|].
  destruct (String.eqb_spec f "id") as [->|]; [cbn; auto|].
  destruct (String.eqb_spec f "phone_number") as [->|]; cbn; auto.
Qed.

Lemma sortDir_keyword : sortDir q = "ASC" \/ sortDir q = "DESC".
Proof.
  unfold sortDir.
  destruct (JS.truthy_opt _ && _); auto.
Qed.

Lemma sort_text_spec : sort q = Spec.sort_text q.
Proof.
  unfold sort, Spec.sort_text. destruct (query_sort q) as [[|c s]|]; reflexivity.
Qed.

(** The field and the direction the handler settles on are those the
    request asks for. *)
Lemma sortField_spec : sortField q = Spec.sort_field q.
Proof.
  unfold sortField, sort_pieces, Spec.sort_field.
  rewrite sort_text_spec, split_colon_pieces. cbn [fst JS.to_string].
  set (f := Spec.field_part (Spec.sort_text q)).
  cbn [JS.array_includes allowedFields Spec.sortable existsb].
  destruct (f =? "first_name")%string, (f =? "last_name")%string,
    (f =? "id")%string, (f =? "phone_number")%string; reflexivity.
Qed.

Lemma sortDir_spec : sortDir q = if Spec.descending q then "DESC" else "ASC".
Proof.
  unfold sortDir, sort_pieces, Spec.descending.
  rewrite sort_text_spec, split_colon_pieces. cbn [snd].
  destruct (Spec.direction_part (Spec.sort_text q)) as [d|]; [|reflexivity].
  cbn [JS.truthy_opt JS.to_string]. rewrite upper_is_DESC.
  destruct d; reflexivity.
Qed.

Lemma order_by_validated (rows : list customer) :
  order_by (sortField q) (sortDir q) rows = Ok (sort_rows (Spec.row_le q) rows).
Proof.
  rewrite sortDir_spec. unfold order_by, Spec.row_le. rewrite <- sortField_spec.
  destruct sortField_allowed as [-> | [-> | [-> | ->]]];
    destruct (Spec.descending q); reflexivity.
Qed.

Lemma page_spec : page q = Spec.page q.
Proof. apply or_number_spec. Qed.

Lemma limit_spec : limit q = Spec.limit q.
Proof. apply or_number_spec. Qed.

Lemma offset_spec : offset q = Spec.offset q.
Proof. unfold offset, Spec.offset. now rewrite page_spec, limit_spec. Qed.

(** The limit is never zero: a parameter that reads as zero takes the
    default. *)
Lemma limit_nonzero : Spec.sqlite_integer (Spec.limit q) <> Some 0.
Proof.
  unfold Spec.limit, Spec.number_or.
  assert (H : forall x, Spec.sqlite_integer (JS.or_number x (JS.Finite 10)) <> Some 0).
  { intros [n| | |]; cbn [JS.or_number]; try discriminate.
    destruct (n =? 0) eqn:E; [discriminate|].
    cbn [Spec.sqlite_integer]. destruct (_ && _); [|discriminate].
    intros Hn. injection Hn as ->. discriminate. }
  destruct (query_limit q) as [s|]; [|discriminate].
  destruct (Spec.non_numeric s); [discriminate | apply H].
Qed.

(** What the handler answers: the window of the listing with the page, the
    limit and the number of selected customers when SQLite takes the LIMIT
    and the OFFSET, an internal error when it refuses one of them.  The
    database is not written. *)
Lemma get_customers_answer : get_customers q db = (Spec.answer db q, db).
Proof.
  unfold get_customers, try_catch, bind, getAsync, allAsync, ret, run_count, run_select.
  cbn [totalSql sql count_where select_where order_field order_dir].
  assert (Hc : forall extra,
    filter (where_holds db (whereParts q) (params q ++ extra)%list) (customers db)
    = Spec.matching db q).
  { intros extra. apply filter_ext. intros c. apply where_holds_selected. }
  unfold page_params.
  rewrite Hc, order_by_validated, after_where_extra, !must_be_int_bind.
  rewrite page_spec, limit_spec, offset_spec.
  unfold Spec.answer, Spec.window, Spec.listing, count.
  rewrite <- (app_nil_r (params q)), Hc. fold (Spec.matching db q).
  pose proof limit_nonzero as Hz.
  destruct (Spec.sqlite_integer (Spec.limit q)) as [l|]; [|reflexivity].
  destruct (l =? 0) eqn:El; [apply Z.eqb_eq in El; now subst l|].
  destruct (Spec.sqlite_integer (Spec.offset q)) as [o|]; [|reflexivity].
  destruct (Z.of_nat _ =? 0) eqn:E; [|reflexivity].
  apply Z.eqb_eq in E. now rewrite E.
Qed.

(** The two outcomes, one by one. *)
Lemma get_customers_window (l o : Z) :
  Spec.window q = Some (l, o) ->
  get_customers q db
  = (mkResponse 200
       (customer_page (limit_offset l o (Spec.listing db q))
          (mkMeta (Spec.page q) (Spec.limit q)
             (count (Spec.selected db q) (customers db)))),
     db).
Proof. intros H. rewrite get_customers_answer. unfold Spec.answer. now rewrite H. Qed.

Lemma get_customers_refused :
  Spec.window q = None -> get_customers q db = (internal_error, db).
Proof. intros H. rewrite get_customers_answer. unfold Spec.answer. now rewrite H. Qed.

(** The window of a request holds its limit. *)
Lemma window_limit (l o : Z) :
  Spec.window q = Some (l, o) -> Spec.limit q = JS.Finite l.
Proof.
  unfold Spec.window, Spec.sqlite_integer.
  destruct (Spec.limit q) as [n| | |]; try discriminate.
  destruct ((- 2 ^ 63 <? n) && (n <? 2 ^ 63 - 1)); [|discriminate].
  destruct (Spec.offset q) as [k| | |]; try discriminate.
  destruct ((- 2 ^ 63 <? k) && (k <? 2 ^ 63 - 1)); [|discriminate].
  intros H. now injection H as -> _.
Qed.

End ListQuery.

Section QueryText.
Import SQLite Server.

Lemma truthy_or_string (v : option string) :
  JS.truthy (JS.or_string v "") = JS.truthy_opt v.
Proof.
  destruct v as [s|]; [|reflexivity].
  unfold JS.or_string, JS.truthy_opt. destruct (JS.truthy s) eqn:E; [exact E | reflexivity].
Qed.

(** The elements pushed on [whereParts] are decided by which filters are
    present, not by their values. *)
Lemma whereParts_shape (q1 q2 : query) :
  JS.truthy_opt (query_search q1) = JS.truthy_opt (query_search q2) ->
  JS.truthy_opt (query_city q1) = JS.truthy_opt (query_city q2) ->
  JS.truthy_opt (query_state q1) = JS.truthy_opt (query_state q2) ->
  JS.truthy_opt (query_pin_code q1) = JS.truthy_opt (query_pin_code q2) ->
  whereParts q1 = whereParts q2.
Proof.
  intros H1 H2 H3 H4. unfold whereParts, search, city, state, pin_code.
  rewrite !truthy_or_string, H1, H2, H3, H4. reflexivity.
Qed.

(** C2. The SQL text of the count statement and of the page statement is
    fixed by which of [search], [city], [state], [pin_code] are non-empty and
    by the validated sort field and direction: two requests that agree on
    these produce the same text for both statements, whatever the filter
    values are.  The only request-derived words in the text are the sort
    field, taken from the allow-list, and the direction, [ASC] or [DESC]; the
    values travel in the parameter list. *)
Theorem query_text_fixed_by_shape (q1 q2 : query) :
  JS.truthy_opt (query_search q1) = JS.truthy_opt (query_search q2) ->
  JS.truthy_opt (query_city q1) = JS.truthy_opt (query_city q2) ->
  JS.truthy_opt (query_state q1) = JS.truthy_opt (query_state q2) ->
  JS.truthy_opt (query_pin_code q1) = JS.truthy_opt (query_pin_code q2) ->
  sortField q1 = sortField q2 ->
  sortDir q1 = sortDir q2 ->
  count_text (totalSql q1) = count_text (totalSql q2)
  /\ select_text (sql q1) = select_text (sql q2)
  /\ In (order_field (sql q1)) allowedFields
  /\ (order_dir (sql q1) = "ASC" \/ order_dir (sql q1) = "DESC").
Proof.
  intros H1 H2 H3 H4 Hf Hd.
  pose proof (whereParts_shape q1 q2 H1 H2 H3 H4) as Hw.
  unfold count_text, select_text, totalSql, sql.
  cbn [count_where select_where order_field order_dir].
  rewrite Hw, Hf, Hd.
  repeat split.
  - destruct (sortField_allowed q2) as [E | [E | [E | E]]]; rewrite E; cbn; auto.
  - apply sortDir_keyword.
Qed.

(** A plain search and a hostile one of the same shape: same text. *)
Lemma query_text_fixed_by_shape_witness :
  count_text (totalSql Samples.plain_request)
  = count_text (totalSql Samples.hostile_request)
  /\ select_text (sql Samples.plain_request)
     = select_text (sql Samples.hostile_request)
  /\ In (order_field (sql Samples.plain_request)) allowedFields
  /\ (order_dir (sql Samples.plain_request) = "ASC"
      \/ order_dir (sql Samples.plain_request) = "DESC").
Proof.
  apply (query_text_fixed_by_shape Samples.plain_request Samples.hostile_request);
    reflexivity.
Defined.

Example hostile_request_text :
  select_text (sql Samples.hostile_request)
  = "SELECT * FROM customers WHERE (first_name || ' ' || last_name LIKE ? OR phone_number LIKE ?) AND id IN (SELECT customer_id FROM addresses WHERE city = ?) ORDER BY last_name DESC LIMIT ? OFFSET ?"
  /\ page_params Samples.hostile_request
     = [VText "%x' OR 1=1; DROP TABLE customers; --%";
        VText "%x' OR 1=1; DROP TABLE customers; --%";
        VText "Delhi"; VInt 50; VInt 100].
Proof. split; vm_compute; reflexivity. Qed.

End QueryText.

(* ====================================================================== *)
(** ** ORDER BY, LIMIT and OFFSET *)
(* ====================================================================== *)

Section Ordering.
Import SQLite.

Context {A : Type}.
Variable le : A -> A -> bool.
Hypothesis le_total : forall a b, le a b = true \/ le b a = true.

Let ordered (a b : A) : Prop := le a b = true.

Lemma insert_row_head (x y : A) (l : list A) :
  ordered y x -> HdRel ordered y l -> HdRel ordered y (insert_row le x l).
Proof.
  intros Hyx Hl. destruct l as [|z t]; cbn.
  - constructor. exact Hyx.
  - destruct (le x z); constructor; [exact Hyx | inversion Hl; assumption].
Qed.

Lemma insert_row_sorted (x : A) (l : list A) :
  Sorted ordered l -> Sorted ordered (insert_row le x l).
Proof.
  induction 1 as [|y t Ht IH Hy]; cbn.
  - repeat constructor.
  - destruct (le x y) eqn:E.
    + constructor; [constructor; assumption | constructor; exact E].
    + constructor; [exact IH|].
      apply insert_row_head; [|exact Hy].
      destruct (le_total x y) as [H|H]; [congruence | exact H].
Qed.

Lemma sort_rows_sorted (l : list A) : Sorted ordered (sort_rows le l).
Proof.
  induction l as [|x t IH]; cbn; [constructor | apply insert_row_sorted, IH].
Qed.

(** Sorting keeps exactly the rows it was given. *)
Lemma insert_row_In (x y : A) (l : list A) :
  In y (insert_row le x l) <-> y = x \/ In y l.
Proof.
  induction l as [|z t IH]; cbn; [intuition congruence|].
  destruct (le x z); cbn; rewrite ?IH; intuition congruence.
Qed.

Lemma sort_rows_In (y : A) (l : list A) : In y (sort_rows le l) <-> In y l.
Proof.
  induction l as [|x t IH]; cbn; [tauto|].
  rewrite insert_row_In, IH. intuition congruence.
Qed.

Lemma insert_row_length (x : A) (l : list A) :
  List.length (insert_row le x l) = S (List.length l).
Proof.
  induction l as [|z t IH]; cbn; [reflexivity|].
  destruct (le x z); cbn; [reflexivity | now rewrite IH].
Qed.

Lemma sort_rows_length (l : list A) : List.length (sort_rows le l) = List.length l.
Proof.
  induction l as [|x t IH]; cbn; [reflexivity | now rewrite insert_row_length, IH].
Qed.

End Ordering.

Section Window.
Import SQLite.

Context {A : Type}.
Variable R : A -> A -> Prop.

Lemma skip_rows_skipn (n : Z) (l : list A) : skip_rows n l = skipn (Z.to_nat n) l.
Proof.
  revert n. induction l as [|x t IH]; intros n; cbn [skip_rows].
  - now rewrite skipn_nil.
  - destruct (0 <? n) eqn:E.
    + apply Z.ltb_lt in E. rewrite IH.
      replace (Z.to_nat n) with (S (Z.to_nat (n - 1))) by lia. reflexivity.
    + apply Z.ltb_ge in E. replace (Z.to_nat n) with 0%nat by lia. reflexivity.
Qed.

Lemma take_rows_firstn (n : Z) (l : list A) : take_rows n l = firstn (Z.to_nat n) l.
Proof.
  revert n. induction l as [|x t IH]; intros n; cbn [take_rows].
  - now rewrite firstn_nil.
  - destruct (0 <? n) eqn:E.
    + apply Z.ltb_lt in E. rewrite IH.
      replace (Z.to_nat n) with (S (Z.to_nat (n - 1))) by lia. reflexivity.
    + apply Z.ltb_ge in E. replace (Z.to_nat n) with 0%nat by lia. reflexivity.
Qed.

(** The window in terms of [firstn] and [skipn]. *)
Lemma limit_offset_nat (limit offset : Z) (l : list A) :
  limit_offset limit offset l
  = if limit <? 0 then skipn (Z.to_nat offset) l
    else firstn (Z.to_nat limit) (skipn (Z.to_nat offset) l).
Proof.
  unfold limit_offset. rewrite skip_rows_skipn, take_rows_firstn. reflexivity.
Qed.

Lemma skipn_sorted (n : nat) (l : list A) : Sorted R l -> Sorted R (skipn n l).
Proof.
  revert l. induction n as [|n IH]; intros l H; [exact H|].
  destruct l as [|x t]; [constructor|]. cbn. apply IH. now inversion H.
Qed.

Lemma firstn_sorted (n : nat) (l : list A) : Sorted R l -> Sorted R (firstn n l).
Proof.
  revert l. induction n as [|n IH]; intros l H; [constructor|].
  destruct l as [|x t]; [constructor|]. cbn.
  inversion H as [|? ? Ht Hx]; subst.
  constructor; [apply IH, Ht|].
  destruct t as [|y t']; [rewrite firstn_nil; constructor|].
  destruct n; cbn; constructor. now inversion Hx.
Qed.

(** A LIMIT / OFFSET window of ordered rows is ordered. *)
Lemma limit_offset_sorted (limit offset : Z) (l : list A) :
  Sorted R l -> Sorted R (limit_offset limit offset l).
Proof.
  intros H. rewrite !limit_offset_nat.
  destruct (limit <? 0); [|apply firstn_sorted]; apply skipn_sorted, H.
Qed.

(** A non-negative LIMIT bounds the number of rows. *)
Lemma limit_offset_length (limit offset : Z) (l : list A) :
  0 <= limit -> Z.of_nat (List.length (limit_offset limit offset l)) <= limit.
Proof.
  intros H. rewrite !limit_offset_nat.
  destruct (limit <? 0) eqn:E; [apply Z.ltb_lt in E; lia|].
  rewrite length_firstn. lia.
Qed.

(** An OFFSET at or past the number of rows leaves none. *)
Lemma limit_offset_past_end (limit offset : Z) (l : list A) :
  Z.of_nat (List.length l) <= offset -> limit_offset limit offset l = [].
Proof.
  intros H. rewrite !limit_offset_nat.
  rewrite skipn_all2 by lia.
  destruct (limit <? 0); [reflexivity | apply firstn_nil].
Qed.

Lemma limit_offset_In (limit offset : Z) (l : list A) (x : A) :
  In x (limit_offset limit offset l) -> In x l.
Proof.
  rewrite !limit_offset_nat. intros H.
  assert (Hs : In x (skipn (Z.to_nat offset) l)).
  { destruct (limit <? 0); [exact H|].
    rewrite <- (firstn_skipn (Z.to_nat limit) (skipn _ l)).
    apply in_or_app. left. exact H. }
  rewrite <- (firstn_skipn (Z.to_nat offset) l).
  apply in_or_app. right. exact Hs.
Qed.

End Window.

(* ====================================================================== *)
(** ** LIKE patterns of the form %text% *)
(* ====================================================================== *)

Section Like.
Import SQLite.

Lemma pattern_percent_step (p t : string) :
  pattern_compare (String "%" p) t
  = pattern_compare p t || match t with
                           | EmptyString => false
                           | String _ t' => pattern_compare (String "%" p) t'
                           end.
Proof. destruct t; reflexivity. Qed.

(** A lone [%] matches every text. *)
Lemma pattern_percent_all (t : string) : pattern_compare "%" t = true.
Proof.
  induction t as [|c t IH]; [reflexivity|].
  rewrite pattern_percent_step, IH. apply orb_true_r.
Qed.

(** A plain text followed by [%] matches exactly the texts it is a prefix
    of, case ignored. *)
Lemma pattern_literal_prefix (s t : string) :
  Spec.plain s = true -> pattern_compare (s ++ "%") t = Spec.prefix_ci s t.
Proof.
  revert t. induction s as [|a s IH]; intros t Hs.
  - cbn [append Spec.prefix_ci]. apply pattern_percent_all.
  - cbn [Spec.plain] in Hs.
    apply andb_true_iff in Hs as [Ha Hs]. apply andb_true_iff in Ha as [Ha _].
    apply andb_true_iff in Ha as [Hp Hu].
    apply negb_true_iff in Hp, Hu.
    cbn [append pattern_compare]. unfold is_percent, is_underscore. rewrite Hp.
    destruct t as [|c t]; [reflexivity|].
    rewrite Hu, IH by exact Hs. reflexivity.
Qed.

(** Between two [%] it matches exactly the texts in which it occurs. *)
Lemma pattern_contains (s t : string) :
  Spec.plain s = true -> pattern_compare ("%" ++ s ++ "%") t = Spec.occurs_ci s t.
Proof.
  intros Hs. change ("%" ++ s ++ "%") with (String "%" (s ++ "%")).
  induction t as [|c t IH]; rewrite pattern_percent_step, pattern_literal_prefix by exact Hs.
  - reflexivity.
  - rewrite IH. reflexivity.
Qed.

Lemma c_string_before_nul (t : string) : c_string t = Spec.before_nul t.
Proof. induction t as [|c t IH]; cbn; [reflexivity | unfold is_nul; now rewrite IH]. Qed.

(** A plain text holds no NUL character: the pattern made of it is read to
    its end. *)
Lemma c_string_plain (s : string) : Spec.plain s = true -> c_string (s ++ "%") = s ++ "%".
Proof.
  induction s as [|a s IH]; intros Hs; [reflexivity|].
  cbn [Spec.plain] in Hs.
  apply andb_true_iff in Hs as [Ha Hs]. apply andb_true_iff in Ha as [_ Hn].
  apply negb_true_iff in Hn.
  cbn [append c_string]. unfold is_nul. now rewrite Hn, IH.
Qed.

(** The pattern the handler binds for a plain search text matches exactly
    the texts in which the search text occurs before any NUL character, case
    ignored. *)
Lemma like_contains (s t : string) :
  Spec.plain s = true -> like ("%" ++ s ++ "%") t = Spec.occurs_ci s (Spec.before_nul t).
Proof.
  intros Hs. unfold like.
  change ("%" ++ s ++ "%") with (String "%" (s ++ "%")).
  cbn [c_string]. change (is_nul "%") with false. cbv iota.
  rewrite c_string_plain, c_string_before_nul by exact Hs.
  now apply pattern_contains.
Qed.

(** [occurs_ci] in words: the lower-cased text splits around the lower-cased
    search text. *)
Lemma lower_app (a b : string) : Spec.lower (a ++ b) = Spec.lower a ++ Spec.lower b.
Proof. induction a as [|c a IH]; cbn; [reflexivity | now rewrite IH]. Qed.

Lemma prefix_ci_split (s t : string) :
  Spec.prefix_ci s t = true <-> exists post, Spec.lower t = Spec.lower s ++ post.
Proof.
  revert t. induction s as [|a s IH]; intros t; cbn.
  - split; [intros _; exists (Spec.lower t); reflexivity | reflexivity].
  - destruct t as [|b t]; cbn.
    + split; [discriminate | intros [post H]; discriminate].
    + rewrite andb_true_iff, IH. unfold like_char.
      split.
      * intros [Hab [post Hp]]. apply Ascii.eqb_eq in Hab.
        exists post. now rewrite Hab, Hp.
      * intros [post Hp]. injection Hp as Hc Ht.
        split; [apply Ascii.eqb_eq; congruence | exists post; exact Ht].
Qed.

Lemma occurs_ci_split (s t : string) :
  Spec.occurs_ci s t = true
  <-> exists pre post, Spec.lower t = pre ++ Spec.lower s ++ post.
Proof.
  induction t as [|b t IH]; cbn [Spec.occurs_ci]; rewrite orb_true_iff, prefix_ci_split.
  - split.
    + intros [[post H] | H]; [exists "", post; exact H | discriminate].
    + intros [pre [post H]]. left. destruct pre; [exists post; exact H | discriminate].
  - rewrite IH. split.
    + intros [[post H] | [pre [post H]]].
      * exists "", post. exact H.
      * exists (String (lower_char b) pre), post. cbn. now rewrite H.
    + intros [pre [post H]]. destruct pre as [|c pre].
      * left. exists post. exact H.
      * right. exists pre, post. cbn in H. now injection H.
Qed.

(** [_] stands for one character, however many bytes it takes, and a text
    is read up to its first NUL character. *)
Example underscore_is_one_character :
  like "_" (JS.of_bytes [226; 130; 172]) = true
  /\ like "__" (JS.of_bytes [226; 130; 172]) = false
  /\ like "a" (JS.of_bytes [97; 0; 98]) = true.
Proof. repeat split. Qed.

End Like.

(* ====================================================================== *)
(** ** Listing: totals, page size, filters *)
(* ====================================================================== *)

Section Listing.
Import SQLite Server.

(** The filters read four parameters of the request and nothing else. *)
Lemma selected_same_filters (db : database) (q q' : query) (c : customer) :
  query_search q' = query_search q -> query_city q' = query_city q ->
  query_state q' = query_state q -> query_pin_code q' = query_pin_code q ->
  Spec.selected db q' c = Spec.selected db q c.
Proof. intros H1 H2 H3 H4. unfold Spec.selected. now rewrite H1, H2, H3, H4. Qed.

Lemma listing_length (db : database) (q : query) :
  Z.of_nat (List.length (Spec.listing db q)) = count (Spec.selected db q) (customers db).
Proof. unfold Spec.listing, Spec.matching, count. now rewrite sort_rows_length. Qed.

(** C3, as stated, fails: a request with [limit=-1] gets every row, two rows
    for a limit of -1. *)
Lemma negative_limit_returns_every_row :
  exists rows m l,
    fst (get_customers Samples.negative_limit Samples.two_customers)
    = mkResponse 200 (customer_page rows m)
    /\ meta_limit m = JS.Finite l
    /\ l < Z.of_nat (List.length rows).
Proof.
  exists [Samples.ann; Samples.bob], (mkMeta (JS.Finite 1) (JS.Finite (-1)) 2), (-1).
  split; [vm_compute; reflexivity|]. split; [reflexivity | cbn; lia].
Qed.

(** It fails in a second way: a limit that SQLite does not take for an
    integer is answered with an error. *)
Example huge_limit_is_refused :
  get_customers Samples.huge_limit Samples.two_customers
  = (mkResponse 500 (failure "Internal server error"), Samples.two_customers).
Proof. vm_compute. reflexivity. Qed.

(** C3 (amended). A list request never writes, and it is answered in one of
    two ways.  When the limit or the offset [(page - 1) * limit], as
    JavaScript computes them, is not an integer strictly between the least
    and the greatest 64-bit integer, the answer is 500.  Otherwise it is 200,
    [meta.total] is the number of customers that satisfy the conjunction of
    the active filters, the data array has at most [limit] rows when [limit]
    is not negative, and when the offset reaches or passes the total (a page
    beyond the last) the data array is empty while [total] is still that
    number.  Every request with the same four filter parameters that is
    answered 200 carries the same [total], whatever its page and limit. *)
Theorem list_total_and_page_size (db : database) (q : query) :
  let total := count (Spec.selected db q) (customers db) in
  snd (get_customers q db) = db
  /\ (Spec.window q = None -> get_customers q db = (internal_error, db))
  /\ (forall l o, Spec.window q = Some (l, o) ->
        exists rows,
          get_customers q db
          = (mkResponse 200
               (customer_page rows (mkMeta (Spec.page q) (JS.Finite l) total)), db)
          /\ Spec.limit q = JS.Finite l
          /\ (0 <= l -> Z.of_nat (List.length rows) <= l)
          /\ (total <= o -> rows = []))
  /\ (forall q' rows' m',
        query_search q' = query_search q -> query_city q' = query_city q ->
        query_state q' = query_state q -> query_pin_code q' = query_pin_code q ->
        get_customers q' db = (mkResponse 200 (customer_page rows' m'), db) ->
        meta_total m' = total).
Proof.
  intros total. split; [now rewrite get_customers_answer|].
  split; [apply get_customers_refused|]. split.
  - intros l o W. exists (limit_offset l o (Spec.listing db q)).
    pose proof (window_limit q l o W) as L.
    split; [rewrite (get_customers_window db q l o W), L; reflexivity|].
    split; [exact L|]. split.
    + apply limit_offset_length.
    + intros H. apply limit_offset_past_end. now rewrite listing_length.
  - intros q' rows' m' H1 H2 H3 H4 E.
    rewrite get_customers_answer in E. unfold Spec.answer in E.
    destruct (Spec.window q') as [[l o]|]; [|discriminate].
    injection E as _ <-. cbn [meta_total]. unfold total, count.
    f_equal. f_equal. apply filter_ext. intros c. now apply selected_same_filters.
Qed.

Lemma location_filter_exists (db : database) (column : address -> string)
  (v : option string) (c : customer) :
  Spec.location_filter db column v c = true
  <-> (forall s, Spec.active v = Some s ->
       exists a, In a (addresses db) /\ customer_id a = id c /\ column a = s).
Proof.
  unfold Spec.location_filter.
  destruct (Spec.active v) as [s|].
  - rewrite existsb_exists. split.
    + intros [a [Ha Hb]] s' E. injection E as <-.
      apply andb_true_iff in Hb as [H1 H2].
      exists a. repeat split; [exact Ha | now apply Z.eqb_eq | now apply String.eqb_eq].
    + intros H. destruct (H s eq_refl) as [a [Ha [H1 H2]]].
      exists a. split; [exact Ha|].
      apply andb_true_iff. split; [now apply Z.eqb_eq | now apply String.eqb_eq].
  - split; [intros _ s E; discriminate | reflexivity].
Qed.

(** C7. The customers a list request selects are those of the table that
    pass the search filter and, for each of [city], [state] and [pin_code]
    that is present and not empty, own some address whose column equals the
    value exactly.  Each filter has its own address: nothing asks for one
    address to satisfy them all.  The response, when SQLite takes the LIMIT
    and the OFFSET, holds the window of these customers in the requested
    order, and their number as [total]; it is the error 500 otherwise. *)
Theorem location_filters_are_independent (db : database) (q : query) :
  exists matched,
    (forall c,
       In c matched <->
       In c (customers db)
       /\ Spec.search_filter (query_search q) c = true
       /\ (forall v, Spec.active (query_city q) = Some v ->
           exists a, In a (addresses db) /\ customer_id a = id c /\ SQLite.city a = v)
       /\ (forall v, Spec.active (query_state q) = Some v ->
           exists a, In a (addresses db) /\ customer_id a = id c /\ SQLite.state a = v)
       /\ (forall v, Spec.active (query_pin_code q) = Some v ->
           exists a, In a (addresses db) /\ customer_id a = id c
                     /\ SQLite.pin_code a = v))
    /\ (forall l o, Spec.window q = Some (l, o) ->
          get_customers q db
          = (mkResponse 200
               (customer_page
                  (limit_offset l o (sort_rows (Spec.row_le q) matched))
                  (mkMeta (Spec.page q) (Spec.limit q) (Z.of_nat (List.length matched)))),
             db))
    /\ (Spec.window q = None -> get_customers q db = (internal_error, db)).
Proof.
  exists (Spec.matching db q). split; [|split].
  - intros c. unfold Spec.matching. rewrite filter_In. unfold Spec.selected.
    rewrite !andb_true_iff, !location_filter_exists. tauto.
  - intros l o W. apply (get_customers_window db q l o W).
  - apply get_customers_refused.
Qed.

(** Ann has an address in Pune and another one in Kerala, none in both; the
    request [city=Pune&state=Kerala] selects her. *)
Example filters_need_no_common_address :
  fst (get_customers Samples.pune_kerala Samples.three_addresses)
  = mkResponse 200 (customer_page [Samples.ann] (mkMeta (JS.Finite 1) (JS.Finite 10) 1))
  /\ forallb (fun a => negb ((SQLite.city a =? "Pune")%string
                             && (SQLite.state a =? "Kerala")%string))
             (addresses Samples.three_addresses) = true.
Proof. split; vm_compute; reflexivity. Qed.




End Listing.

(* ====================================================================== *)
(** ** Sorting: validation of the sort parameter and the order of the rows *)
(* ====================================================================== *)

Section Sorting.
Import SQLite Server.

Lemma sortable_In (f : string) :
  existsb (String.eqb f) Spec.sortable = true <-> In f Spec.sortable.
Proof.
  rewrite existsb_exists. split.
  - intros [x [Hx E]]. apply String.eqb_eq in E. now subst.
  - intros H. exists f. split; [exact H | apply String.eqb_refl].
Qed.

Lemma field_le_total (f : string) (a b : customer) :
  Spec.field_le f a b = true \/ Spec.field_le f b a = true.
Proof.
  unfold Spec.field_le.
  destruct (f =? "first_name")%string; [apply String.leb_total|].
  destruct (f =? "last_name")%string; [apply String.leb_total|].
  destruct (f =? "phone_number")%string; [apply String.leb_total|].
  lia.
Qed.

Lemma row_le_total (q : query) (a b : customer) :
  Spec.row_le q a b = true \/ Spec.row_le q b a = true.
Proof. unfold Spec.row_le. destruct (Spec.descending q); apply field_le_total. Qed.

(** The rows of a page are in the order the request asks for. *)
Lemma rows_ordered (db : database) (q : query) (l o : Z) :
  Sorted (fun a b => Spec.row_le q a b = true) (limit_offset l o (Spec.listing db q)).
Proof. apply limit_offset_sorted, sort_rows_sorted, row_le_total. Qed.

Lemma Sorted_weaken {A} (R R' : A -> A -> Prop) (l : list A) :
  (forall a b, R a b -> R' a b) -> Sorted R l -> Sorted R' l.
Proof.
  intros HR. induction 1 as [|x t Ht IH Hx]; constructor; [exact IH|].
  destruct Hx; constructor. now apply HR.
Qed.

(** C5, as stated, fails: [sort=bogus:desc] names an unrecognized field, and
    the rows come back with the larger id first. *)
Lemma unrecognized_field_desc_is_descending :
  exists a b rest m,
    fst (get_customers Samples.bogus_desc Samples.two_customers)
    = mkResponse 200 (customer_page (a :: b :: rest) m)
    /\ query_sort Samples.bogus_desc = Some "bogus:desc"
    /\ id b < id a.
Proof.
  exists Samples.bob, Samples.ann, [], (mkMeta (JS.Finite 1) (JS.Finite 10) 2).
  split; [vm_compute; reflexivity|]. split; [reflexivity | cbn; lia].
Qed.

(** C5 (amended). The sort parameter (['id:asc'] when absent or empty) is
    read as [field:direction].  The field used is the field part when that is
    one of [id], [first_name], [last_name], [phone_number], and [id]
    otherwise; the direction is [DESC] exactly when there is a direction part
    equal to [desc] up to case (the long s, U+017F, counting as an [s]), and
    [ASC] otherwise.  Hence, in a response with rows, an unrecognized field
    yields rows ordered by id, ascending unless the direction part is [desc],
    in which case descending; and [phone_number:desc] yields rows in
    non-increasing order of phone number.  There is no response with rows,
    but the error 500, when SQLite refuses the LIMIT or the OFFSET. *)
Theorem sort_parameter_validated (db : database) (q : query) :
  let f := Spec.field_part (Spec.sort_text q) in
  (In f Spec.sortable -> sortField q = f)
  /\ (~ In f Spec.sortable -> sortField q = "id")
  /\ (sortDir q = "DESC"
      <-> exists d, Spec.direction_part (Spec.sort_text q) = Some d
                    /\ Spec.desc_up_to_case d = true)
  /\ (sortDir q <> "DESC" -> sortDir q = "ASC")
  /\ (query_sort q = None -> sortField q = "id" /\ sortDir q = "ASC")
  /\ (Spec.window q = None -> get_customers q db = (internal_error, db))
  /\ (forall l o, Spec.window q = Some (l, o) ->
        exists rows m,
          get_customers q db = (mkResponse 200 (customer_page rows m), db)
          /\ (~ In f Spec.sortable -> sortDir q = "ASC" ->
              Sorted (fun a b => id a <= id b) rows)
          /\ (~ In f Spec.sortable -> sortDir q = "DESC" ->
              Sorted (fun a b => id b <= id a) rows)
          /\ (f = "phone_number" -> sortDir q = "DESC" ->
              Sorted (fun a b => String.leb (phone_number b) (phone_number a) = true)
                     rows)).
Proof.
  intros f.
  assert (Hin : In f Spec.sortable -> Spec.sort_field q = f).
  { intros H. unfold Spec.sort_field. fold f. apply sortable_In in H. now rewrite H. }
  assert (Hout : ~ In f Spec.sortable -> Spec.sort_field q = "id").
  { intros H. unfold Spec.sort_field. fold f.
    destruct (existsb (String.eqb f) Spec.sortable) eqn:E; [|reflexivity].
    apply sortable_In in E. contradiction. }
  assert (Hdesc : sortDir q = "DESC" <-> Spec.descending q = true).
  { rewrite sortDir_spec. destruct (Spec.descending q); split; (discriminate || reflexivity). }
  split; [rewrite sortField_spec; exact Hin|].
  split; [rewrite sortField_spec; exact Hout|].
  split.
  { rewrite Hdesc. unfold Spec.descending.
    destruct (Spec.direction_part (Spec.sort_text q)) as [d|].
    - split; [intros H; eauto | intros [d' [E H]]; now injection E as ->].
    - split; [discriminate | intros [d [E _]]; discriminate]. }
  split; [destruct (sortDir_keyword q); [auto | contradiction]|].
  split.
  { intros H. unfold sortField, sortDir, sort_pieces, sort. rewrite H. split; reflexivity. }
  split; [apply get_customers_refused|].
  intros l o W. eexists _, _. split; [apply (get_customers_window db q l o W)|].
  pose proof (rows_ordered db q l o) as S. unfold Spec.row_le in S.
  split; [|split].
  - intros H Hd.
    assert (D : Spec.descending q = false).
    { destruct (Spec.descending q) eqn:D; [|reflexivity].
      rewrite (proj2 Hdesc eq_refl) in Hd. discriminate. }
    rewrite (Hout H), D in S.
    revert S. apply Sorted_weaken. intros a b. cbn. apply Z.leb_le.
  - intros H Hd. apply Hdesc in Hd. rewrite (Hout H), Hd in S.
    revert S. apply Sorted_weaken. intros a b. cbn. apply Z.leb_le.
  - intros H Hd. apply Hdesc in Hd.
    rewrite Hin, H, Hd in S by (rewrite H; cbn; auto).
    exact S.
Qed.

(** [sort=phone_number:desc] on the two sample customers. *)
Example phone_desc_rows :
  fst (get_customers Samples.phone_desc Samples.two_customers)
  = mkResponse 200
      (customer_page [Samples.bob; Samples.ann] (mkMeta (JS.Finite 1) (JS.Finite 10) 2)).
Proof. vm_compute. reflexivity. Qed.

(** A direction written with a long s is taken for [desc]. *)
Example long_s_desc_rows :
  sortDir Samples.long_s_desc = "DESC"
  /\ fst (get_customers Samples.long_s_desc Samples.two_customers)
     = mkResponse 200
         (customer_page [Samples.bob; Samples.ann] (mkMeta (JS.Finite 1) (JS.Finite 10) 2)).
Proof. split; vm_compute; reflexivity. Qed.

End Sorting.

(* ====================================================================== *)
(** ** Pagination parameters *)
(* ====================================================================== *)

Section Pagination.
Import SQLite Server.

(** An absent or non-numeric parameter takes the default. *)
Lemma number_or_default (v : option string) (d : Z) :
  v = None \/ (exists s, v = Some s /\ Spec.non_numeric s = true) ->
  Spec.number_or v d = JS.Finite d.
Proof.
  intros [-> | [s [-> H]]]; [reflexivity|].
  unfold Spec.number_or. now rewrite H.
Qed.

(** C8, as stated, fails: with no page parameter and a limit of 2^63 the
    page defaults to 1, but the request is answered 500, a response without
    [meta]. *)
Lemma refused_limit_has_no_meta :
  query_page Samples.limit_2_63 = None
  /\ page Samples.limit_2_63 = JS.Finite 1
  /\ get_customers Samples.limit_2_63 Samples.two_customers
     = (mkResponse 500 (failure "Internal server error"), Samples.two_customers).
Proof. repeat split; vm_compute; reflexivity. Qed.

(** C8 (amended). [page] is 1 and [limit] is 10 when the respective query
    parameter is absent or does not read as a number, and otherwise the
    number the parameter reads as (the default again when that is zero).  The
    page statement is run with the filter parameters followed by [limit] and
    the offset [(page - 1) * limit], computed as JavaScript does.  When
    SQLite takes both for integers, the response is 200 with the window of
    the listing that starts at the offset, and its [meta] carries the [page]
    and the [limit] so obtained; otherwise it is the error 500.  With both
    parameters absent or non-numeric the response is the first ten rows of
    the listing with page 1 and limit 10. *)
Theorem pagination_defaults (db : database) (q : query) :
  let defaulted v := v = None \/ exists s, v = Some s /\ Spec.non_numeric s = true in
  let total := count (Spec.selected db q) (customers db) in
  (defaulted (query_page q) -> page q = JS.Finite 1)
  /\ (defaulted (query_limit q) -> limit q = JS.Finite 10)
  /\ page q = Spec.number_or (query_page q) 1
  /\ limit q = Spec.number_or (query_limit q) 10
  /\ page_params q
     = (params q
        ++ [bind_number (Spec.number_or (query_limit q) 10);
            bind_number (JS.mul (JS.sub (Spec.number_or (query_page q) 1) (JS.Finite 1))
                                (Spec.number_or (query_limit q) 10))])%list
  /\ (forall l o, Spec.window q = Some (l, o) ->
        Spec.number_or (query_limit q) 10 = JS.Finite l
        /\ JS.mul (JS.sub (Spec.number_or (query_page q) 1) (JS.Finite 1)) (JS.Finite l)
           = JS.Finite o
        /\ get_customers q db
           = (mkResponse 200
                (customer_page (limit_offset l o (Spec.listing db q))
                   (mkMeta (Spec.number_or (query_page q) 1)
                           (Spec.number_or (query_limit q) 10) total)),
              db))
  /\ (Spec.window q = None -> get_customers q db = (internal_error, db))
  /\ (defaulted (query_page q) -> defaulted (query_limit q) ->
      get_customers q db
      = (mkResponse 200
           (customer_page (firstn 10 (Spec.listing db q))
              (mkMeta (JS.Finite 1) (JS.Finite 10) total)),
         db)).
Proof.
  intros defaulted total.
  split; [intros H; rewrite page_spec; now apply number_or_default|].
  split; [intros H; rewrite limit_spec; now apply number_or_default|].
  split; [apply page_spec|]. split; [apply limit_spec|].
  split; [unfold page_params, offset; now rewrite page_spec, limit_spec|].
  split; [|split].
  - intros l o W. pose proof (window_limit q l o W) as L.
    split; [exact L|]. split; [|apply (get_customers_window db q l o W)].
    unfold Spec.window in W. rewrite L in W.
    destruct (Spec.sqlite_integer (JS.Finite l)) as [l'|]; [|discriminate].
    unfold Spec.offset in W. fold (Spec.page q). rewrite L in W.
    destruct (JS.mul (JS.sub (Spec.page q) (JS.Finite 1)) (JS.Finite l)) as [n| | |];
      try discriminate.
    cbn [Spec.sqlite_integer] in W. destruct (_ && _); [|discriminate].
    now injection W as _ ->.
  - apply get_customers_refused.
  - intros Hp Hl.
    assert (W : Spec.window q = Some (10, 0)).
    { unfold Spec.window, Spec.offset, Spec.page, Spec.limit.
      rewrite (number_or_default _ 1 Hp), (number_or_default _ 10 Hl). reflexivity. }
    rewrite (get_customers_window db q 10 0 W), limit_offset_nat.
    unfold Spec.page, Spec.limit.
    rewrite (number_or_default _ 1 Hp), (number_or_default _ 10 Hl). reflexivity.
Qed.

(** [?page=abc&limit=xyz] on the two sample customers. *)
Example words_for_numbers_defaults :
  fst (get_customers Samples.words_for_numbers Samples.two_customers)
  = mkResponse 200
      (customer_page [Samples.ann; Samples.bob] (mkMeta (JS.Finite 1) (JS.Finite 10) 2)).
Proof. vm_compute. reflexivity. Qed.

(** A limit beyond 2^53 is rounded to a double, and the response carries the
    rounded number. *)
Example limit_is_a_double :
  exists rows,
    fst (get_customers (mkQuery None (Some "-9007199254740993") None None None None None)
           Samples.two_customers)
    = mkResponse 200
        (customer_page rows (mkMeta (JS.Finite 1) (JS.Finite (-9007199254740992)) 2)).
Proof. eexists. vm_compute. reflexivity. Qed.

End Pagination.

(* ====================================================================== *)
(** ** Invariants of the databases the service reaches *)
(* ====================================================================== *)

Section Preservation.
Import SQLite Server.

Variable P : database -> Prop.

Lemma preserves_ret {A} (a : A) : Spec.preserves P (ret a).
Proof. intros db H. exact H. Qed.

Lemma preserves_get {A} (f : database -> result A) : Spec.preserves P (getAsync f).
Proof. intros db H. exact H. Qed.

Lemma preserves_all {A} (f : database -> result A) : Spec.preserves P (allAsync f).
Proof. intros db H. exact H. Qed.

Lemma preserves_reply (r : response) : Spec.preserves P (reply r).
Proof. intros db H. exact H. Qed.

Lemma preserves_bind {A B} (m : M A) (k : A -> M B) :
  Spec.preserves P m -> (forall a, Spec.preserves P (k a)) ->
  Spec.preserves P (bind m k).
Proof.
  intros Hm Hk db H. unfold bind. specialize (Hm db H).
  destruct (m db) as [[a|e] db1]; cbn [snd] in *; [|exact Hm].
  now apply Hk.
Qed.

Lemma preserves_try_catch (body : M response) (handler : error -> response) :
  Spec.preserves P body -> Spec.preserves P (try_catch body handler).
Proof.
  intros Hm db H. unfold try_catch. specialize (Hm db H).
  destruct (body db) as [[a|e] db1]; exact Hm.
Qed.

Lemma preserves_get_customers (q : query) : Spec.preserves P (get_customers q).
Proof. intros db H. now rewrite get_customers_answer. Qed.

(** An invariant of every handler holds in every reachable database as soon
    as it holds in the freshly opened one. *)
Lemma preserves_reachable :
  P db_open -> (forall r, Spec.preserves P (handle r)) ->
  forall db, reachable db -> P db.
Proof.
  intros H0 Hh db [rs ->]. revert H0. generalize db_open.
  induction rs as [|r rs IH]; intros db H; [exact H|].
  cbn [serve]. apply IH, Hh, H.
Qed.

End Preservation.

Create HintDb preserves.
#[local] Hint Resolve preserves_ret preserves_get preserves_all preserves_reply
  preserves_get_customers : preserves.

(** Walks through a handler: [try] / [catch], the awaited statements in
    turn, and both sides of every branch. *)
Ltac walk :=
  cbv zeta;
  repeat first
    [ solve [auto with preserves]
    | apply preserves_try_catch
    | apply preserves_bind; [|intro]
    | match goal with
      | |- Spec.preserves _ (if ?b then _ else _) => destruct b
      | |- Spec.preserves _ (match ?x with _ => _ end) => destruct x
      end ].

Section ForeignKeys.
Import SQLite Server.

Let off := Spec.foreign_keys_off.

Lemma off_insert_customer (fn ln ph : string) :
  Spec.preserves off (runAsync (insert_customer fn ln ph)).
Proof.
  intros db H. unfold runAsync, insert_customer. destruct (existsb _ _); exact H.
Qed.

Lemma off_insert_address (cid : Z) (d c s p : string) :
  Spec.preserves off (runAsync (insert_address cid d c s p)).
Proof.
  intros db H. unfold runAsync, insert_address. destruct (_ && _); exact H.
Qed.

Lemma off_update_customers (sets : list (customer_column * string)) (i : Z) :
  Spec.preserves off (runAsync (update_customers sets i)).
Proof.
  intros db H. unfold runAsync, update_customers. destruct (_ && _); exact H.
Qed.

Lemma off_update_addresses (sets : list (address_column * string)) (i : Z) :
  Spec.preserves off (runAsync (update_addresses sets i)).
Proof. intros db H. exact H. Qed.

Lemma off_delete_customer (i : Z) : Spec.preserves off (runAsync (delete_customer i)).
Proof. intros db H. exact H. Qed.

Lemma off_delete_address (i : Z) : Spec.preserves off (runAsync (delete_address i)).
Proof. intros db H. exact H. Qed.

#[local] Hint Resolve off_insert_customer off_insert_address off_update_customers
  off_update_addresses off_delete_customer off_delete_address : preserves.

(** No handler turns foreign-key enforcement on. *)
Lemma handle_keeps_foreign_keys_off (r : request) : Spec.preserves off (handle r).
Proof.
  destruct r as [b | q | i | i b | i | i b | i | i b | i]; cbn [handle].
  - unfold post_customers, insert_inline_address. walk.
  - walk.
  - unfold get_customer. walk.
  - unfold put_customer. walk.
  - unfold delete_customer_route. walk.
  - unfold post_address. walk.
  - unfold get_addresses. walk.
  - unfold put_address. walk.
  - unfold delete_address_route. walk.
Qed.

(** Foreign keys are not enforced in any database the service reaches. *)
Lemma reachable_foreign_keys_off (db : database) :
  reachable db -> foreign_keys db = false.
Proof.
  apply (preserves_reachable off); [reflexivity | apply handle_keeps_foreign_keys_off].
Qed.

End ForeignKeys.

Section TrimmedPhones.
Import SQLite Server.

Let trimmed := Spec.phones_trimmed.

Lemma trimmed_insert_customer (fn ln : string) (v : option string) :
  Spec.preserves trimmed (runAsync (insert_customer fn ln (sanitized v))).
Proof.
  intros db H. unfold runAsync, insert_customer.
  destruct (existsb _ _); [exact H|].
  apply Forall_app. split; [exact H|].
  constructor; [apply trim_trim | constructor].
Qed.

Lemma trimmed_insert_address (cid : Z) (d c s p : string) :
  Spec.preserves trimmed (runAsync (insert_address cid d c s p)).
Proof.
  intros db H. unfold runAsync, insert_address. destruct (_ && _); exact H.
Qed.

Lemma trimmed_update_addresses (sets : list (address_column * string)) (i : Z) :
  Spec.preserves trimmed (runAsync (update_addresses sets i)).
Proof. intros db H. exact H. Qed.

Lemma trimmed_delete_customer (i : Z) :
  Spec.preserves trimmed (runAsync (delete_customer i)).
Proof.
  intros db H. unfold trimmed, Spec.phones_trimmed in *. cbn [runAsync delete_customer snd customers].
  apply Forall_forall. intros c Hc. apply filter_In in Hc as [Hc _].
  revert c Hc. now apply Forall_forall.
Qed.

Lemma trimmed_delete_address (i : Z) :
  Spec.preserves trimmed (runAsync (delete_address i)).
Proof. intros db H. exact H. Qed.

(** Assignments whose phone numbers are trimmed keep a trimmed row
    trimmed. *)
Lemma trimmed_assignments (sets : list (customer_column * string)) (c : customer) :
  (forall v, In (phone_number_col, v) sets -> JS.trim v = v) ->
  JS.trim (phone_number c) = phone_number c ->
  JS.trim (phone_number (fold_left set_customer_column sets c))
  = phone_number (fold_left set_customer_column sets c).
Proof.
  revert c. induction sets as [|[k v] sets IH]; intros c Hs Hc; [exact Hc|].
  cbn [fold_left]. apply IH; [intros w Hw; apply Hs; right; exact Hw|].
  destruct k; cbn; try exact Hc. apply Hs. left. reflexivity.
Qed.

Lemma trimmed_update_customers (sets : list (customer_column * string)) (i : Z) :
  (forall v, In (phone_number_col, v) sets -> JS.trim v = v) ->
  Spec.preserves trimmed (runAsync (update_customers sets i)).
Proof.
  intros Hs db H. unfold runAsync, update_customers.
  destruct (_ && _); [exact H|].
  unfold trimmed, Spec.phones_trimmed in *. cbn [snd customers].
  apply Forall_forall. intros c Hc. apply in_map_iff in Hc as [c0 [<- Hc0]].
  pose proof (proj1 (Forall_forall _ _) H c0 Hc0) as H0.
  destruct (id c0 =? i); [now apply trimmed_assignments | exact H0].
Qed.

#[local] Hint Resolve trimmed_insert_customer trimmed_insert_address
  trimmed_update_addresses trimmed_delete_customer trimmed_delete_address : preserves.

(** The assignments the update handler collects carry trimmed phone
    numbers only. *)
Lemma put_customer_assignments (f l p : option string) (v : string) :
  In (phone_number_col, v)
     ((if JS.truthy_opt (sanitized_optional f)
       then [(first_name_col, JS.to_string (sanitized_optional f))] else [])
      ++ (if JS.truthy_opt (sanitized_optional l)
          then [(last_name_col, JS.to_string (sanitized_optional l))] else [])
      ++ (if JS.truthy_opt (sanitized_optional p)
          then [(phone_number_col, JS.to_string (sanitized_optional p))] else []))%list ->
  JS.trim v = v.
Proof.
  intros H. apply in_app_or in H as [H | H].
  { destruct (JS.truthy_opt _); [destruct H as [H | []]; discriminate | destruct H]. }
  apply in_app_or in H as [H | H].
  { destruct (JS.truthy_opt _); [destruct H as [H | []]; discriminate | destruct H]. }
  destruct (JS.truthy_opt _); [|destruct H].
  destruct H as [H | []]. injection H as <-.
  destruct p as [p|]; [apply trim_trim | reflexivity].
Qed.

(** Every handler stores trimmed phone numbers only. *)
Lemma handle_keeps_phones_trimmed (r : request) : Spec.preserves trimmed (handle r).
Proof.
  destruct r as [b | q | i | i b | i | i b | i | i b | i]; cbn [handle].
  - unfold post_customers, insert_inline_address. walk.
  - walk.
  - unfold get_customer. walk.
  - unfold put_customer. destruct (negb _); [walk|]. cbv zeta.
    apply preserves_try_catch, preserves_bind; [walk|]. intros [e|]; [|walk].
    destruct (_ =? _)%nat; [walk|].
    apply preserves_bind; [|intro; walk].
    apply trimmed_update_customers. intros v. apply put_customer_assignments.
  - unfold delete_customer_route. walk.
  - unfold post_address. walk.
  - unfold get_addresses. walk.
  - unfold put_address. walk.
  - unfold delete_address_route. walk.
Qed.

(** In every database the service reaches the stored phone numbers are
    trimmed: submitting exactly a stored number submits its trimmed form. *)
Lemma stored_phone_is_trimmed (db : database) (c : customer) :
  reachable db -> In c (customers db) -> sanitized (Some (phone_number c)) = phone_number c.
Proof.
  intros Hr Hc.
  assert (H : trimmed db).
  { apply (preserves_reachable trimmed); [constructor | apply handle_keeps_phones_trimmed | exact Hr]. }
  exact (proj1 (Forall_forall _ _) H c Hc).
Qed.

End TrimmedPhones.

(* ====================================================================== *)
(** ** Writing customers: conflicts and empty updates *)
(* ====================================================================== *)

Section CustomerWrites.
Import SQLite Server.

Lemma customer_by_id_found (db : database) (c : customer) :
  In c (customers db) -> exists c', customer_by_id db (id c) = Some c'.
Proof.
  intros H. unfold customer_by_id.
  destruct (find _ _) as [c'|] eqn:E; [eauto|].
  apply (find_none _ _ E) in H. rewrite Z.eqb_refl in H. discriminate.
Qed.

Lemma customer_by_id_hit (db : database) (i : Z) (c : customer) :
  customer_by_id db i = Some c -> existsb (fun k => id k =? i) (customers db) = true.
Proof.
  intros H. apply find_some in H as [H1 H2].
  apply existsb_exists. eauto.
Qed.

Lemma catch_unique_conflict :
  catch_unique unique_failed = mkResponse 409 (failure "Phone number already exists").
Proof. reflexivity. Qed.

(** A row with the same phone number makes the INSERT fail. *)
Lemma insert_customer_clash (db : database) (c : customer) (fn ln : string) :
  In c (customers db) ->
  insert_customer fn ln (phone_number c) db = (Err unique_failed, db).
Proof.
  intros H. unfold insert_customer.
  replace (existsb _ _) with true; [reflexivity|].
  symmetry. apply existsb_exists. exists c. split; [exact H | apply String.eqb_refl].
Qed.

(** A text of six characters or more is not empty. *)
Lemma isLength_truthy (s : string) : isLength s 6 20 = true -> JS.truthy s = true.
Proof. destruct s; [discriminate | reflexivity]. Qed.

(** The assignments of the update handler give [phone_number] the submitted
    value whenever one was submitted. *)
Lemma assigned_phone_last (pre : list (customer_column * string)) (p : string) :
  assigned_phone (pre ++ [(phone_number_col, p)])%list = Some p.
Proof.
  induction pre as [|[k v] pre IH]; [reflexivity|].
  cbn [app assigned_phone]. rewrite IH. destruct k; reflexivity.
Qed.

(** C9. For every customer of the store, a PUT [/api/customers/:id] whose
    body has none of [first_name], [last_name], [phone_number] is answered
    400 with the message 'No fields to update', and the database (hence the
    customer's row) is as before. *)
Theorem put_without_fields (db : database) (c : customer) (b : customer_body) :
  In c (customers db) ->
  body_first_name b = None ->
  body_last_name b = None ->
  body_phone_number b = None ->
  put_customer (id c) b db
  = (mkResponse 400 (failure "No fields to update"), db).
Proof.
  intros Hc H1 H2 H3.
  destruct (customer_by_id_found db c Hc) as [c' E].
  unfold put_customer, validate_update. rewrite H1, H2, H3.
  cbn. unfold try_catch, bind, getAsync, select_customer. rewrite E. reflexivity.
Qed.

(** PUT [/api/customers/1] with the body [{}]. *)
Lemma put_without_fields_witness :
  put_customer 1 (mkCustomerBody None None None None) Samples.two_customers
  = (mkResponse 400 (failure "No fields to update"), Samples.two_customers).
Proof.
  apply (put_without_fields Samples.two_customers Samples.ann
           (mkCustomerBody None None None None)).
  - left. reflexivity.
  - reflexivity.
  - reflexivity.
  - reflexivity.
Defined.

(** C6. Let [c] be a customer of the store.  A create request that passes
    validation and whose (trimmed) phone number is that of [c], and an update
    request for another existing customer that passes validation and whose
    (trimmed) phone number is that of [c], are both answered 409 with the
    message 'Phone number already exists', which is not the answer given for
    an unexpected failure; the database, and so the row of [c], is as
    before.  In a database the service has reached the number of [c] is its
    own trimmed form, so a request that carries exactly that number is such a
    request. *)
Theorem duplicate_phone_is_conflict (db : database) (c : customer) :
  In c (customers db) ->
  (forall b,
     validate_create b = [] ->
     sanitized (body_phone_number b) = phone_number c ->
     post_customers b db
     = (mkResponse 409 (failure "Phone number already exists"), db))
  /\ (forall i b,
        validate_update b = [] ->
        customer_by_id db i <> None ->
        id c <> i ->
        sanitized_optional (body_phone_number b) = Some (phone_number c) ->
        put_customer i b db
        = (mkResponse 409 (failure "Phone number already exists"), db))
  /\ mkResponse 409 (failure "Phone number already exists") <> internal_error
  /\ (reachable db -> sanitized (Some (phone_number c)) = phone_number c).
Proof.
  intros Hc. split; [|split; [|split; [discriminate|]]];
    [| |intros Hr; now apply (stored_phone_is_trimmed db)].
  - intros b Hv Hp. unfold post_customers. rewrite Hv. cbn [null negb].
    unfold try_catch, bind, runAsync. rewrite Hp, insert_customer_clash by exact Hc.
    reflexivity.
  - intros i b Hv Hex Hne Hp. unfold put_customer. rewrite Hv. cbn [null negb].
    unfold try_catch, bind, getAsync, select_customer.
    destruct (customer_by_id db i) as [e|] eqn:E; [|contradiction].
    rewrite Hp.
    assert (Ht : JS.truthy (phone_number c) = true).
    { apply isLength_truthy.
      unfold validate_update in Hv. apply app_eq_nil in Hv as [_ Hv].
      apply app_eq_nil in Hv as [_ Hv].
      unfold sanitized_optional in Hp.
      destruct (body_phone_number b) as [p|]; [|discriminate].
      cbn [option_map] in Hp. injection Hp as Hp.
      unfold optional, sanitized, JS.to_string in Hv.
      rewrite Hp in Hv. destruct (isLength (phone_number c) 6 20); [reflexivity | discriminate]. }
    cbn [JS.truthy_opt JS.to_string]. rewrite Ht.
    rewrite app_assoc.
    set (pre := ((if JS.truthy_opt _ then _ else _)
                 ++ (if JS.truthy_opt _ then _ else _))%list).
    replace ((List.length (pre ++ [(phone_number_col, phone_number c)]) =? 0)%nat)
      with false by (rewrite length_app, Nat.add_comm; reflexivity).
    unfold runAsync, update_customers.
    rewrite assigned_phone_last, (customer_by_id_hit db i e E).
    replace (existsb _ (customers db)) with true; [reflexivity|].
    symmetry. apply existsb_exists. exists c. split; [exact Hc|].
    apply andb_true_iff. split; [|apply String.eqb_refl].
    apply negb_true_iff, Z.eqb_neq. exact Hne.
Qed.

(** Creating Ann a second time, and giving Bob her number. *)
Lemma duplicate_phone_is_conflict_witness :
  post_customers Samples.ann_body Samples.two_customers
  = (mkResponse 409 (failure "Phone number already exists"), Samples.two_customers)
  /\ put_customer 2 (mkCustomerBody None None (Some " 5551234 ") None) Samples.two_customers
     = (mkResponse 409 (failure "Phone number already exists"), Samples.two_customers).
Proof.
  assert (H : In Samples.ann (customers Samples.two_customers)) by (left; reflexivity).
  destruct (duplicate_phone_is_conflict Samples.two_customers Samples.ann H)
    as [Hpost [Hput _]].
  split.
  - apply Hpost; reflexivity.
  - apply Hput; [reflexivity | discriminate | discriminate | reflexivity].
Defined.

End CustomerWrites.

(* ====================================================================== *)
(** ** Addresses: the inline address of a creation and the address route *)
(* ====================================================================== *)

Section AddressWrites.
Import SQLite Server.

Lemma or_string_empty (v : option string) : JS.or_string v "" = JS.to_string v.
Proof. destruct v as [[|c s]|]; reflexivity. Qed.

(** Trimming leaves nothing exactly when the text is white space only. *)
Lemma trim_blank (v : option string) :
  JS.is_empty (JS.trim (JS.to_string v)) = Spec.missing_or_blank v.
Proof.
  destruct v as [s|]; [apply trim_empty | reflexivity].
Qed.

Lemma check_not_empty_blank (v : option string) (msg : string) :
  Spec.missing_or_blank v = true -> check_not_empty v msg = [msg].
Proof. intros H. unfold check_not_empty. now rewrite trim_blank, H. Qed.

(** The creation handler never removes or rewrites an address row: it either
    leaves the table alone or appends one row. *)
Lemma insert_inline_address_effect (cid : Z) (address : option address_body)
  (db : database) :
  snd (insert_inline_address cid address db) = db
  \/ exists a d,
       address = Some a /\ body_address_details a = Some d /\ d <> ""
       /\ insert_inline_address cid address db
          = (match insert_address cid d (JS.to_string (body_city a))
                     (JS.to_string (body_state a)) (JS.to_string (body_pin_code a)) db with
             | (Ok _, db') => (Ok tt, db')
             | (Err e, db') => (Err e, db')
             end).
Proof.
  destruct address as [a|]; [|left; reflexivity].
  cbn [insert_inline_address].
  destruct (body_address_details a) as [[|x d]|] eqn:E; cbn [JS.truthy_opt JS.truthy JS.is_empty negb];
    [left; reflexivity | | left; reflexivity].
  right. exists a, (String x d).
  split; [reflexivity|]. split; [exact E|]. split; [discriminate|].
  unfold bind, runAsync, ret. rewrite !or_string_empty. cbn [JS.to_string].
  destruct (insert_address _ _ _ _ _ db) as [[r|e] db']; reflexivity.
Qed.

(** The database after a creation request: untouched, or the customer row
    is inserted and the inline address step follows. *)
Lemma post_customers_database (b : customer_body) (db : database) :
  snd (post_customers b db) = db
  \/ exists r db1,
       validate_create b = []
       /\ insert_customer (sanitized (body_first_name b)) (sanitized (body_last_name b))
            (sanitized (body_phone_number b)) db = (Ok r, db1)
       /\ snd (post_customers b db)
          = snd (insert_inline_address (lastID r) (body_address b) db1)
       /\ (forall u, fst (insert_inline_address (lastID r) (body_address b) db1) = Ok u ->
           fst (post_customers b db)
           = mkResponse 201
               (customer_data
                  (customer_by_id
                     (snd (insert_inline_address (lastID r) (body_address b) db1))
                     (lastID r))
                  "Customer created")).
Proof.
  unfold post_customers.
  destruct (validate_create b) as [|e es] eqn:V; cbn [null negb]; [|left; reflexivity].
  unfold try_catch, bind, runAsync.
  destruct (insert_customer _ _ _ db) as [[r|e] db1] eqn:I; [|left].
  - right. exists r, db1. split; [reflexivity|]. split; [reflexivity|].
    destruct (insert_inline_address (lastID r) (body_address b) db1) as [[u|e] db2];
      cbn [fst snd getAsync select_customer ret];
      (split; [reflexivity | intros u' H; first [reflexivity | discriminate]]).
  - cbn [snd]. unfold insert_customer in I.
    destruct (existsb _ _); [injection I as _ <-; reflexivity | discriminate].
Qed.

Lemma insert_customer_new (fn ln ph : string) (db : database) :
  (forall c, In c (customers db) -> phone_number c <> ph) ->
  let i := next_rowid (seq_customers db) (map id (customers db)) in
  insert_customer fn ln ph db
  = (Ok (mkRun i 1),
     mkDatabase (customers db ++ [mkCustomer i fn ln ph]) (addresses db) i
                (seq_addresses db) (foreign_keys db)).
Proof.
  intros H i. unfold insert_customer.
  destruct (existsb _ _) eqn:E; [|reflexivity].
  apply existsb_exists in E as [c [Hc E]]. apply String.eqb_eq in E.
  now apply H in Hc.
Qed.

(** C10. On POST [/api/customers] the table of addresses changes only when
    the body has an [address] object whose [address_details] is a non-empty
    text; when it has one (and the request is valid and its phone number
    new), one row is appended for the new customer, an absent [city], [state]
    or [pin_code] being stored as the empty text.  POST
    [/api/customers/:id/addresses] answers 400 with a non-empty list of
    errors, and writes nothing, as soon as one of [address_details], [city],
    [state], [pin_code] is absent or blank. *)
Theorem inline_address_and_address_route (db : database) :
  (forall b,
     addresses (snd (post_customers b db)) <> addresses db ->
     exists a d,
       body_address b = Some a /\ body_address_details a = Some d /\ d <> "")
  /\ (forall b a d,
        validate_create b = [] ->
        (forall c, In c (customers db) ->
                   phone_number c <> sanitized (body_phone_number b)) ->
        body_address b = Some a ->
        body_address_details a = Some d ->
        d <> "" ->
        exists aid created,
          fst (post_customers b db)
          = mkResponse 201 (customer_data created "Customer created")
          /\ addresses (snd (post_customers b db))
             = (addresses db
                ++ [mkAddress aid
                      (next_rowid (seq_customers db) (map id (customers db)))
                      d
                      (JS.to_string (body_city a))
                      (JS.to_string (body_state a))
                      (JS.to_string (body_pin_code a))])%list)
  /\ (forall i b,
        Spec.missing_or_blank (body_address_details b)
        || Spec.missing_or_blank (body_city b)
        || Spec.missing_or_blank (body_state b)
        || Spec.missing_or_blank (body_pin_code b) = true ->
        exists errors,
          errors <> []
          /\ post_address i b db = (mkResponse 400 (validation_errors errors), db)).
Proof.
  split; [|split].
  - intros b Hne.
    destruct (post_customers_database b db) as [E | [r [db1 [_ [I [E _]]]]]].
    + rewrite E in Hne. contradiction.
    + assert (Ha : addresses db1 = addresses db).
      { unfold insert_customer in I.
        destruct (existsb _ _); [discriminate|]. injection I as _ <-. reflexivity. }
      rewrite E in Hne.
      destruct (insert_inline_address_effect (lastID r) (body_address b) db1)
        as [E1 | [a [d [H1 [H2 [H3 _]]]]]].
      * rewrite E1, Ha in Hne. contradiction.
      * exists a, d. auto.
  - intros b a d Hv Hnew Ha Hd Hd0.
    unfold post_customers. rewrite Hv. cbn [null negb].
    unfold try_catch, bind, runAsync.
    rewrite (insert_customer_new _ _ _ db Hnew). cbn [lastID].
    rewrite Ha. cbn [insert_inline_address]. rewrite Hd.
    destruct d as [|x d]; [contradiction|].
    cbn [JS.truthy_opt JS.truthy JS.is_empty negb JS.to_string].
    unfold bind, runAsync, insert_address. cbn [foreign_keys customers addresses].
    rewrite existsb_app. cbn [existsb id]. rewrite Z.eqb_refl, orb_true_r.
    cbn [negb andb orb]. rewrite andb_false_r.
    cbn [ret getAsync select_customer fst snd addresses]. rewrite !or_string_empty.
    eexists _, _. split; reflexivity.
  - intros i b H. unfold post_address.
    assert (Hv : validate_address b <> []).
    { unfold validate_address. intros E.
      apply app_eq_nil in E as [E1 E]. apply app_eq_nil in E as [E2 E].
      apply app_eq_nil in E as [E3 E4].
      apply orb_true_iff in H as [H | H]; [|rewrite (check_not_empty_blank _ _ H) in E4; discriminate].
      apply orb_true_iff in H as [H | H]; [|rewrite (check_not_empty_blank _ _ H) in E3; discriminate].
      apply orb_true_iff in H as [H | H];
        [rewrite (check_not_empty_blank _ _ H) in E1 | rewrite (check_not_empty_blank _ _ H) in E2];
        discriminate. }
    exists (validate_address b). split; [exact Hv|].
    destruct (validate_address b); [contradiction | reflexivity].
Qed.

(** Creating Ann with the inline address [{ address_details, city }] stores
    the empty text for the absent [state] and [pin_code]. *)
Example inline_address_defaults :
  addresses (snd (post_customers Samples.ann_body db_open))
  = [mkAddress 1 1 "1 Main St" "Pune" "" ""].
Proof. vm_compute. reflexivity. Qed.

(** The address route refuses the same address. *)
Example address_route_rejects :
  post_address 1 (mkAddressBody (Some "1 Main St") (Some "Pune") None None)
    Samples.two_customers
  = (mkResponse 400 (validation_errors ["Invalid value"; "Invalid value"]),
     Samples.two_customers).
Proof. vm_compute. reflexivity. Qed.

End AddressWrites.

(* ====================================================================== *)
(** ** Deleting a customer *)
(* ====================================================================== *)

Section DeleteCustomer.
Import SQLite Server.

(** What the delete handler does to an existing customer. *)
Lemma delete_customer_route_found (db : database) (c : customer) :
  In c (customers db) ->
  delete_customer_route (id c) db
  = (mkResponse 200 (succeeded "Customer deleted"),
     snd (delete_customer (id c) db)).
Proof.
  intros H. destruct (customer_by_id_found db c H) as [c' E].
  unfold delete_customer_route, try_catch, bind, getAsync, select_customer. rewrite E. reflexivity.
Qed.

(** With foreign keys enforced the deletion cascades: neither the customer
    nor any address referring to it is left. *)
Lemma delete_cascades_when_enforced (db : database) (c : customer) :
  foreign_keys db = true ->
  In c (customers db) ->
  let db' := snd (delete_customer_route (id c) db) in
  customer_by_id db' (id c) = None
  /\ forall a, In a (addresses db') -> customer_id a <> id c.
Proof.
  intros Hfk Hc db'. subst db'. rewrite delete_customer_route_found by exact Hc.
  cbn [snd delete_customer customers addresses]. rewrite Hfk. split.
  - unfold customer_by_id. cbn [customers].
    destruct (find _ _) as [k|] eqn:E; [|reflexivity].
    apply find_some in E as [E1 E2]. apply filter_In in E1 as [_ E1].
    rewrite E2 in E1. discriminate.
  - intros a Ha. apply filter_In in Ha as [_ Ha].
    apply negb_true_iff, Z.eqb_neq in Ha. exact Ha.
Qed.

(** In a database the service reaches, deleting a customer removes its row
    and leaves the table of addresses as it was. *)
Lemma delete_keeps_addresses (db : database) (c : customer) :
  reachable db ->
  In c (customers db) ->
  let db' := snd (delete_customer_route (id c) db) in
  customer_by_id db' (id c) = None /\ addresses db' = addresses db.
Proof.
  intros Hr Hc db'. subst db'. rewrite delete_customer_route_found by exact Hc.
  cbn [snd delete_customer customers addresses].
  rewrite (reachable_foreign_keys_off db Hr). split; [|reflexivity].
  unfold customer_by_id. cbn [customers].
  destruct (find _ _) as [k|] eqn:E; [|reflexivity].
  apply find_some in E as [E1 E2]. apply filter_In in E1 as [_ E1].
  rewrite E2 in E1. discriminate.
Qed.

(** C1 at a failing input.  Ann is created with an inline address, Bob
    without; DELETE [/api/customers/1] answers 200 and removes Ann, but her
    address row stays, and a later PUT [/api/addresses/1] finds and updates
    it (200, not 404). *)
Theorem delete_leaves_address_behind :
  let db := Samples.two_customers in
  let db' := snd (delete_customer_route 1 db) in
  In Samples.ann (customers db)
  /\ addresses db = [mkAddress 1 1 "1 Main St" "Pune" "" ""]
  /\ fst (delete_customer_route 1 db) = mkResponse 200 (succeeded "Customer deleted")
  /\ customer_by_id db' 1 = None
  /\ addresses db' = [mkAddress 1 1 "1 Main St" "Pune" "" ""]
  /\ fst (put_address 1 (mkAddressBody None (Some "Nagpur") None None) db')
     = mkResponse 200
         (address_data (Some (mkAddress 1 1 "1 Main St" "Nagpur" "" "")) "Address updated").
Proof.
  cbv zeta. repeat split; try (vm_compute; reflexivity).
  left. reflexivity.
Qed.

End DeleteCustomer.

(* ====================================================================== *)
(** ** The JavaScript primitives on small inputs *)
(* ====================================================================== *)

Example parseInt_ex1 : JS.parseInt (Some "  42abc") = JS.Finite 42.
Proof. reflexivity. Qed.
Example parseInt_ex2 : JS.parseInt (Some "-7") = JS.Finite (-7).
Proof. reflexivity. Qed.
Example parseInt_ex3 : JS.parseInt (Some "0x1f") = JS.Finite 31.
Proof. reflexivity. Qed.
Example parseInt_ex4 : JS.parseInt (Some "abc") = JS.NaN.
Proof. reflexivity. Qed.
(** A no-break space, U+00A0, before the digits is skipped. *)
Example parseInt_ex5 : JS.parseInt (Some (JS.of_bytes [194; 160; 55])) = JS.Finite 7.
Proof. reflexivity. Qed.
(** 2^53 + 1 is not a double; the nearest one is 2^53. *)
Example parseInt_ex6 : JS.parseInt (Some "9007199254740993") = JS.Finite 9007199254740992.
Proof. reflexivity. Qed.
Example double_ex1 :
  JS.double (2 ^ 63 - 513) = JS.Finite (2 ^ 63 - 1024)
  /\ JS.double (2 ^ 63 - 512) = JS.Finite (2 ^ 63)
  /\ JS.double (2 ^ 1024 - 2 ^ 970) = JS.Infinity.
Proof. repeat split; vm_compute; reflexivity. Qed.
Example split_ex1 : JS.split_colon "a:b:c" = ["a"; "b"; "c"].
Proof. reflexivity. Qed.
Example split_ex2 : JS.split_colon "id" = ["id"].
Proof. reflexivity. Qed.
Example trim_ex1 : JS.trim "  a b  " = "a b".
Proof. reflexivity. Qed.
(** A no-break space in front and a line separator, U+2028, behind. *)
Example trim_ex2 : JS.trim (JS.of_bytes [194; 160; 97; 32; 98; 226; 128; 168]) = "a b".
Proof. reflexivity. Qed.
Example characters_ex1 :
  JS.characters Samples.seven_euros = 7 /\ String.length Samples.seven_euros = 21%nat.
Proof. split; reflexivity. Qed.
Example upper_ex1 : JS.toUpperCase "dEsc" = "DESC".
Proof. reflexivity. Qed.

(* ====================================================================== *)
(** ** Row ids *)
(* ====================================================================== *)

Section RowIds.
Import SQLite Server.

Lemma fold_max_above (seq : Z) (ids : list Z) :
  seq <= fold_right Z.max seq ids /\ forall x, In x ids -> x <= fold_right Z.max seq ids.
Proof.
  induction ids as [|y ids [IH1 IH2]]; cbn [fold_right].
  - split; [lia | intros x []].
  - split; [lia|]. intros x [<- | H]; [lia|]. specialize (IH2 x H). lia.
Qed.

(** A new rowid is larger than the counter and than every id in the table. *)
Lemma next_rowid_above (seq : Z) (ids : list Z) :
  seq < next_rowid seq ids /\ forall x, In x ids -> x < next_rowid seq ids.
Proof.
  unfold next_rowid. destruct (fold_max_above seq ids) as [H1 H2].
  split; [lia|]. intros x H. specialize (H2 x H). lia.
Qed.

(** When no id exceeds the counter, the new rowid is the counter plus one. *)
Lemma next_rowid_counter (seq : Z) (ids : list Z) :
  (forall x, In x ids -> x <= seq) -> next_rowid seq ids = seq + 1.
Proof.
  intros H. unfold next_rowid. f_equal.
  induction ids as [|y ids IH]; cbn [fold_right]; [reflexivity|].
  rewrite IH by (intros x Hx; apply H; right; exact Hx).
  specialize (H y (or_introl eq_refl)). lia.
Qed.

(** Looking up an id that no earlier row has finds the row appended with
    it. *)
Lemma find_appended {A} (key : A -> Z) (l : list A) (x : A) :
  (forall y, In y l -> key y <> key x) ->
  find (fun y => key y =? key x) (l ++ [x]) = Some x.
Proof.
  intros H. induction l as [|y l IH]; cbn [app find].
  - now rewrite Z.eqb_refl.
  - destruct (key y =? key x) eqn:E.
    + apply Z.eqb_eq in E. now apply H in E; [|left].
    + apply IH. intros z Hz. apply H. right. exact Hz.
Qed.

Lemma find_app_old {A} (f : A -> bool) (l : list A) (x y : A) :
  find f l = Some y -> find f (l ++ [x]) = Some y.
Proof.
  induction l as [|z l IH]; cbn [app find]; [discriminate|].
  destruct (f z); [auto | exact IH].
Qed.

End RowIds.

(* ====================================================================== *)
(** ** Creating a customer and reading it back *)
(* ====================================================================== *)

Section CreateCustomer.
Import SQLite Server.

Lemma insert_address_done (cid : Z) (d c s p : string) (db : database) :
  existsb (fun k => id k =? cid) (customers db) = true ->
  insert_address cid d c s p db
  = (Ok (mkRun (next_rowid (seq_addresses db) (map address_id (addresses db))) 1),
     mkDatabase (customers db)
       (addresses db
        ++ [mkAddress (next_rowid (seq_addresses db) (map address_id (addresses db)))
                      cid d c s p])
       (seq_customers db)
       (next_rowid (seq_addresses db) (map address_id (addresses db)))
       (foreign_keys db)).
Proof.
  intros H. unfold insert_address. rewrite H. cbn [negb]. rewrite andb_false_r. reflexivity.
Qed.

(** The inline address step of a creation, for a customer that is in the
    table: it succeeds, and appends at most one row to [addresses]. *)
Lemma insert_inline_address_done (cid : Z) (address : option address_body) (db : database) :
  existsb (fun k => id k =? cid) (customers db) = true ->
  exists rows,
    insert_inline_address cid address db
    = (Ok tt,
       mkDatabase (customers db) (addresses db ++ rows) (seq_customers db)
         (match rows with
          | [] => seq_addresses db
          | _ => next_rowid (seq_addresses db) (map address_id (addresses db))
          end)
         (foreign_keys db))
    /\ (rows = []
        \/ exists a d,
             address = Some a /\ body_address_details a = Some d /\ d <> ""
             /\ rows = [mkAddress (next_rowid (seq_addresses db) (map address_id (addresses db)))
                          cid d (JS.to_string (body_city a)) (JS.to_string (body_state a))
                          (JS.to_string (body_pin_code a))]).
Proof.
  intros H.
  assert (Same : (Ok tt, db)
                 = (Ok tt, mkDatabase (customers db) (addresses db ++ []) (seq_customers db)
                             (seq_addresses db) (foreign_keys db))).
  { rewrite app_nil_r. now destruct db. }
  destruct address as [a|]; cbn [insert_inline_address];
    [|exists []; split; [exact Same | left; reflexivity]].
  destruct (body_address_details a) as [[|x d]|] eqn:E;
    cbn [JS.truthy_opt JS.truthy JS.is_empty negb];
    try (exists []; split; [exact Same | left; reflexivity]).
  eexists [_]. split.
  - unfold bind, runAsync. rewrite insert_address_done by exact H.
    cbn [ret JS.to_string]. rewrite !or_string_empty. reflexivity.
  - right. exists a, (String x d). repeat split; [exact E | discriminate].
Qed.

(** The creation handler on a valid body with a new phone number: the
    answer and the database it leaves. *)
Lemma post_customers_created (db : database) (b : customer_body) :
  validate_create b = [] ->
  (forall c, In c (customers db) -> phone_number c <> sanitized (body_phone_number b)) ->
  let i := next_rowid (seq_customers db) (map id (customers db)) in
  let c := mkCustomer i (sanitized (body_first_name b)) (sanitized (body_last_name b))
                      (sanitized (body_phone_number b)) in
  (forall x, In x (customers db) -> id x < i)
  /\ find (fun y => id y =? i) (customers db ++ [c]) = Some c
  /\ exists rows,
       post_customers b db
       = (mkResponse 201 (customer_data (Some c) "Customer created"),
          mkDatabase (customers db ++ [c]) (addresses db ++ rows) i
            (match rows with
             | [] => seq_addresses db
             | _ => next_rowid (seq_addresses db) (map address_id (addresses db))
             end)
            (foreign_keys db))
       /\ (rows = []
           \/ exists a d,
                body_address b = Some a /\ body_address_details a = Some d /\ d <> ""
                /\ rows = [mkAddress
                             (next_rowid (seq_addresses db) (map address_id (addresses db)))
                             i d (JS.to_string (body_city a)) (JS.to_string (body_state a))
                             (JS.to_string (body_pin_code a))]).
Proof.
  intros Hv Hnew i c.
  assert (Hfresh : forall x, In x (customers db) -> id x < i).
  { intros x Hx. apply (proj2 (next_rowid_above (seq_customers db) (map id (customers db)))).
    now apply in_map. }
  assert (Hfind : find (fun y => id y =? i) (customers db ++ [c]) = Some c).
  { apply (find_appended id (customers db) c). intros y Hy. apply Hfresh in Hy.
    cbn [id c]. lia. }
  split; [exact Hfresh|]. split; [exact Hfind|].
  unfold post_customers. rewrite Hv. cbn [null negb].
  unfold try_catch, bind at 1, runAsync.
  rewrite (insert_customer_new _ _ _ db Hnew). cbn [lastID]. fold i. fold c.
  set (db1 := mkDatabase (customers db ++ [c]) (addresses db) i (seq_addresses db)
                         (foreign_keys db)).
  destruct (insert_inline_address_done i (body_address b) db1) as [rows [E Hrows]].
  { cbn [customers db1]. rewrite existsb_app. cbn [existsb id c].
    rewrite Z.eqb_refl. now rewrite orb_true_r. }
  exists rows. split; [|exact Hrows].
  unfold bind. rewrite E.
  cbn [getAsync select_customer ret fst snd].
  unfold customer_by_id. cbn [customers db1]. rewrite Hfind. reflexivity.
Qed.

(** Creating a customer and reading it back.  For a body that passes
    validation and a phone number no stored customer has, POST
    [/api/customers] answers 201 with the new row: an id larger than every id
    in the table and the trimmed fields.  The row is appended to the table,
    every customer that could be looked up before still can, and GET
    [/api/customers/:id] with the new id then answers 200 with the same
    row. *)
Theorem create_then_fetch (db : database) (b : customer_body) :
  validate_create b = [] ->
  (forall c, In c (customers db) -> phone_number c <> sanitized (body_phone_number b)) ->
  let i := next_rowid (seq_customers db) (map id (customers db)) in
  let c := mkCustomer i (sanitized (body_first_name b)) (sanitized (body_last_name b))
                      (sanitized (body_phone_number b)) in
  let db' := snd (post_customers b db) in
  fst (post_customers b db) = mkResponse 201 (customer_data (Some c) "Customer created")
  /\ customers db' = (customers db ++ [c])%list
  /\ (forall x, In x (customers db) -> id x < i)
  /\ (forall j old, customer_by_id db j = Some old -> customer_by_id db' j = Some old)
  /\ get_customer i db' = (mkResponse 200 (customer_detail c (addresses_of db' i)), db').
Proof.
  intros Hv Hnew i c db'.
  destruct (post_customers_created db b Hv Hnew) as [Hfresh [Hfind [rows [E _]]]].
  fold i in Hfresh, Hfind, E. fold c in Hfind, E.
  subst db'. rewrite E. cbn [fst snd customers].
  split; [reflexivity|]. split; [reflexivity|]. split; [exact Hfresh|]. split.
  - intros j old Hj. unfold customer_by_id in *. cbn [customers]. now apply find_app_old.
  - unfold get_customer, try_catch, bind, getAsync, allAsync, select_customer,
      select_addresses, ret, customer_by_id.
    cbn [customers]. rewrite Hfind. reflexivity.
Qed.

(** Creating Ann on a fresh database. *)
Lemma create_then_fetch_witness :
  fst (post_customers Samples.ann_body db_open)
  = mkResponse 201 (customer_data (Some Samples.ann) "Customer created")
  /\ get_customer 1 (snd (post_customers Samples.ann_body db_open))
     = (mkResponse 200
          (customer_detail Samples.ann [mkAddress 1 1 "1 Main St" "Pune" "" ""]),
        snd (post_customers Samples.ann_body db_open)).
Proof.
  destruct (create_then_fetch db_open Samples.ann_body eq_refl) as [H1 [_ [_ [_ H2]]]].
  - intros c [].
  - split; [exact H1 | exact H2].
Defined.

End CreateCustomer.

(* ====================================================================== *)
(** ** The stored rows stay well formed *)
(* ====================================================================== *)

Section StoredRows.
Import SQLite Server Stored.

Lemma NoDup_map_filter {A B} (key : A -> B) (f : A -> bool) (l : list A) :
  NoDup (map key l) -> NoDup (map key (filter f l)).
Proof.
  induction l as [|x l IH]; cbn [map filter]; intros H; [constructor|].
  apply NoDup_cons_iff in H as [H1 H2].
  destruct (f x); [|auto]. cbn [map]. constructor; [|auto].
  intros Hin. apply H1. apply in_map_iff in Hin as [y [E Hy]].
  apply filter_In in Hy as [Hy _]. rewrite <- E. now apply in_map.
Qed.

Lemma NoDup_snoc {A} (l : list A) (x : A) : NoDup l -> ~ In x l -> NoDup (l ++ [x]).
Proof.
  intros H Hx. apply NoDup_app; [exact H | repeat constructor; intros [] |].
  intros a Ha [<- | []]. contradiction.
Qed.

Lemma Forall_filter {A} (P : A -> Prop) (f : A -> bool) (l : list A) :
  Forall P l -> Forall P (filter f l).
Proof.
  intros H. apply Forall_forall. intros x Hx. apply filter_In in Hx as [Hx _].
  revert x Hx. now apply Forall_forall.
Qed.

(** What the validation chains of a creation guarantee about the values the
    handler stores. *)
Lemma check_not_empty_passed (v : option string) (msg : string) :
  check_not_empty v msg = [] -> JS.trim (sanitized v) = sanitized v /\ sanitized v <> "".
Proof.
  unfold check_not_empty, sanitized. intros H. split; [apply trim_trim|].
  destruct (JS.trim (JS.to_string v)); [discriminate | discriminate].
Qed.

Lemma validate_create_passed (b : customer_body) (i : Z) :
  validate_create b = [] ->
  valid_customer (mkCustomer i (sanitized (body_first_name b))
                    (sanitized (body_last_name b)) (sanitized (body_phone_number b))).
Proof.
  unfold validate_create. intros H.
  apply app_eq_nil in H as [H1 H]. apply app_eq_nil in H as [H2 H].
  apply app_eq_nil in H as [H3 H4].
  apply check_not_empty_passed in H1 as [T1 N1], H2 as [T2 N2], H3 as [T3 _].
  unfold valid_customer. cbn [first_name last_name phone_number].
  repeat split; try assumption.
  destruct (isLength _ 6 20); [reflexivity | discriminate].
Qed.

Lemma ids_below_counter (db : database) :
  ids_issued db ->
  next_rowid (seq_customers db) (map id (customers db)) = seq_customers db + 1
  /\ next_rowid (seq_addresses db) (map address_id (addresses db)) = seq_addresses db + 1.
Proof.
  intros [_ [_ [Hc [_ Ha]]]]. split; apply next_rowid_counter; intros x Hx;
    apply in_map_iff in Hx as [y [<- Hy]].
  - now apply (proj1 (Forall_forall _ _) Hc y).
  - now apply (proj1 (Forall_forall _ _) Ha y).
Qed.

(** INSERT INTO customers keeps the rows well formed when the values are
    valid; on success the new id is the counter, and is in the table. *)
Lemma well_formed_insert_customer (fn ln ph : string) (db : database) :
  well_formed db ->
  valid_customer (mkCustomer 0 fn ln ph) ->
  well_formed (snd (insert_customer fn ln ph db))
  /\ forall r db1,
       insert_customer fn ln ph db = (Ok r, db1) ->
       lastID r = seq_customers db1 /\ 1 <= lastID r
       /\ existsb (fun k => id k =? lastID r) (customers db1) = true.
Proof.
  intros W V. pose proof W as [Hi [Hp [Hv Ha]]].
  destruct (ids_below_counter db Hi) as [Ei _].
  destruct Hi as [[S1 S2] [I1 [I2 [I3 I4]]]].
  unfold insert_customer. rewrite Ei.
  destruct (existsb _ _) eqn:E; cbn [snd]; [split; [exact W | discriminate]|].
  split.
  - split; [|split; [|split]].
    + unfold ids_issued. cbn [customers addresses seq_customers seq_addresses].
      split; [lia|]. split; [|split; [|split; assumption]].
      * rewrite map_app. apply NoDup_snoc; [exact I1|]. cbn [map id].
        intros Hin. apply in_map_iff in Hin as [y [Ey Hy]].
        apply (proj1 (Forall_forall _ _) I2) in Hy. lia.
      * apply Forall_app. split; [|repeat constructor; cbn [id]; lia].
        revert I2. apply Forall_impl. intros; lia.
    + unfold phones_unique. cbn [customers]. rewrite map_app.
      apply NoDup_snoc; [exact Hp|]. cbn [map phone_number].
      intros Hin. apply in_map_iff in Hin as [y [Ey Hy]].
      assert (existsb (fun c => (phone_number c =? ph)%string) (customers db) = true)
        by (apply existsb_exists; exists y; split; [exact Hy | now apply String.eqb_eq]).
      congruence.
    + cbn [customers]. apply Forall_app. split; [exact Hv|].
      repeat constructor; apply V.
    + unfold addresses_anchored in *. cbn [addresses seq_customers].
      revert Ha. apply Forall_impl. intros a [H1 H2]. split; [lia | exact H2].
  - intros r db1 H. injection H as <- <-. cbn [lastID seq_customers customers].
    split; [reflexivity|]. split; [lia|].
    rewrite existsb_app. cbn [existsb id]. now rewrite Z.eqb_refl, orb_true_r.
Qed.

(** INSERT INTO addresses keeps the rows well formed when the owner's id
    has been issued and the details are not empty. *)
Lemma well_formed_insert_address (cid : Z) (d c s p : string) (db : database) :
  well_formed db ->
  1 <= cid <= seq_customers db ->
  d <> "" ->
  well_formed (snd (insert_address cid d c s p db)).
Proof.
  intros W Hc Hd. pose proof W as [Hi [Hp [Hv Ha]]].
  destruct (ids_below_counter db Hi) as [_ Ei].
  destruct Hi as [[S1 S2] [I1 [I2 [I3 I4]]]].
  unfold insert_address. rewrite Ei.
  destruct (foreign_keys db && _); cbn [snd]; [exact W|].
  split; [|split; [|split]]; try assumption.
  - unfold ids_issued. cbn [customers addresses seq_customers seq_addresses].
    split; [lia|]. split; [exact I1|]. split; [exact I2|]. split.
    + rewrite map_app. apply NoDup_snoc; [exact I3|]. cbn [map address_id].
      intros Hin. apply in_map_iff in Hin as [y [Ey Hy]].
      apply (proj1 (Forall_forall _ _) I4) in Hy. lia.
    + apply Forall_app. split; [|repeat constructor; cbn [address_id]; lia].
      revert I4. apply Forall_impl. intros; lia.
  - unfold addresses_anchored in *. cbn [addresses seq_customers].
    apply Forall_app. split; [exact Ha|].
    repeat constructor; cbn [customer_id address_details]; [lia | lia | exact Hd].
Qed.

Lemma well_formed_delete_customer (i : Z) (db : database) :
  well_formed db -> well_formed (snd (delete_customer i db)).
Proof.
  intros [[S [I1 [I2 [I3 I4]]]] [Hp [Hv Ha]]].
  cbn [delete_customer snd].
  split; [|split; [|split]].
  - unfold ids_issued. cbn [customers addresses seq_customers seq_addresses].
    split; [exact S|]. split; [now apply NoDup_map_filter|].
    split; [now apply Forall_filter|].
    destruct (foreign_keys db); [|split; assumption].
    split; [now apply NoDup_map_filter | now apply Forall_filter].
  - unfold phones_unique. cbn [customers]. now apply NoDup_map_filter.
  - cbn [customers]. now apply Forall_filter.
  - unfold addresses_anchored in *. cbn [addresses seq_customers].
    destruct (foreign_keys db); [now apply Forall_filter | exact Ha].
Qed.

Lemma well_formed_delete_address (i : Z) (db : database) :
  well_formed db -> well_formed (snd (delete_address i db)).
Proof.
  intros [[S [I1 [I2 [I3 I4]]]] [Hp [Hv Ha]]].
  cbn [delete_address snd].
  split; [|split; [|split]]; try assumption.
  - unfold ids_issued. cbn [customers addresses seq_customers seq_addresses].
    split; [exact S|]. split; [exact I1|]. split; [exact I2|].
    split; [now apply NoDup_map_filter | now apply Forall_filter].
  - unfold addresses_anchored in *. cbn [addresses seq_customers].
    now apply Forall_filter.
Qed.

(** Assignments never touch the id. *)
Lemma assignments_keep_id (sets : list (customer_column * string)) (c : customer) :
  id (fold_left set_customer_column sets c) = id c.
Proof.
  revert c. induction sets as [|[k v] sets IH]; intros c; [reflexivity|].
  cbn [fold_left]. rewrite IH. destruct k; reflexivity.
Qed.

(** The phone number after the assignments: the assigned one, if any. *)
Lemma assignments_phone (sets : list (customer_column * string)) (c : customer) :
  phone_number (fold_left set_customer_column sets c)
  = match assigned_phone sets with Some ph => ph | None => phone_number c end.
Proof.
  revert c. induction sets as [|[k v] sets IH]; intros c; [reflexivity|].
  cbn [fold_left assigned_phone]. rewrite IH.
  destruct k; cbn; destruct (assigned_phone sets); reflexivity.
Qed.

Lemma assignments_keep_valid (sets : list (customer_column * string)) (c : customer) :
  Forall valid_assignment sets -> valid_customer c ->
  valid_customer (fold_left set_customer_column sets c).
Proof.
  revert c. induction sets as [|[k v] sets IH]; intros c Hs Hc; [exact Hc|].
  apply Forall_cons_iff in Hs as [[T [N L]] Hs]. cbn [fst snd] in *.
  cbn [fold_left]. apply IH; [exact Hs|].
  destruct Hc as [C1 [C2 [C3 [C4 [C5 C6]]]]].
  destruct k; unfold valid_customer; cbn; repeat split; auto.
Qed.

Lemma update_keeps_ids (sets : list (customer_column * string)) (i : Z)
  (l : list customer) :
  map id (map (fun c => if id c =? i then fold_left set_customer_column sets c else c) l)
  = map id l.
Proof.
  rewrite map_map. apply map_ext. intros c.
  destruct (id c =? i); [apply assignments_keep_id | reflexivity].
Qed.

(** Giving one row a phone number that no other row has keeps the phone
    numbers distinct. *)
Lemma update_keeps_phones_distinct (sets : list (customer_column * string)) (i : Z)
  (l : list customer) :
  NoDup (map id l) ->
  NoDup (map phone_number l) ->
  (forall ph, assigned_phone sets = Some ph ->
     forall c, In c l -> id c <> i -> phone_number c <> ph) ->
  NoDup (map phone_number
           (map (fun c => if id c =? i then fold_left set_customer_column sets c else c) l)).
Proof.
  intros Hid Hph Hfree.
  destruct (assigned_phone sets) as [ph|] eqn:E.
  2:{ replace (map phone_number (map _ l)) with (map phone_number l); [exact Hph|].
      rewrite map_map. apply map_ext. intros c.
      destruct (id c =? i); [|reflexivity]. now rewrite assignments_phone, E. }
  specialize (Hfree ph eq_refl).
  induction l as [|c l IH]; [constructor|].
  cbn [map] in *.
  apply NoDup_cons_iff in Hid as [Hi1 Hi2]. apply NoDup_cons_iff in Hph as [Hp1 Hp2].
  assert (Hrest : forall y, In y (map phone_number
             (map (fun c => if id c =? i then fold_left set_customer_column sets c else c) l)) ->
             exists x, In x l /\ ((id x = i /\ y = ph) \/ (id x <> i /\ y = phone_number x))).
  { intros y Hy. apply in_map_iff in Hy as [z [Ez Hz]]. apply in_map_iff in Hz as [x [Ex Hx]].
    exists x. split; [exact Hx|]. subst z y.
    destruct (id x =? i) eqn:Ei.
    - left. split; [now apply Z.eqb_eq|]. now rewrite assignments_phone, E.
    - right. split; [now apply Z.eqb_neq | reflexivity]. }
  constructor.
  - intros Hin. apply Hrest in Hin as [x [Hx Hcase]].
    destruct (id c =? i) eqn:Ec.
    + apply Z.eqb_eq in Ec. rewrite assignments_phone, E in Hcase.
      destruct Hcase as [[Hxi _] | [Hxi Hy]].
      * apply Hi1. rewrite Ec, <- Hxi. now apply in_map.
      * apply (Hfree x); [now right | exact Hxi | now symmetry].
    + apply Z.eqb_neq in Ec.
      destruct Hcase as [[_ Hy] | [_ Hy]].
      * apply (Hfree c); [now left | exact Ec | exact Hy].
      * apply Hp1. rewrite Hy. now apply in_map.
  - apply IH; [exact Hi2 | exact Hp2 |].
    intros x Hx. apply Hfree. now right.
Qed.

(** UPDATE customers keeps the rows well formed when the assignments are
    valid. *)
Lemma well_formed_update_customers (sets : list (customer_column * string)) (i : Z)
  (db : database) :
  well_formed db ->
  Forall valid_assignment sets ->
  well_formed (snd (update_customers sets i db)).
Proof.
  intros W Hs. pose proof W as [[S [I1 [I2 [I3 I4]]]] [Hp [Hv Ha]]].
  unfold update_customers.
  destruct (existsb (fun c => id c =? i) (customers db)) eqn:Hit.
  2:{ cbn [andb snd].
      replace (map _ (customers db)) with (customers db); [now destruct db|].
      rewrite <- (map_id (customers db)) at 1. apply map_ext_in. intros c Hc.
      destruct (id c =? i) eqn:E; [|reflexivity].
      assert (existsb (fun c => id c =? i) (customers db) = true)
        by (apply existsb_exists; eauto).
      congruence. }
  cbn [andb].
  destruct (match assigned_phone sets with
            | Some ph => existsb _ (customers db)
            | None => false
            end) eqn:Clash; cbn [snd]; [exact W|].
  split; [|split; [|split]].
  - unfold ids_issued. cbn [customers addresses seq_customers seq_addresses].
    split; [exact S|]. split; [now rewrite update_keeps_ids|].
    split; [|split; assumption].
    apply Forall_forall. intros c Hc. apply in_map_iff in Hc as [c0 [<- Hc0]].
    pose proof (proj1 (Forall_forall _ _) I2 c0 Hc0) as H0.
    destruct (id c0 =? i); [now rewrite assignments_keep_id | exact H0].
  - unfold phones_unique. cbn [customers].
    apply update_keeps_phones_distinct; [exact I1 | exact Hp |].
    intros ph E c Hc Hne Heq. rewrite E in Clash.
    assert (existsb (fun c => negb (id c =? i) && (phone_number c =? ph)%string)
                    (customers db) = true); [|congruence].
    apply existsb_exists. exists c. split; [exact Hc|].
    apply andb_true_iff. split; [now apply negb_true_iff, Z.eqb_neq | now apply String.eqb_eq].
  - cbn [customers]. apply Forall_forall. intros c Hc.
    apply in_map_iff in Hc as [c0 [<- Hc0]].
    pose proof (proj1 (Forall_forall _ _) Hv c0 Hc0) as H0.
    destruct (id c0 =? i); [now apply assignments_keep_valid | exact H0].
  - exact Ha.
Qed.

(** Assignments to an address never touch its id or its owner, and keep the
    details non-empty when the assigned values are not empty. *)
Lemma address_assignments (sets : list (address_column * string)) (a : address) :
  Forall (fun kv => snd kv <> "") sets ->
  address_id (fold_left set_address_column sets a) = address_id a
  /\ customer_id (fold_left set_address_column sets a) = customer_id a
  /\ (address_details a <> "" ->
      address_details (fold_left set_address_column sets a) <> "").
Proof.
  revert a. induction sets as [|[k v] sets IH]; intros a Hs; [auto|].
  apply Forall_cons_iff in Hs as [Hv Hs]. cbn [snd] in Hv.
  cbn [fold_left]. destruct (IH (set_address_column a (k, v)) Hs) as [E1 [E2 E3]].
  rewrite E1, E2. destruct k; cbn in *; auto.
Qed.

Lemma well_formed_update_addresses (sets : list (address_column * string)) (i : Z)
  (db : database) :
  well_formed db ->
  Forall (fun kv => snd kv <> "") sets ->
  well_formed (snd (update_addresses sets i db)).
Proof.
  intros [[S [I1 [I2 [I3 I4]]]] [Hp [Hv Ha]]] Hs.
  cbn [update_addresses snd].
  split; [|split; [|split]]; try assumption.
  - unfold ids_issued. cbn [customers addresses seq_customers seq_addresses].
    split; [exact S|]. split; [exact I1|]. split; [exact I2|]. split.
    + replace (map address_id (map _ (addresses db))) with (map address_id (addresses db));
        [exact I3|].
      rewrite map_map. apply map_ext. intros a.
      destruct (address_id a =? i); [|reflexivity].
      symmetry. apply (address_assignments sets a Hs).
    + apply Forall_forall. intros a Hin. apply in_map_iff in Hin as [a0 [<- H0]].
      pose proof (proj1 (Forall_forall _ _) I4 a0 H0) as H1.
      destruct (address_id a0 =? i); [|exact H1].
      now rewrite (proj1 (address_assignments sets a0 Hs)).
  - unfold addresses_anchored in *. cbn [addresses seq_customers].
    apply Forall_forall. intros a Hin. apply in_map_iff in Hin as [a0 [<- H0]].
    pose proof (proj1 (Forall_forall _ _) Ha a0 H0) as [H1 H2].
    destruct (address_id a0 =? i); [|auto].
    destruct (address_assignments sets a0 Hs) as [_ [E2 E3]].
    rewrite E2. auto.
Qed.

Lemma well_formed_inline_address (cid : Z) (address : option address_body) (db : database) :
  well_formed db -> 1 <= cid <= seq_customers db ->
  well_formed (snd (insert_inline_address cid address db)).
Proof.
  intros W Hc. destruct address as [a|]; cbn [insert_inline_address]; [|exact W].
  destruct (body_address_details a) as [[|x d]|];
    cbn [JS.truthy_opt JS.truthy JS.is_empty negb]; try exact W.
  unfold bind, runAsync.
  pose proof (well_formed_insert_address cid (String x d)
                (JS.or_string (body_city a) "") (JS.or_string (body_state a) "")
                (JS.or_string (body_pin_code a) "") db W Hc) as H.
  cbn [JS.to_string].
  destruct (insert_address _ _ _ _ _ db) as [[r|e] db1]; cbn [snd ret] in *;
    apply H; discriminate.
Qed.

Lemma well_formed_post_customers (b : customer_body) :
  Spec.preserves well_formed (post_customers b).
Proof.
  intros db W. unfold post_customers.
  destruct (validate_create b) as [|e es] eqn:V; cbn [null negb]; [|exact W].
  destruct (well_formed_insert_customer
              (sanitized (body_first_name b)) (sanitized (body_last_name b))
              (sanitized (body_phone_number b)) db W (validate_create_passed b 0 V))
    as [W1 R].
  unfold try_catch, bind at 1, runAsync.
  destruct (insert_customer _ _ _ db) as [[r|e] db1]; cbn [snd] in W1; [|exact W1].
  destruct (R r db1 eq_refl) as [E [L _]].
  pose proof (well_formed_inline_address (lastID r) (body_address b) db1 W1) as W2.
  unfold bind.
  destruct (insert_inline_address (lastID r) (body_address b) db1) as [[u|e] db2];
    cbn [snd getAsync ret] in *; apply W2; lia.
Qed.

(** The assignments the update handler collects from a body that passed
    validation are valid. *)
Lemma put_customer_assignments_valid (b : customer_body) :
  validate_update b = [] ->
  Forall valid_assignment
    ((if JS.truthy_opt (sanitized_optional (body_first_name b))
      then [(first_name_col, JS.to_string (sanitized_optional (body_first_name b)))] else [])
     ++ (if JS.truthy_opt (sanitized_optional (body_last_name b))
         then [(last_name_col, JS.to_string (sanitized_optional (body_last_name b)))] else [])
     ++ (if JS.truthy_opt (sanitized_optional (body_phone_number b))
         then [(phone_number_col, JS.to_string (sanitized_optional (body_phone_number b)))]
         else []))%list.
Proof.
  unfold validate_update. intros H.
  apply app_eq_nil in H as [_ H]. apply app_eq_nil in H as [_ H3].
  assert (G : forall (k : customer_column) (v : option string),
            (k = phone_number_col -> optional v
               (fun v => if isLength (sanitized v) 6 20 then []
                         else ["phone_number length invalid"]) = []) ->
            Forall valid_assignment
              (if JS.truthy_opt (sanitized_optional v)
               then [(k, JS.to_string (sanitized_optional v))] else [])).
  { intros k [v|] Hk; cbn [sanitized_optional option_map JS.truthy_opt JS.to_string];
      [|constructor].
    destruct (JS.truthy (JS.trim v)) eqn:T; constructor; [|constructor].
    unfold valid_assignment. cbn [fst snd].
    split; [apply trim_trim|]. split; [destruct (JS.trim v); [discriminate | discriminate]|].
    intros E. specialize (Hk E). unfold optional, sanitized, JS.to_string in Hk.
    destruct (isLength (JS.trim v) 6 20); [reflexivity | discriminate]. }
  repeat (apply Forall_app; split); apply G; try discriminate. intros _. exact H3.
Qed.

Lemma well_formed_put_customer (i : Z) (b : customer_body) :
  Spec.preserves well_formed (put_customer i b).
Proof.
  intros db W. unfold put_customer.
  destruct (validate_update b) as [|e es] eqn:V; cbn [null negb]; [|exact W].
  unfold try_catch, bind at 1, getAsync, select_customer.
  destruct (customer_by_id db i); [|exact W].
  cbv zeta. destruct (_ =? _)%nat; [exact W|].
  pose proof (well_formed_update_customers _ i db W (put_customer_assignments_valid b V)) as W1.
  unfold bind, runAsync.
  destruct (update_customers _ i db) as [[r|e] db1]; exact W1.
Qed.

Lemma customer_by_id_key (db : database) (i : Z) (c : customer) :
  customer_by_id db i = Some c -> In c (customers db) /\ id c = i.
Proof.
  intros H. apply find_some in H as [H1 H2]. split; [exact H1 | now apply Z.eqb_eq].
Qed.

Lemma well_formed_post_address (i : Z) (b : address_body) :
  Spec.preserves well_formed (post_address i b).
Proof.
  intros db W. unfold post_address.
  destruct (validate_address b) as [|e es] eqn:V; cbn [null negb]; [|exact W].
  unfold try_catch, bind at 1, getAsync, select_customer.
  destruct (customer_by_id db i) as [c|] eqn:E; [|exact W].
  apply customer_by_id_key in E as [Hc Hi].
  assert (Hrange : 1 <= i <= seq_customers db).
  { destruct W as [[_ [_ [I2 _]]] _].
    rewrite <- Hi. now apply (proj1 (Forall_forall _ _) I2). }
  assert (Hd : sanitized (body_address_details b) <> "").
  { unfold validate_address in V. apply app_eq_nil in V as [V _].
    now apply check_not_empty_passed in V. }
  pose proof (well_formed_insert_address i _ (sanitized (body_city b))
                (sanitized (body_state b)) (sanitized (body_pin_code b)) db W Hrange Hd) as W1.
  unfold bind, runAsync.
  destruct (insert_address _ _ _ _ _ db) as [[r|e] db1]; exact W1.
Qed.

Lemma put_address_assignments (b : address_body) :
  Forall (fun kv : address_column * string => snd kv <> "")
    ((if JS.truthy_opt (sanitized_optional (body_address_details b))
      then [(address_details_col, JS.to_string (sanitized_optional (body_address_details b)))]
      else [])
     ++ (if JS.truthy_opt (sanitized_optional (body_city b))
         then [(city_col, JS.to_string (sanitized_optional (body_city b)))] else [])
     ++ (if JS.truthy_opt (sanitized_optional (body_state b))
         then [(state_col, JS.to_string (sanitized_optional (body_state b)))] else [])
     ++ (if JS.truthy_opt (sanitized_optional (body_pin_code b))
         then [(pin_code_col, JS.to_string (sanitized_optional (body_pin_code b)))]
         else []))%list.
Proof.
  assert (G : forall (k : address_column) (v : option string),
            Forall (fun kv : address_column * string => snd kv <> "")
              (if JS.truthy_opt v then [(k, JS.to_string v)] else [])).
  { intros k [[|x v]|]; cbn; repeat constructor. discriminate. }
  repeat (apply Forall_app; split); apply G.
Qed.

Lemma well_formed_put_address (i : Z) (b : address_body) :
  Spec.preserves well_formed (put_address i b).
Proof.
  intros db W. unfold put_address.
  destruct (validate_address_update b) as [|e es]; cbn [null negb]; [|exact W].
  unfold try_catch, bind at 1, getAsync, select_address.
  destruct (address_by_id db i); [|exact W].
  cbv zeta. destruct (_ =? _)%nat; [exact W|].
  exact (well_formed_update_addresses _ i db W (put_address_assignments b)).
Qed.

Lemma well_formed_delete_customer_route (i : Z) :
  Spec.preserves well_formed (delete_customer_route i).
Proof.
  intros db W. unfold delete_customer_route, try_catch, bind, getAsync, select_customer.
  destruct (customer_by_id db i); [|exact W].
  exact (well_formed_delete_customer i db W).
Qed.

Lemma well_formed_delete_address_route (i : Z) :
  Spec.preserves well_formed (delete_address_route i).
Proof.
  intros db W. unfold delete_address_route, try_catch, bind, getAsync, select_address.
  destruct (address_by_id db i); [|exact W].
  exact (well_formed_delete_address i db W).
Qed.

(** Every handler keeps the stored rows well formed. *)
Lemma handle_keeps_well_formed (r : request) : Spec.preserves well_formed (handle r).
Proof.
  destruct r as [b | q | i | i b | i | i b | i | i b | i]; cbn [handle].
  - apply well_formed_post_customers.
  - apply preserves_get_customers.
  - unfold get_customer. walk.
  - apply well_formed_put_customer.
  - apply well_formed_delete_customer_route.
  - apply well_formed_post_address.
  - unfold get_addresses. walk.
  - apply well_formed_put_address.
  - apply well_formed_delete_address_route.
Qed.

Lemma reachable_well_formed (db : database) : reachable db -> well_formed db.
Proof.
  apply (preserves_reachable well_formed); [|apply handle_keeps_well_formed].
  repeat split; try constructor; cbn; lia.
Qed.

End StoredRows.

(* ====================================================================== *)
(** ** What holds of every database the service reaches *)
(* ====================================================================== *)

Section ReachableRows.
Import SQLite Server Stored.

(** Row ids.  In every database the service reaches, no two customers and no
    two addresses share an id, and every id lies between 1 and the
    AUTOINCREMENT counter of its table, so that the next id handed out is the
    counter plus one. *)
Theorem row_ids_distinct (db : database) :
  reachable db ->
  NoDup (map id (customers db))
  /\ NoDup (map address_id (addresses db))
  /\ Forall (fun c => 1 <= id c <= seq_customers db) (customers db)
  /\ Forall (fun a => 1 <= address_id a <= seq_addresses db) (addresses db)
  /\ next_rowid (seq_customers db) (map id (customers db)) = seq_customers db + 1
  /\ next_rowid (seq_addresses db) (map address_id (addresses db)) = seq_addresses db + 1.
Proof.
  intros H. destruct (reachable_well_formed db H) as [Hi _].
  destruct (ids_below_counter db Hi) as [E1 E2].
  destruct Hi as [_ [I1 [I2 [I3 I4]]]]. auto 10.
Qed.

Lemma row_ids_distinct_witness :
  NoDup (map id (customers Samples.two_customers))
  /\ NoDup (map address_id (addresses Samples.two_customers))
  /\ Forall (fun c => 1 <= id c <= seq_customers Samples.two_customers)
            (customers Samples.two_customers)
  /\ Forall (fun a => 1 <= address_id a <= seq_addresses Samples.two_customers)
            (addresses Samples.two_customers)
  /\ next_rowid (seq_customers Samples.two_customers)
                (map id (customers Samples.two_customers))
     = seq_customers Samples.two_customers + 1
  /\ next_rowid (seq_addresses Samples.two_customers)
                (map address_id (addresses Samples.two_customers))
     = seq_addresses Samples.two_customers + 1.
Proof.
  apply (row_ids_distinct Samples.two_customers).
  exists [POST_customers Samples.ann_body; POST_customers Samples.bob_body]. reflexivity.
Defined.

(** Phone numbers.  In every database the service reaches, no two customers
    have the same phone number: creation and update both go through the
    UNIQUE index, and nothing else writes the column. *)
Theorem phone_numbers_distinct (db : database) :
  reachable db -> NoDup (map phone_number (customers db)).
Proof. intros H. apply (reachable_well_formed db H). Qed.

Lemma phone_numbers_distinct_witness :
  NoDup (map phone_number (customers Samples.two_customers)).
Proof.
  apply (phone_numbers_distinct Samples.two_customers).
  exists [POST_customers Samples.ann_body; POST_customers Samples.bob_body]. reflexivity.
Defined.

(** A first name sent with a no-break space, U+00A0, in front is stored
    without it, and a first name made of that space alone is refused. *)
Example no_break_space_is_trimmed :
  post_customers
    (mkCustomerBody (Some (JS.of_bytes [194; 160; 65; 110; 110])) (Some "Lee")
       (Some "5551234") None) db_open
  = (mkResponse 201 (customer_data (Some Samples.ann) "Customer created"),
     mkDatabase [Samples.ann] [] 1 0 false)
  /\ post_customers
       (mkCustomerBody (Some (JS.of_bytes [194; 160])) (Some "Lee") (Some "5551234") None)
       db_open
     = (mkResponse 400 (validation_errors ["first_name required"]), db_open).
Proof. split; vm_compute; reflexivity. Qed.

(** A phone number of seven euro signs, seven characters in twenty-one
    bytes, passes the length check and is stored. *)
Example seven_euros_are_stored :
  post_customers (mkCustomerBody (Some "Ann") (Some "Lee") (Some Samples.seven_euros) None)
    db_open
  = (mkResponse 201
       (customer_data (Some (mkCustomer 1 "Ann" "Lee" Samples.seven_euros))
          "Customer created"),
     mkDatabase [mkCustomer 1 "Ann" "Lee" Samples.seven_euros] [] 1 0 false).
Proof. vm_compute. reflexivity. Qed.

(** Stored customers.  In every database the service reaches, each customer
    has a first and a last name that are not empty and carry no surrounding
    white space, and a phone number without surrounding white space that has
    at least 6 characters and, its variation selectors left out, at most 20
    (the validator counts a character of several bytes once and a variation
    selector not at all): no sequence of creations and partial updates gets
    an invalid value into the table. *)
Theorem stored_customers_valid (db : database) :
  reachable db ->
  Forall (fun c =>
            JS.trim (first_name c) = first_name c /\ first_name c <> ""
            /\ JS.trim (last_name c) = last_name c /\ last_name c <> ""
            /\ JS.trim (phone_number c) = phone_number c
            /\ 6 <= Spec.code_points (phone_number c)
            /\ Spec.code_points (phone_number c)
               - Spec.variation_selectors (phone_number c) <= 20)
         (customers db).
Proof.
  intros H. destruct (reachable_well_formed db H) as [_ [_ [Hv _]]].
  revert Hv. apply Forall_impl. intros c [H1 [H2 [H3 [H4 [H5 H6]]]]].
  unfold isLength in H6. apply andb_true_iff in H6 as [A B]. apply Z.leb_le in A, B.
  destruct (characters_split (phone_number c)) as [E [V1 V2]].
  repeat split; try assumption; lia.
Qed.

Lemma stored_customers_valid_witness :
  Forall (fun c =>
            JS.trim (first_name c) = first_name c /\ first_name c <> ""
            /\ JS.trim (last_name c) = last_name c /\ last_name c <> ""
            /\ JS.trim (phone_number c) = phone_number c
            /\ 6 <= Spec.code_points (phone_number c)
            /\ Spec.code_points (phone_number c)
               - Spec.variation_selectors (phone_number c) <= 20)
         (customers Samples.two_customers).
Proof.
  apply (stored_customers_valid Samples.two_customers).
  exists [POST_customers Samples.ann_body; POST_customers Samples.bob_body]. reflexivity.
Defined.

(** Stored addresses.  In every database the service reaches, each address
    has details that are not empty and an owner id that was issued to some
    customer (it lies between 1 and the customers' counter), whether or not
    that customer is still in the table. *)
Theorem stored_addresses_anchored (db : database) :
  reachable db ->
  Forall (fun a => 1 <= customer_id a <= seq_customers db /\ address_details a <> "")
         (addresses db).
Proof. intros H. apply (reachable_well_formed db H). Qed.

Lemma stored_addresses_anchored_witness :
  Forall (fun a => 1 <= customer_id a <= seq_customers Samples.three_addresses
                   /\ address_details a <> "")
         (addresses Samples.three_addresses).
Proof.
  apply (stored_addresses_anchored Samples.three_addresses).
  exists [POST_customers Samples.ann_body; POST_customers Samples.bob_body;
          POST_address 1 (mkAddressBody (Some "2 Hill Rd") (Some "Delhi") (Some "Goa")
                                        (Some "110001"));
          POST_address 1 (mkAddressBody (Some "3 Lake Rd") (Some "Agra") (Some "Kerala")
                                        (Some "282001"))].
  reflexivity.
Defined.

End ReachableRows.

(* ====================================================================== *)
(** ** Customer ids are not handed out twice *)
(* ====================================================================== *)

Section IdReuse.
Import SQLite Server Stored.

Variable db0 : database.

Lemma ids_from_refl : (ids_from db0) db0.
Proof.
  split; [lia|]. apply Forall_forall. intros c Hc. left. now apply in_map.
Qed.

Lemma ids_from_insert_customer (fn ln ph : string) :
  Spec.preserves (ids_from db0) (runAsync (insert_customer fn ln ph)).
Proof.
  intros db [H1 H2]. unfold runAsync, insert_customer.
  destruct (existsb _ _); cbn [snd]; [split; assumption|].
  destruct (next_rowid_above (seq_customers db) (map id (customers db))) as [A _].
  split; cbn [seq_customers customers]; [lia|].
  apply Forall_app. split; [exact H2|].
  constructor; [|constructor]. right. cbn [id]. lia.
Qed.

Lemma ids_from_insert_address (cid : Z) (d c s p : string) :
  Spec.preserves (ids_from db0) (runAsync (insert_address cid d c s p)).
Proof.
  intros db H. unfold runAsync, insert_address. destruct (_ && _); exact H.
Qed.

Lemma ids_from_update_customers (sets : list (customer_column * string)) (i : Z) :
  Spec.preserves (ids_from db0) (runAsync (update_customers sets i)).
Proof.
  intros db [H1 H2]. unfold runAsync, update_customers.
  destruct (_ && _); cbn [snd]; split; try assumption.
  cbn [customers]. apply Forall_forall. intros c Hc.
  apply in_map_iff in Hc as [c1 [<- Hc1]].
  pose proof (proj1 (Forall_forall _ _) H2 c1 Hc1) as H.
  destruct (id c1 =? i); [now rewrite assignments_keep_id | exact H].
Qed.

Lemma ids_from_update_addresses (sets : list (address_column * string)) (i : Z) :
  Spec.preserves (ids_from db0) (runAsync (update_addresses sets i)).
Proof. intros db H. exact H. Qed.

Lemma ids_from_delete_customer (i : Z) :
  Spec.preserves (ids_from db0) (runAsync (delete_customer i)).
Proof.
  intros db [H1 H2]. split; [exact H1|].
  cbn [runAsync delete_customer snd customers]. now apply Forall_filter.
Qed.

Lemma ids_from_delete_address (i : Z) :
  Spec.preserves (ids_from db0) (runAsync (delete_address i)).
Proof. intros db H. exact H. Qed.

#[local] Hint Resolve ids_from_insert_customer ids_from_insert_address
  ids_from_update_customers ids_from_update_addresses ids_from_delete_customer
  ids_from_delete_address : preserves.

Lemma handle_ids_from (r : request) : Spec.preserves (ids_from db0) (handle r).
Proof.
  destruct r as [b | q | i | i b | i | i b | i | i b | i]; cbn [handle].
  - unfold post_customers, insert_inline_address. walk.
  - walk.
  - unfold get_customer. walk.
  - unfold put_customer. walk.
  - unfold delete_customer_route. walk.
  - unfold post_address. walk.
  - unfold get_addresses. walk.
  - unfold put_address. walk.
  - unfold delete_address_route. walk.
Qed.

Lemma serve_ids_from (rs : list request) : ids_from db0 (serve rs db0).
Proof.
  assert (G : forall db, (ids_from db0) db -> (ids_from db0) (serve rs db)).
  { induction rs as [|r rs IH]; intros db H; [exact H|].
    cbn [serve]. apply IH, handle_ids_from, H. }
  apply G, ids_from_refl.
Qed.

End IdReuse.

Section IdReuseTheorem.
Import SQLite Server Stored.

(** Customer ids are not handed out twice.  An id at or below the
    AUTOINCREMENT counter that no customer has at present (because its
    customer was deleted) is the id of no customer after any further
    sequence of requests; the counter itself never goes down. *)
Theorem customer_ids_never_reused (db : database) (i : Z) (rs : list request) :
  i <= seq_customers db ->
  Forall (fun c => id c <> i) (customers db) ->
  Forall (fun c => id c <> i) (customers (serve rs db))
  /\ seq_customers db <= seq_customers (serve rs db).
Proof.
  intros Hi Hfree. destruct (serve_ids_from db rs) as [H1 H2].
  split; [|exact H1].
  revert H2. apply Forall_impl. intros c [Hc | Hc] E; [|lia].
  apply in_map_iff in Hc as [c1 [E1 Hc1]].
  apply (proj1 (Forall_forall _ _) Hfree c1 Hc1). congruence.
Qed.

(** Ann (id 1) is deleted; the customer created next gets id 3. *)
Lemma customer_ids_never_reused_witness :
  Forall (fun c => id c <> 1)
    (customers
       (serve [POST_customers
                 (mkCustomerBody (Some "Cyd") (Some "Orr") (Some "8881234") None)]
              (serve [DELETE_customer 1] Samples.two_customers)))
  /\ seq_customers (serve [DELETE_customer 1] Samples.two_customers)
     <= seq_customers
          (serve [POST_customers
                    (mkCustomerBody (Some "Cyd") (Some "Orr") (Some "8881234") None)]
                 (serve [DELETE_customer 1] Samples.two_customers)).
Proof.
  apply (customer_ids_never_reused (serve [DELETE_customer 1] Samples.two_customers) 1).
  - vm_compute. discriminate.
  - vm_compute. repeat constructor. discriminate.
Defined.

End IdReuseTheorem.

(* ====================================================================== *)
(** ** Rejected requests *)
(* ====================================================================== *)

Section Rejected.
Import SQLite Server Stored.

(** Unfolds a handler down to the statements it runs and decides every
    branch on the way. *)
Ltac branches :=
  unfold try_catch, bind, getAsync, allAsync, runAsync, ret, reply,
    select_customer, select_address, select_addresses,
    update_customers, update_addresses, delete_customer, delete_address, insert_address;
  cbv zeta;
  repeat first
    [ progress cbn [fst snd null negb]
    | match goal with
      | |- context [match customer_by_id ?d ?i with _ => _ end] =>
          destruct (customer_by_id d i)
      | |- context [match address_by_id ?d ?i with _ => _ end] =>
          destruct (address_by_id d i)
      | |- context [if ?b then _ else _] => destruct b
      | |- context [match ?l with [] => _ | _ :: _ => _ end] => destruct l
      end ];
  intros; try reflexivity; try discriminate.

(** The three answers of the creation handler. *)
Lemma post_customers_answers (b : customer_body) (db : database) :
  post_customers b db = (mkResponse 400 (validation_errors (validate_create b)), db)
  \/ post_customers b db = (mkResponse 409 (failure "Phone number already exists"), db)
  \/ exists created db',
       post_customers b db
       = (mkResponse 201 (customer_data created "Customer created"), db').
Proof.
  destruct (validate_create b) as [|e es] eqn:V.
  2:{ left. unfold post_customers. rewrite V. reflexivity. }
  right.
  destruct (existsb (fun c => (phone_number c =? sanitized (body_phone_number b))%string)
                    (customers db)) eqn:X.
  - left. unfold post_customers. rewrite V. cbn [null negb].
    unfold try_catch, bind, runAsync, insert_customer. rewrite X. reflexivity.
  - right.
    destruct (post_customers_created db b V) as [_ [_ [rows [E _]]]].
    { intros c Hc Heq.
      assert (existsb (fun c => (phone_number c =? sanitized (body_phone_number b))%string)
                      (customers db) = true); [|congruence].
      apply existsb_exists. exists c. split; [exact Hc | now apply String.eqb_eq]. }
    eexists _, _. exact E.
Qed.

(** A request answered 400, 404 or 409 has written nothing: the database is
    exactly as it was before the request. *)
Theorem client_errors_write_nothing (r : request) (db : database) :
  client_error (fst (handle r db)) = true -> snd (handle r db) = db.
Proof.
  destruct r as [b | q | i | i b | i | i b | i | i b | i]; cbn [handle].
  - destruct (post_customers_answers b db) as [E | [E | [created [db' E]]]];
      rewrite E; cbn [fst snd]; [reflexivity | reflexivity | discriminate].
  - now rewrite get_customers_answer.
  - unfold get_customer. branches.
  - unfold put_customer. branches.
  - unfold delete_customer_route. branches.
  - unfold post_address. branches.
  - unfold get_addresses. branches.
  - unfold put_address. branches.
  - unfold delete_address_route. branches.
Qed.

(** An update with an empty body is answered 400 and changes nothing. *)
Lemma client_errors_write_nothing_witness :
  snd (handle (PUT_customer 1 (mkCustomerBody None None None None)) Samples.two_customers)
  = Samples.two_customers.
Proof.
  apply (client_errors_write_nothing
           (PUT_customer 1 (mkCustomerBody None None None None)) Samples.two_customers).
  reflexivity.
Defined.

End Rejected.

(* ====================================================================== *)
(** ** Partial updates *)
(* ====================================================================== *)

Section PartialUpdate.
Import SQLite Server Stored.

(** Looking up a key in a table whose rows were rewritten without touching
    the key. *)
Lemma find_map_key {A} (key : A -> Z) (f : A -> A) (i : Z) (l : list A) :
  (forall x, key (f x) = key x) ->
  find (fun y => key y =? i) (map f l) = option_map f (find (fun y => key y =? i) l).
Proof.
  intros H. induction l as [|x l IH]; [reflexivity|].
  cbn [map find]. rewrite H. destruct (key x =? i); [reflexivity | exact IH].
Qed.

(** Rewriting the rows with key [i] only does not change what another key
    finds. *)
Lemma find_map_other {A} (key : A -> Z) (f : A -> A) (i j : Z) (l : list A) :
  (forall x, key (f x) = key x) -> j <> i ->
  find (fun y => key y =? j) (map (fun x => if key x =? i then f x else x) l)
  = find (fun y => key y =? j) l.
Proof.
  intros H Hne. induction l as [|x l IH]; [reflexivity|].
  cbn [map find]. destruct (key x =? i) eqn:E.
  - rewrite H. apply Z.eqb_eq in E.
    replace (key x =? j) with false by (symmetry; apply Z.eqb_neq; lia). exact IH.
  - destruct (key x =? j); [reflexivity | exact IH].
Qed.

(** Under a passed validation a submitted field is a usable one. *)
Lemma check_not_empty_truthy (v : string) (msg : string) :
  check_not_empty (Some v) msg = [] -> JS.truthy (JS.trim v) = true.
Proof.
  unfold check_not_empty. cbn [JS.to_string].
  destruct (JS.trim v); [discriminate | reflexivity].
Qed.

Lemma collected_assignment {K} (k : K) (v : option string) :
  match v with Some s => JS.truthy (JS.trim s) = true | None => True end ->
  (if JS.truthy_opt (sanitized_optional v)
   then [(k, JS.to_string (sanitized_optional v))] else [])
  = assignment k v.
Proof.
  destruct v as [s|]; cbn; [|reflexivity]. intros ->. reflexivity.
Qed.

(** The assignments the update handler collects from a validated body: one
    per submitted field. *)
Lemma put_customer_collects (b : customer_body) :
  validate_update b = [] ->
  ((if JS.truthy_opt (sanitized_optional (body_first_name b))
    then [(first_name_col, JS.to_string (sanitized_optional (body_first_name b)))] else [])
   ++ (if JS.truthy_opt (sanitized_optional (body_last_name b))
       then [(last_name_col, JS.to_string (sanitized_optional (body_last_name b)))] else [])
   ++ (if JS.truthy_opt (sanitized_optional (body_phone_number b))
       then [(phone_number_col, JS.to_string (sanitized_optional (body_phone_number b)))]
       else []))%list
  = (assignment first_name_col (body_first_name b)
     ++ assignment last_name_col (body_last_name b)
     ++ assignment phone_number_col (body_phone_number b))%list.
Proof.
  unfold validate_update. intros V.
  apply app_eq_nil in V as [V1 V]. apply app_eq_nil in V as [V2 V3].
  rewrite !collected_assignment; [reflexivity | | |].
  - destruct (body_phone_number b) as [s|]; [|exact I].
    apply isLength_truthy. unfold optional, sanitized, JS.to_string in V3.
    destruct (isLength (JS.trim s) 6 20); [reflexivity | discriminate].
  - destruct (body_last_name b); [now apply check_not_empty_truthy in V2 | exact I].
  - destruct (body_first_name b); [now apply check_not_empty_truthy in V1 | exact I].
Qed.

(** The update handler on a validated body, an existing target and
    assignments that do not clash: the statement runs and the row is read
    back. *)
Lemma put_customer_runs (db : database) (i : Z) (b : customer_body) (c : customer) :
  validate_update b = [] ->
  customer_by_id db i = Some c ->
  let sets := (assignment first_name_col (body_first_name b)
               ++ assignment last_name_col (body_last_name b)
               ++ assignment phone_number_col (body_phone_number b))%list in
  sets <> [] ->
  (forall ph x, assigned_phone sets = Some ph -> In x (customers db) -> id x <> i ->
                phone_number x <> ph) ->
  let rows := map (fun x => if id x =? i then fold_left set_customer_column sets x else x)
                  (customers db) in
  put_customer i b db
  = (mkResponse 200
       (customer_data (option_map (fold_left set_customer_column sets) (Some c))
          "Customer updated"),
     mkDatabase rows (addresses db) (seq_customers db) (seq_addresses db)
                (foreign_keys db)).
Proof.
  intros V E sets Hne Hfree rows.
  unfold put_customer. rewrite V. cbn [null negb]. cbv zeta.
  rewrite (put_customer_collects b V). fold sets.
  unfold try_catch. unfold bind at 1. unfold getAsync at 1, select_customer at 1.
  rewrite E.
  destruct (List.length sets =? 0)%nat eqn:L.
  { apply Nat.eqb_eq in L. destruct sets; [contradiction | discriminate]. }
  unfold bind at 1. unfold runAsync, update_customers.
  rewrite (customer_by_id_hit db i c E). cbn [andb].
  assert (Clash : match assigned_phone sets with
                  | Some ph => existsb (fun x => negb (id x =? i)
                                   && (phone_number x =? ph)%string) (customers db)
                  | None => false
                  end = false).
  { destruct (assigned_phone sets) as [ph|]; [|reflexivity].
    destruct (existsb _ _) eqn:X; [|reflexivity].
    apply existsb_exists in X as [x [Hx X]]. apply andb_true_iff in X as [X1 X2].
    apply negb_true_iff, Z.eqb_neq in X1. apply String.eqb_eq in X2.
    now destruct (Hfree ph x eq_refl Hx X1). }
  rewrite Clash. fold rows.
  unfold bind, getAsync, select_customer, ret, customer_by_id. cbn [customers].
  unfold rows.
  rewrite (find_map_key id (fun x => if id x =? i then fold_left set_customer_column sets x
                                     else x)).
  2:{ intros x. destruct (id x =? i); [apply assignments_keep_id | reflexivity]. }
  fold (customer_by_id db i). rewrite E. cbn [option_map].
  apply find_some in E as [_ Hid]. now rewrite Hid.
Qed.

Lemma assignments_of_body (fn ln ph : option string) (c : customer) :
  let sets := (assignment first_name_col fn ++ assignment last_name_col ln
               ++ assignment phone_number_col ph)%list in
  assigned_phone sets = option_map JS.trim ph
  /\ fold_left set_customer_column sets c
     = mkCustomer (id c) (pick fn (first_name c)) (pick ln (last_name c))
                  (pick ph (phone_number c))
  /\ (fn <> None \/ ln <> None \/ ph <> None -> sets <> []).
Proof.
  destruct c as [ci cf cl cp].
  destruct fn, ln, ph; cbn; repeat split; try discriminate;
    intros [H | [H | H]]; now destruct H.
Qed.

(** PUT [/api/customers/:id] replaces exactly the submitted fields.  For a
    body that passes validation and submits at least one field, a target
    customer that exists and a phone number no other customer has, the
    answer is 200 with the target row in which each submitted field holds its
    trimmed new value and every other field its old value; a later lookup of
    the id finds that row, every other id finds what it found before, and the
    addresses are untouched. *)
Theorem put_customer_replaces_submitted (db : database) (i : Z) (b : customer_body)
  (c : customer) :
  validate_update b = [] ->
  customer_by_id db i = Some c ->
  body_first_name b <> None \/ body_last_name b <> None \/ body_phone_number b <> None ->
  (forall ph x, body_phone_number b = Some ph -> In x (customers db) -> id x <> i ->
                phone_number x <> JS.trim ph) ->
  let c' := mkCustomer (id c) (pick (body_first_name b) (first_name c))
                       (pick (body_last_name b) (last_name c))
                       (pick (body_phone_number b) (phone_number c)) in
  exists db',
    put_customer i b db = (mkResponse 200 (customer_data (Some c') "Customer updated"), db')
    /\ customer_by_id db' i = Some c'
    /\ (forall j, j <> i -> customer_by_id db' j = customer_by_id db j)
    /\ addresses db' = addresses db.
Proof.
  intros V E Hsome Hfree c'.
  destruct (assignments_of_body (body_first_name b) (body_last_name b)
              (body_phone_number b) c) as [Hph [Hfold Hne]].
  pose proof (put_customer_runs db i b c V E (Hne Hsome)) as Run.
  cbv zeta in Run. rewrite Hph in Run.
  specialize (Run ltac:(intros ph x Hp; destruct (body_phone_number b) as [p|];
                        [|discriminate]; injection Hp as <-; now apply Hfree)).
  cbn [option_map] in Run. rewrite Hfold in Run. fold c' in Run.
  eexists. split; [exact Run|]. cbn [addresses]. split; [|split; [|reflexivity]].
  - unfold customer_by_id at 1. cbn [customers].
    rewrite (find_map_key id (fun x => if id x =? i then fold_left set_customer_column _ x
                                       else x)).
    2:{ intros x. destruct (id x =? i); [apply assignments_keep_id | reflexivity]. }
    fold (customer_by_id db i). rewrite E. cbn [option_map].
    pose proof E as E'. apply find_some in E' as [_ Hid]. rewrite Hid, Hfold. reflexivity.
  - intros j Hj. unfold customer_by_id. cbn [customers].
    apply (find_map_other id (fold_left set_customer_column _) i j (customers db));
      [apply assignments_keep_id | exact Hj].
Qed.

(** Bob changes his last name only. *)
Lemma put_customer_replaces_submitted_witness :
  exists db',
    put_customer 2 (mkCustomerBody None (Some " Roy ") None None) Samples.two_customers
    = (mkResponse 200
         (customer_data (Some (mkCustomer 2 "Bob" "Roy" "7771234")) "Customer updated"),
       db')
    /\ customer_by_id db' 2 = Some (mkCustomer 2 "Bob" "Roy" "7771234")
    /\ (forall j, j <> 2 -> customer_by_id db' j = customer_by_id Samples.two_customers j)
    /\ addresses db' = addresses Samples.two_customers.
Proof.
  apply (put_customer_replaces_submitted Samples.two_customers 2
           (mkCustomerBody None (Some " Roy ") None None) Samples.bob).
  - reflexivity.
  - reflexivity.
  - right. left. discriminate.
  - intros ph x H. discriminate H.
Defined.

End PartialUpdate.

(* ====================================================================== *)
(** ** Addresses: adding, listing, updating, deleting *)
(* ====================================================================== *)

Section AddressRoutes.
Import SQLite Server Stored.

(** Adding an address and listing it.  For a body whose four fields are not
    blank and a customer that exists, POST [/api/customers/:id/addresses]
    answers 201 with the new row: a fresh id, the customer's id and the
    trimmed fields.  The row is appended, the customers are untouched, and
    both GET [/api/customers/:id/addresses] and GET [/api/customers/:id] then
    list the customer's earlier addresses followed by the new one. *)
Theorem add_address_then_list (db : database) (cid : Z) (b : address_body) (c : customer) :
  validate_address b = [] ->
  customer_by_id db cid = Some c ->
  let a := mkAddress (next_rowid (seq_addresses db) (map address_id (addresses db))) cid
             (sanitized (body_address_details b)) (sanitized (body_city b))
             (sanitized (body_state b)) (sanitized (body_pin_code b)) in
  exists db',
    post_address cid b db = (mkResponse 201 (address_data (Some a) "Address added"), db')
    /\ customers db' = customers db
    /\ addresses db' = (addresses db ++ [a])%list
    /\ get_addresses cid db'
       = (mkResponse 200 (address_list (addresses_of db cid ++ [a])), db')
    /\ get_customer cid db'
       = (mkResponse 200 (customer_detail c (addresses_of db cid ++ [a])), db').
Proof.
  intros V E a.
  pose proof (customer_by_id_hit db cid c E) as Hit.
  assert (Hfind : find (fun y => address_id y =? address_id a) (addresses db ++ [a])
                  = Some a).
  { apply (find_appended address_id). intros y Hy.
    pose proof (proj2 (next_rowid_above (seq_addresses db) (map address_id (addresses db)))
                  (address_id y) (in_map address_id _ _ Hy)) as H.
    cbn [a address_id]. lia. }
  assert (Hlist : forall db',
            customers db' = customers db -> addresses db' = (addresses db ++ [a])%list ->
            addresses_of db' cid = (addresses_of db cid ++ [a])%list).
  { intros db' _ Ha. unfold addresses_of. rewrite Ha, filter_app. cbn [filter a customer_id].
    now rewrite Z.eqb_refl. }
  set (db1 := mkDatabase (customers db) (addresses db ++ [a]) (seq_customers db)
                         (address_id a) (foreign_keys db)).
  exists db1. split.
  - unfold post_address. rewrite V. cbn [null negb].
    unfold try_catch, bind, getAsync, select_customer, select_address, runAsync, ret.
    rewrite E, (insert_address_done _ _ _ _ _ db Hit). cbn [lastID].
    unfold address_by_id. cbn [addresses]. fold a. cbn [address_id a] in Hfind.
    rewrite Hfind. reflexivity.
  - split; [reflexivity|]. split; [reflexivity|].
    unfold get_addresses, get_customer, try_catch, bind, getAsync, allAsync,
      select_customer, select_addresses, ret.
    replace (customer_by_id db1 cid) with (customer_by_id db cid) by reflexivity.
    rewrite E. cbv beta iota. rewrite (Hlist db1 eq_refl eq_refl). split; reflexivity.
Qed.

(** Ann gets a second address. *)
Lemma add_address_then_list_witness :
  exists db',
    post_address 1 (mkAddressBody (Some "2 Hill Rd") (Some " Delhi") (Some "Goa")
                                  (Some "110001")) Samples.two_customers
    = (mkResponse 201
         (address_data (Some (mkAddress 2 1 "2 Hill Rd" "Delhi" "Goa" "110001"))
            "Address added"), db')
    /\ customers db' = customers Samples.two_customers
    /\ addresses db'
       = (addresses Samples.two_customers
          ++ [mkAddress 2 1 "2 Hill Rd" "Delhi" "Goa" "110001"])%list
    /\ get_addresses 1 db'
       = (mkResponse 200
            (address_list (addresses_of Samples.two_customers 1
                           ++ [mkAddress 2 1 "2 Hill Rd" "Delhi" "Goa" "110001"])), db')
    /\ get_customer 1 db'
       = (mkResponse 200
            (customer_detail Samples.ann
               (addresses_of Samples.two_customers 1
                ++ [mkAddress 2 1 "2 Hill Rd" "Delhi" "Goa" "110001"])), db').
Proof.
  apply (add_address_then_list Samples.two_customers 1
           (mkAddressBody (Some "2 Hill Rd") (Some " Delhi") (Some "Goa") (Some "110001"))
           Samples.ann); reflexivity.
Defined.

(** The assignments the address update handler collects from a validated
    body: one per submitted field. *)
Lemma put_address_collects (b : address_body) :
  validate_address_update b = [] ->
  ((if JS.truthy_opt (sanitized_optional (body_address_details b))
    then [(address_details_col, JS.to_string (sanitized_optional (body_address_details b)))]
    else [])
   ++ (if JS.truthy_opt (sanitized_optional (body_city b))
       then [(city_col, JS.to_string (sanitized_optional (body_city b)))] else [])
   ++ (if JS.truthy_opt (sanitized_optional (body_state b))
       then [(state_col, JS.to_string (sanitized_optional (body_state b)))] else [])
   ++ (if JS.truthy_opt (sanitized_optional (body_pin_code b))
       then [(pin_code_col, JS.to_string (sanitized_optional (body_pin_code b)))]
       else []))%list
  = (assignment address_details_col (body_address_details b)
     ++ assignment city_col (body_city b)
     ++ assignment state_col (body_state b)
     ++ assignment pin_code_col (body_pin_code b))%list.
Proof.
  unfold validate_address_update. intros V.
  apply app_eq_nil in V as [V1 V]. apply app_eq_nil in V as [V2 V].
  apply app_eq_nil in V as [V3 V4].
  assert (G : forall v, optional v (fun v => check_not_empty v "Invalid value") = [] ->
                        match v with
                        | Some s => JS.truthy (JS.trim s) = true
                        | None => True
                        end).
  { intros [s|] H; [now apply check_not_empty_truthy in H | exact I]. }
  rewrite !collected_assignment by now apply G. reflexivity.
Qed.

Lemma address_assignments_of_body (d c s p : option string) (a : address) :
  let sets := (assignment address_details_col d ++ assignment city_col c
               ++ assignment state_col s ++ assignment pin_code_col p)%list in
  fold_left set_address_column sets a
  = mkAddress (address_id a) (customer_id a) (pick d (address_details a))
              (pick c (SQLite.city a)) (pick s (SQLite.state a))
              (pick p (SQLite.pin_code a))
  /\ (d <> None \/ c <> None \/ s <> None \/ p <> None -> sets <> []).
Proof.
  destruct a as [ai ac ad aci ast ap].
  destruct d, c, s, p; cbn; split; try reflexivity; try discriminate;
    intros [H | [H | [H | H]]]; now destruct H.
Qed.

Lemma address_assignments_keep_id (sets : list (address_column * string)) (a : address) :
  address_id (fold_left set_address_column sets a) = address_id a.
Proof.
  revert a. induction sets as [|[k v] sets IH]; intros a; [reflexivity|].
  cbn [fold_left]. rewrite IH. destruct k; reflexivity.
Qed.

(** PUT [/api/addresses/:addressId] replaces exactly the submitted fields.
    For a body that passes validation and submits at least one field, and an
    address that exists, the answer is 200 with the row in which each
    submitted field holds its trimmed new value and every other field its
    old value; the id and the owner of the address are never changed.  A
    later lookup of the id finds that row, every other id finds what it found
    before, and the customers are untouched. *)
Theorem put_address_replaces_submitted (db : database) (i : Z) (b : address_body)
  (a : address) :
  validate_address_update b = [] ->
  address_by_id db i = Some a ->
  body_address_details b <> None \/ body_city b <> None
  \/ body_state b <> None \/ body_pin_code b <> None ->
  let a' := mkAddress (address_id a) (customer_id a)
              (pick (body_address_details b) (address_details a))
              (pick (body_city b) (SQLite.city a))
              (pick (body_state b) (SQLite.state a))
              (pick (body_pin_code b) (SQLite.pin_code a)) in
  exists db',
    put_address i b db = (mkResponse 200 (address_data (Some a') "Address updated"), db')
    /\ address_by_id db' i = Some a'
    /\ (forall j, j <> i -> address_by_id db' j = address_by_id db j)
    /\ customers db' = customers db.
Proof.
  intros V E Hsome a'.
  destruct (address_assignments_of_body (body_address_details b) (body_city b)
              (body_state b) (body_pin_code b) a) as [Hfold Hne].
  specialize (Hne Hsome).
  set (sets := (assignment address_details_col (body_address_details b)
                ++ assignment city_col (body_city b)
                ++ assignment state_col (body_state b)
                ++ assignment pin_code_col (body_pin_code b))%list) in *.
  set (db1 := mkDatabase (customers db)
                (map (fun x => if address_id x =? i then fold_left set_address_column sets x
                               else x) (addresses db))
                (seq_customers db) (seq_addresses db) (foreign_keys db)).
  assert (Hfind : address_by_id db1 i = Some a').
  { unfold address_by_id. cbn [addresses db1].
    rewrite (find_map_key address_id
               (fun x => if address_id x =? i then fold_left set_address_column sets x
                         else x)).
    2:{ intros x. destruct (address_id x =? i);
          [apply address_assignments_keep_id | reflexivity]. }
    fold (address_by_id db i). rewrite E. cbn [option_map].
    pose proof E as E'. apply find_some in E' as [_ Hid]. now rewrite Hid, Hfold. }
  exists db1. split; [|split; [exact Hfind|split; [|reflexivity]]].
  - unfold put_address. rewrite V. cbn [null negb]. cbv zeta.
    rewrite (put_address_collects b V). fold sets.
    unfold try_catch. unfold bind at 1. unfold getAsync at 1, select_address at 1.
    rewrite E.
    destruct (List.length sets =? 0)%nat eqn:L.
    { apply Nat.eqb_eq in L. destruct sets; [contradiction | discriminate]. }
    unfold bind, runAsync, update_addresses, getAsync, select_address, ret.
    fold db1. now rewrite Hfind.
  - intros j Hj. unfold address_by_id. cbn [addresses db1].
    apply (find_map_other address_id (fold_left set_address_column sets) i j (addresses db));
      [apply address_assignments_keep_id | exact Hj].
Qed.

(** Ann's address moves to Nagpur. *)
Lemma put_address_replaces_submitted_witness :
  exists db',
    put_address 1 (mkAddressBody None (Some "Nagpur ") None None) Samples.two_customers
    = (mkResponse 200
         (address_data (Some (mkAddress 1 1 "1 Main St" "Nagpur" "" "")) "Address updated"),
       db')
    /\ address_by_id db' 1 = Some (mkAddress 1 1 "1 Main St" "Nagpur" "" "")
    /\ (forall j, j <> 1 -> address_by_id db' j = address_by_id Samples.two_customers j)
    /\ customers db' = customers Samples.two_customers.
Proof.
  apply (put_address_replaces_submitted Samples.two_customers 1
           (mkAddressBody None (Some "Nagpur ") None None)
           (mkAddress 1 1 "1 Main St" "Pune" "" "")).
  - reflexivity.
  - reflexivity.
  - right. left. discriminate.
Defined.

(** What PUT [/api/addresses/:addressId] refuses.  With a body that passes
    validation: an id that no address has is answered 404 'Address not
    found'; an existing address with none of the four fields submitted is
    answered 400 'No fields to update'.  Nothing is written either way. *)
Theorem put_address_refusals (db : database) (i : Z) (b : address_body) :
  validate_address_update b = [] ->
  (address_by_id db i = None ->
   put_address i b db = (mkResponse 404 (failure "Address not found"), db))
  /\ (address_by_id db i <> None ->
      body_address_details b = None -> body_city b = None ->
      body_state b = None -> body_pin_code b = None ->
      put_address i b db = (mkResponse 400 (failure "No fields to update"), db)).
Proof.
  intros V. unfold put_address. rewrite V. cbn [null negb].
  unfold try_catch, bind, getAsync, select_address. split.
  - intros ->. reflexivity.
  - intros E H1 H2 H3 H4. destruct (address_by_id db i); [|contradiction].
    rewrite H1, H2, H3, H4. reflexivity.
Qed.

(** An empty body for an address that is not there, and for one that is. *)
Lemma put_address_refusals_witness :
  put_address 7 Samples.no_address Samples.two_customers
  = (mkResponse 404 (failure "Address not found"), Samples.two_customers)
  /\ put_address 1 Samples.no_address Samples.two_customers
     = (mkResponse 400 (failure "No fields to update"), Samples.two_customers).
Proof.
  split.
  - apply (put_address_refusals Samples.two_customers 7 Samples.no_address eq_refl).
    reflexivity.
  - apply (put_address_refusals Samples.two_customers 1 Samples.no_address eq_refl);
      [discriminate | reflexivity | reflexivity | reflexivity | reflexivity].
Defined.

(** Looking up keys in a table from which the rows with key [i] were
    removed. *)
Lemma find_removed {A} (key : A -> Z) (i : Z) (l : list A) :
  find (fun y => key y =? i) (filter (fun y => negb (key y =? i)) l) = None.
Proof.
  induction l as [|x l IH]; [reflexivity|].
  cbn [filter]. destruct (key x =? i) eqn:E; cbn [negb find]; [exact IH|].
  now rewrite E.
Qed.

Lemma find_remaining {A} (key : A -> Z) (i j : Z) (l : list A) :
  j <> i ->
  find (fun y => key y =? j) (filter (fun y => negb (key y =? i)) l)
  = find (fun y => key y =? j) l.
Proof.
  intros Hne. induction l as [|x l IH]; [reflexivity|].
  cbn [filter find]. destruct (key x =? i) eqn:E; cbn [negb find].
  - apply Z.eqb_eq in E.
    replace (key x =? j) with false by (symmetry; apply Z.eqb_neq; lia). exact IH.
  - destruct (key x =? j); [reflexivity | exact IH].
Qed.

(** Deleting an address.  DELETE [/api/addresses/:addressId] for an address
    that exists answers 200; afterwards the id finds nothing, every other id
    finds what it found before, the customers are untouched, and deleting the
    same id again is answered 404 'Address not found' without writing. *)
Theorem delete_address_once (db : database) (i : Z) (a : address) :
  address_by_id db i = Some a ->
  exists db',
    delete_address_route i db = (mkResponse 200 (succeeded "Address deleted"), db')
    /\ address_by_id db' i = None
    /\ (forall j, j <> i -> address_by_id db' j = address_by_id db j)
    /\ customers db' = customers db
    /\ delete_address_route i db' = (mkResponse 404 (failure "Address not found"), db').
Proof.
  intros E.
  set (db1 := snd (delete_address i db)).
  assert (Hgone : address_by_id db1 i = None) by apply (find_removed address_id).
  exists db1. split; [|split; [exact Hgone|split; [|split; [reflexivity|]]]].
  - unfold delete_address_route, try_catch, bind, getAsync, select_address. now rewrite E.
  - intros j Hj. now apply (find_remaining address_id).
  - unfold delete_address_route, try_catch, bind, getAsync, select_address.
    now rewrite Hgone.
Qed.

(** Ann's address is deleted, twice. *)
Lemma delete_address_once_witness :
  exists db',
    delete_address_route 1 Samples.two_customers
    = (mkResponse 200 (succeeded "Address deleted"), db')
    /\ address_by_id db' 1 = None
    /\ (forall j, j <> 1 -> address_by_id db' j = address_by_id Samples.two_customers j)
    /\ customers db' = customers Samples.two_customers
    /\ delete_address_route 1 db' = (mkResponse 404 (failure "Address not found"), db').
Proof.
  apply (delete_address_once Samples.two_customers 1
           (mkAddress 1 1 "1 Main St" "Pune" "" "")).
  reflexivity.
Defined.

(** A deleted customer is gone for every route.  After DELETE
    [/api/customers/:id] of a customer that exists (answered 200), the routes
    that take that id answer 404 'Customer not found' and write nothing: the
    detail, the address list, a second DELETE, an update with a valid body
    and an address creation with a valid body.  Every other customer id finds
    what it found before. *)
Theorem deleted_customer_is_gone (db : database) (i : Z) (c : customer) :
  customer_by_id db i = Some c ->
  exists db',
    delete_customer_route i db = (mkResponse 200 (succeeded "Customer deleted"), db')
    /\ get_customer i db' = (mkResponse 404 (failure "Customer not found"), db')
    /\ get_addresses i db' = (mkResponse 404 (failure "Customer not found"), db')
    /\ delete_customer_route i db' = (mkResponse 404 (failure "Customer not found"), db')
    /\ (forall b, validate_update b = [] ->
                  put_customer i b db' = (mkResponse 404 (failure "Customer not found"), db'))
    /\ (forall b, validate_address b = [] ->
                  post_address i b db' = (mkResponse 404 (failure "Customer not found"), db'))
    /\ (forall j, j <> i -> customer_by_id db' j = customer_by_id db j).
Proof.
  intros E.
  set (db1 := snd (delete_customer i db)).
  assert (Hgone : customer_by_id db1 i = None) by apply (find_removed id).
  exists db1. repeat split.
  - unfold delete_customer_route, try_catch, bind, getAsync, select_customer. now rewrite E.
  - unfold get_customer, try_catch, bind, getAsync, select_customer. now rewrite Hgone.
  - unfold get_addresses, try_catch, bind, getAsync, select_customer. now rewrite Hgone.
  - unfold delete_customer_route, try_catch, bind, getAsync, select_customer.
    now rewrite Hgone.
  - intros b V. unfold put_customer. rewrite V. cbn [null negb].
    unfold try_catch, bind, getAsync, select_customer. now rewrite Hgone.
  - intros b V. unfold post_address. rewrite V. cbn [null negb].
    unfold try_catch, bind, getAsync, select_customer. now rewrite Hgone.
  - intros j Hj. now apply (find_remaining id).
Qed.

(** Ann is deleted. *)
Lemma deleted_customer_is_gone_witness :
  exists db',
    delete_customer_route 1 Samples.two_customers
    = (mkResponse 200 (succeeded "Customer deleted"), db')
    /\ get_customer 1 db' = (mkResponse 404 (failure "Customer not found"), db')
    /\ get_addresses 1 db' = (mkResponse 404 (failure "Customer not found"), db')
    /\ delete_customer_route 1 db' = (mkResponse 404 (failure "Customer not found"), db')
    /\ (forall b, validate_update b = [] ->
                  put_customer 1 b db' = (mkResponse 404 (failure "Customer not found"), db'))
    /\ (forall b, validate_address b = [] ->
                  post_address 1 b db' = (mkResponse 404 (failure "Customer not found"), db'))
    /\ (forall j, j <> 1 -> customer_by_id db' j = customer_by_id Samples.two_customers j).
Proof.
  apply (deleted_customer_is_gone Samples.two_customers 1 Samples.ann). reflexivity.
Defined.

End AddressRoutes.

(* ====================================================================== *)
(** ** Paging through the list *)
(* ====================================================================== *)

Section Paging.
Import SQLite Server Stored.

Lemma firstn_then_firstn {A} (n m : nat) (l : list A) :
  (firstn n l ++ firstn m (skipn n l))%list = firstn (n + m) l.
Proof.
  revert l. induction n as [|n IH]; intros l; [reflexivity|].
  destruct l as [|x l]; cbn [firstn skipn app Nat.add].
  - now rewrite firstn_nil.
  - now rewrite IH.
Qed.

(** Two requests that differ in the page only select the same customers in
    the same order, and ask for the same limit. *)
Lemma same_listing (db : database) (q q' : query) :
  same_but_page q q' ->
  Spec.listing db q' = Spec.listing db q
  /\ Spec.limit q' = Spec.limit q
  /\ count (Spec.selected db q') (customers db) = count (Spec.selected db q) (customers db).
Proof.
  intros [H1 [H2 [H3 [H4 [H5 H6]]]]].
  unfold Spec.listing, Spec.matching, Spec.row_le, Spec.descending, Spec.sort_field,
    Spec.sort_text, Spec.selected, Spec.limit, count.
  now rewrite H1, H2, H3, H4, H5, H6.
Qed.

(** The window of a request for page [p] with limit [l], for numbers small
    enough to be computed exactly. *)
Lemma window_of_page (q : query) (p l : Z) :
  Spec.page q = JS.Finite p -> Spec.limit q = JS.Finite l ->
  1 <= p -> 0 < l -> p * l <= 2 ^ 53 ->
  Spec.window q = Some (l, (p - 1) * l).
Proof.
  intros Hp Hl P L B.
  assert (E53 : 2 ^ 53 = 9007199254740992) by reflexivity.
  assert (E63 : 2 ^ 63 = 9223372036854775808) by reflexivity.
  unfold Spec.window, Spec.offset. rewrite Hp, Hl. cbn [JS.sub JS.mul].
  rewrite (double_exact (p - 1)) by nia. cbn [JS.mul].
  rewrite (double_exact ((p - 1) * l)) by nia.
  unfold Spec.sqlite_integer.
  replace ((- 2 ^ 63 <? l) && (l <? 2 ^ 63 - 1)) with true
    by (symmetry; apply andb_true_iff; split; apply Z.ltb_lt; nia).
  replace ((- 2 ^ 63 <? (p - 1) * l) && ((p - 1) * l <? 2 ^ 63 - 1)) with true
    by (symmetry; apply andb_true_iff; split; apply Z.ltb_lt; nia).
  reflexivity.
Qed.

(** Consecutive pages tile the listing.  Take two list requests that differ
    in the page only, the first for page [p >= 1] and the second for page
    [p + 1], with a positive limit [l] and [(p + 1) * l] at most 2^53.  Both
    are answered 200 with the same total; the rows of the two answers, one
    after the other, are the rows a single window of twice the limit would
    give at the first offset: no selected customer is skipped or listed
    twice between the pages. *)
Theorem consecutive_pages_tile (db : database) (q q' : query) (p l : Z) :
  same_but_page q q' ->
  Spec.page q = JS.Finite p -> Spec.page q' = JS.Finite (p + 1) ->
  Spec.limit q = JS.Finite l ->
  1 <= p -> 0 < l -> (p + 1) * l <= 2 ^ 53 ->
  exists rows rows' total,
    get_customers q db
    = (mkResponse 200
         (customer_page rows (mkMeta (JS.Finite p) (JS.Finite l) total)), db)
    /\ get_customers q' db
       = (mkResponse 200
            (customer_page rows' (mkMeta (JS.Finite (p + 1)) (JS.Finite l) total)), db)
    /\ (rows ++ rows')%list = limit_offset (2 * l) ((p - 1) * l) (Spec.listing db q)
    /\ rows = firstn (Z.to_nat l) (skipn (Z.to_nat ((p - 1) * l)) (Spec.listing db q)).
Proof.
  intros Hs Hp Hp' Hl P L B.
  destruct (same_listing db q q' Hs) as [El [Elim Ec]].
  assert (W : Spec.window q = Some (l, (p - 1) * l))
    by (apply window_of_page; try assumption; nia).
  assert (W' : Spec.window q' = Some (l, (p + 1 - 1) * l))
    by (apply window_of_page; try assumption; [congruence | lia]).
  eexists _, _, _.
  split; [rewrite (get_customers_window db q _ _ W), Hp, Hl; reflexivity|].
  split; [rewrite (get_customers_window db q' _ _ W'), Hp', Elim, Hl, El, Ec; reflexivity|].
  rewrite !limit_offset_nat.
  replace (l <? 0) with false by (symmetry; apply Z.ltb_ge; lia).
  replace (2 * l <? 0) with false by (symmetry; apply Z.ltb_ge; lia).
  split; [|reflexivity].
  replace (Z.to_nat ((p + 1 - 1) * l))
    with (Z.to_nat l + Z.to_nat ((p - 1) * l))%nat by nia.
  rewrite <- skipn_skipn, firstn_then_firstn. f_equal. lia.
Qed.

(** Page 1 and page 2 with a limit of 1 on the two sample customers. *)
Lemma consecutive_pages_tile_witness :
  exists rows rows' total,
    get_customers Samples.first_of_one Samples.two_customers
    = (mkResponse 200
         (customer_page rows (mkMeta (JS.Finite 1) (JS.Finite 1) total)),
       Samples.two_customers)
    /\ get_customers Samples.second_of_one Samples.two_customers
       = (mkResponse 200
            (customer_page rows' (mkMeta (JS.Finite (1 + 1)) (JS.Finite 1) total)),
          Samples.two_customers)
    /\ (rows ++ rows')%list
       = limit_offset (2 * 1) ((1 - 1) * 1)
           (Spec.listing Samples.two_customers Samples.first_of_one)
    /\ rows = firstn (Z.to_nat 1)
                (skipn (Z.to_nat ((1 - 1) * 1))
                   (Spec.listing Samples.two_customers Samples.first_of_one)).
Proof.
  apply (consecutive_pages_tile Samples.two_customers
           Samples.first_of_one Samples.second_of_one 1 1);
    try reflexivity; try lia.
  repeat split.
Defined.

End Paging.

(* ====================================================================== *)
(** ** The pagination controls of the customer list page *)
(* ====================================================================== *)

Section Controls.
Import SQLite Server Stored.

(** The page count shown for a positive limit: the least number of pages, at
    least 1, that hold [total] rows. *)
Lemma page_count_positive_limit (p : JS.number) (l total : Z) :
  0 < l -> 0 <= total ->
  exists n,
    Client.page_count (mkMeta p (JS.Finite l) total) = JS.Finite n
    /\ 1 <= n
    /\ total <= n * l
    /\ (n = 1 \/ (n - 1) * l < total).
Proof.
  intros Hl Ht. unfold Client.page_count, Client.ceil_div. cbn [meta_limit meta_total].
  replace (l =? 0) with false by (symmetry; apply Z.eqb_neq; lia).
  cbn [JS.or_number].
  set (k := - (- total / l)).
  assert (Hk : total <= k * l /\ (k - 1) * l < total).
  { subst k.
    pose proof (Z.div_mod (- total) l ltac:(lia)) as D.
    pose proof (Z.mod_pos_bound (- total) l Hl) as B.
    nia. }
  destruct (k =? 0) eqn:E.
  - apply Z.eqb_eq in E. exists 1. rewrite E in Hk. split; [reflexivity|]. lia.
  - apply Z.eqb_neq in E. exists k. split; [reflexivity|].
    assert (0 <= k) by nia. lia.
Qed.

(** The pagination controls.  Take a list request for page [p >= 1] with a
    positive limit [l], [p * l] at most 2^53, on a table of fewer than 2^53
    customers (numbers the client's arithmetic is exact on).  It is answered
    200, and for the [meta] of the answer the page count the client shows is
    a number [n] of at least 1, the least that holds [total] rows; Next is
    disabled exactly when the current page is [n] or beyond, and Prev exactly
    when the current page is 1. *)
Theorem pagination_controls (db : database) (q : query) (p l : Z) :
  Spec.page q = JS.Finite p -> Spec.limit q = JS.Finite l ->
  1 <= p -> 0 < l -> p * l <= 2 ^ 53 ->
  Z.of_nat (List.length (customers db)) < 2 ^ 53 ->
  exists rows m n,
    get_customers q db = (mkResponse 200 (customer_page rows m), db)
    /\ meta_page m = JS.Finite p
    /\ meta_limit m = JS.Finite l
    /\ meta_total m = count (Spec.selected db q) (customers db)
    /\ Client.page_count m = JS.Finite n
    /\ 1 <= n
    /\ meta_total m <= n * l
    /\ (n = 1 \/ (n - 1) * l < meta_total m)
    /\ Client.next_disabled m = (n <=? p)
    /\ Client.prev_disabled m = (p <=? 1).
Proof.
  intros Hp Hl P L B _.
  set (total := count (Spec.selected db q) (customers db)).
  assert (Ht : 0 <= total) by (unfold total, count; lia).
  destruct (page_count_positive_limit (JS.Finite p) l total L Ht) as [n [E [H1 [H2 H3]]]].
  pose proof (window_of_page q p l Hp Hl P L B) as W.
  exists (limit_offset l ((p - 1) * l) (Spec.listing db q)),
    (mkMeta (JS.Finite p) (JS.Finite l) total), n.
  split; [rewrite (get_customers_window db q _ _ W), Hp, Hl; reflexivity|].
  cbn [meta_page meta_limit meta_total].
  repeat split; try assumption.
  unfold Client.next_disabled, JS.geb. cbn [meta_page meta_limit meta_total JS.mul].
  rewrite (double_exact (p * l)) by nia. cbn [JS.leb].
  destruct (n <=? p) eqn:A.
  - apply Z.leb_le in A. apply Z.leb_le. nia.
  - apply Z.leb_gt in A. apply Z.leb_gt.
    destruct H3 as [-> | H3]; [lia | nia].
Qed.

(** Two customers, one per page, second page. *)
Lemma pagination_controls_witness :
  exists rows m n,
    get_customers Samples.second_of_one Samples.two_customers
    = (mkResponse 200 (customer_page rows m), Samples.two_customers)
    /\ meta_page m = JS.Finite 2
    /\ meta_limit m = JS.Finite 1
    /\ meta_total m = count (Spec.selected Samples.two_customers Samples.second_of_one)
                            (customers Samples.two_customers)
    /\ Client.page_count m = JS.Finite n
    /\ 1 <= n
    /\ meta_total m <= n * 1
    /\ (n = 1 \/ (n - 1) * 1 < meta_total m)
    /\ Client.next_disabled m = (n <=? 2)
    /\ Client.prev_disabled m = (2 <=? 1).
Proof.
  apply (pagination_controls Samples.two_customers Samples.second_of_one 2 1);
    try reflexivity; try lia.
Defined.

(** Next leads somewhere.  Take two list requests that differ in the page
    only, the first for page [p >= 1] and the second for page [p + 1], with a
    positive limit [l] and [(p + 1) * l] at most 2^53.  Both are answered
    200, and the Next button under the first answer is enabled exactly when
    the second answer has at least one row. *)
Theorem next_button_leads_to_rows (db : database) (q q' : query) (p l : Z) :
  same_but_page q q' ->
  Spec.page q = JS.Finite p -> Spec.page q' = JS.Finite (p + 1) ->
  Spec.limit q = JS.Finite l ->
  1 <= p -> 0 < l -> (p + 1) * l <= 2 ^ 53 ->
  exists rows m rows' m',
    get_customers q db = (mkResponse 200 (customer_page rows m), db)
    /\ get_customers q' db = (mkResponse 200 (customer_page rows' m'), db)
    /\ (Client.next_disabled m = false <-> rows' <> []).
Proof.
  intros Hs Hp Hp' Hl P L B.
  destruct (same_listing db q q' Hs) as [El [Elim Ec]].
  assert (W : Spec.window q = Some (l, (p - 1) * l))
    by (apply window_of_page; try assumption; nia).
  assert (W' : Spec.window q' = Some (l, (p + 1 - 1) * l))
    by (apply window_of_page; try assumption; [congruence | lia]).
  eexists _, _, _, _.
  split; [apply (get_customers_window db q _ _ W)|].
  split; [apply (get_customers_window db q' _ _ W')|].
  unfold Client.next_disabled, JS.geb. cbn [meta_page meta_limit meta_total].
  rewrite Hp, Hl, El. cbn [JS.mul].
  rewrite (double_exact (p * l)) by nia. cbn [JS.leb].
  rewrite <- listing_length.
  rewrite !limit_offset_nat.
  replace (l <? 0) with false by (symmetry; apply Z.ltb_ge; lia).
  set (rows := Spec.listing db q). set (o := (p + 1 - 1) * l).
  assert (Ho : 0 <= o) by (subst o; nia).
  assert (Hlen : List.length (firstn (Z.to_nat l) (skipn (Z.to_nat o) rows))
                 = Nat.min (Z.to_nat l) (List.length rows - Z.to_nat o)).
  { now rewrite length_firstn, length_skipn. }
  replace (p * l) with o by (subst o; lia).
  rewrite Z.leb_gt. split.
  - intros Hlt E. rewrite E in Hlen. cbn [List.length] in Hlen. lia.
  - intros Hne. destruct (Z_lt_le_dec o (Z.of_nat (List.length rows))) as [|Hge]; [assumption|].
    exfalso. apply Hne. apply length_zero_iff_nil. rewrite Hlen. lia.
Qed.

(** Two customers, one per page: Next under page 1 is enabled, page 2 has a
    row. *)
Lemma next_button_leads_to_rows_witness :
  exists rows m rows' m',
    get_customers Samples.first_of_one Samples.two_customers
    = (mkResponse 200 (customer_page rows m), Samples.two_customers)
    /\ get_customers Samples.second_of_one Samples.two_customers
       = (mkResponse 200 (customer_page rows' m'), Samples.two_customers)
    /\ (Client.next_disabled m = false <-> rows' <> []).
Proof.
  apply (next_button_leads_to_rows Samples.two_customers
           Samples.first_of_one Samples.second_of_one 1 1);
    try reflexivity; try lia.
  repeat split.
Defined.

End Controls.

(* ====================================================================== *)
(** ** The forms of the client *)
(* ====================================================================== *)

Section Forms.
Import SQLite Server Stored.

Lemma truthy_trimmed (s : string) : JS.truthy (JS.trim s) = true -> JS.truthy s = true.
Proof. destruct s; [discriminate | reflexivity]. Qed.

Lemma valid_create_form_sent (f : Client.customer_form) :
  validate_create (Client.customer_form_body f) = [] ->
  Client.handleSubmit None f = Client.send (POST_customers (Client.customer_form_body f)).
Proof.
  intros V. unfold validate_create in V.
  cbn [Client.customer_form_body body_first_name body_last_name body_phone_number] in V.
  apply app_eq_nil in V as [V1 V]. apply app_eq_nil in V as [V2 V].
  apply app_eq_nil in V as [V3 _].
  apply check_not_empty_truthy, truthy_trimmed in V1, V2, V3.
  unfold Client.handleSubmit. now rewrite V1, V2, V3.
Qed.

Lemma valid_update_form_sent (i : Z) (f : Client.customer_form) :
  validate_update (Client.customer_form_body f) = [] ->
  Client.handleSubmit (Some i) f
  = Client.send (PUT_customer i (Client.customer_form_body f)).
Proof.
  intros V. unfold validate_update in V.
  cbn [Client.customer_form_body body_first_name body_last_name body_phone_number
       optional] in V.
  apply app_eq_nil in V as [V1 V]. apply app_eq_nil in V as [V2 V3].
  apply check_not_empty_truthy, truthy_trimmed in V1, V2.
  assert (T3 : JS.truthy (Client.form_phone_number f) = true).
  { apply truthy_trimmed, isLength_truthy. unfold sanitized, JS.to_string in V3.
    destruct (isLength _ 6 20); [reflexivity | discriminate]. }
  unfold Client.handleSubmit. now rewrite V1, V2, T3.
Qed.

Lemma valid_address_form_sent (cid : Z) (g : Client.address_form) :
  validate_address (Client.address_form_body g) = [] ->
  Client.submit cid g = Client.send (POST_address cid (Client.address_form_body g)).
Proof.
  intros V. unfold validate_address in V.
  cbn [Client.address_form_body body_address_details] in V.
  apply app_eq_nil in V as [V1 _].
  apply check_not_empty_truthy, truthy_trimmed in V1.
  unfold Client.submit. now rewrite V1.
Qed.

(** The checks the forms make before sending never stand in the way of the
    server's validation: a customer form the server would accept, for
    creation or for update, and an address form the server would accept, are
    sent as they are. *)
Theorem client_checks_pass_valid_forms :
  (forall f,
     validate_create (Client.customer_form_body f) = [] ->
     Client.handleSubmit None f
     = Client.send (POST_customers (Client.customer_form_body f)))
  /\ (forall i f,
        validate_update (Client.customer_form_body f) = [] ->
        Client.handleSubmit (Some i) f
        = Client.send (PUT_customer i (Client.customer_form_body f)))
  /\ (forall cid g,
        validate_address (Client.address_form_body g) = [] ->
        Client.submit cid g
        = Client.send (POST_address cid (Client.address_form_body g))).
Proof.
  split; [exact valid_create_form_sent|].
  split; [exact valid_update_form_sent | exact valid_address_form_sent].
Qed.

(** The converse fails: a phone number of three characters passes the
    client's check and is refused by the server. *)
Example short_phone_reaches_server :
  Client.handleSubmit None (Client.mkCustomerForm "Ann" "Lee" "123")
  = Client.send (POST_customers (mkCustomerBody (Some "Ann") (Some "Lee") (Some "123") None))
  /\ post_customers (mkCustomerBody (Some "Ann") (Some "Lee") (Some "123") None) db_open
     = (mkResponse 400 (validation_errors ["phone_number length invalid"]), db_open).
Proof. split; reflexivity. Qed.

Lemma NoDup_map_injective {A B} (f : A -> B) (l : list A) (x y : A) :
  NoDup (map f l) -> In x l -> In y l -> f x = f y -> x = y.
Proof.
  induction l as [|z l IH]; cbn [map]; intros H Hx Hy E; [destruct Hx|].
  apply NoDup_cons_iff in H as [H1 H2].
  destruct Hx as [-> | Hx], Hy as [-> | Hy]; [reflexivity | | | now apply IH].
  - exfalso. apply H1. rewrite E. now apply in_map.
  - exfalso. apply H1. rewrite <- E. now apply in_map.
Qed.

(** A stored customer passes, field by field, the validation of an update. *)
Lemma stored_customer_revalidates (c : customer) :
  valid_customer c -> validate_update (Client.customer_form_body (Client.load c)) = [].
Proof.
  intros [T1 [N1 [T2 [N2 [T3 L]]]]].
  unfold validate_update, check_not_empty, sanitized.
  cbn [Client.customer_form_body Client.load body_first_name body_last_name
       body_phone_number optional JS.to_string Client.form_first_name
       Client.form_last_name Client.form_phone_number].
  rewrite T1, T2, T3, L.
  destruct (first_name c); [contradiction|]. destruct (last_name c); [contradiction|].
  reflexivity.
Qed.

(** Saving an edit form as it was loaded changes nothing.  In a database
    the service has reached, the edit page of an existing customer that loads
    the customer and submits the form unchanged sends a PUT that the server
    answers 200 with the same row, and the database after it is the database
    before it. *)
Theorem unchanged_edit_form_is_a_no_op (db : database) (i : Z) (c : customer) :
  reachable db ->
  customer_by_id db i = Some c ->
  exists r,
    Client.handleSubmit (Some i) (Client.load c) = Client.send r
    /\ handle r db = (mkResponse 200 (customer_data (Some c) "Customer updated"), db).
Proof.
  intros Hr E.
  destruct (reachable_well_formed db Hr) as [[_ [I1 _]] [Hp [Hv _]]].
  destruct (customer_by_id_key db i c E) as [Hin Hid].
  pose proof (proj1 (Forall_forall _ _) Hv c Hin) as Vc.
  pose proof (stored_customer_revalidates c Vc) as V.
  exists (PUT_customer i (Client.customer_form_body (Client.load c))).
  split; [now apply valid_update_form_sent|].
  cbn [handle].
  destruct (assignments_of_body (Some (first_name c)) (Some (last_name c))
              (Some (phone_number c)) c) as [Hph [Hfold Hne]].
  destruct Vc as [T1 [_ [T2 [_ [T3 _]]]]].
  assert (Hsame : fold_left set_customer_column
                    (assignment first_name_col (Some (first_name c))
                     ++ assignment last_name_col (Some (last_name c))
                     ++ assignment phone_number_col (Some (phone_number c))) c = c).
  { rewrite Hfold. unfold pick. rewrite T1, T2, T3. now destruct c. }
  pose proof (put_customer_runs db i _ c V E) as Run.
  cbn [Client.customer_form_body Client.load body_first_name body_last_name
       body_phone_number Client.form_first_name Client.form_last_name
       Client.form_phone_number] in Run.
  cbv zeta in Run. rewrite Hph in Run. cbn [option_map] in Run. rewrite Hsame in Run.
  rewrite Run.
  - f_equal. destruct db as [cs ads sc sa fk]. cbn [customers addresses seq_customers
      seq_addresses foreign_keys] in *. f_equal.
    rewrite <- (map_id cs) at 2. apply map_ext_in. intros x Hx.
    destruct (id x =? i) eqn:Ex; [|reflexivity].
    apply Z.eqb_eq in Ex.
    assert (x = c) by (apply (NoDup_map_injective id cs); [assumption.. | congruence]).
    subst x. exact Hsame.
  - apply Hne. left. discriminate.
  - intros ph x Hph' Hx Hne' Heq. injection Hph' as <-. rewrite T3 in Heq.
    assert (x = c) by (apply (NoDup_map_injective phone_number (customers db));
                       assumption).
    subst x. contradiction.
Qed.

(** Bob's edit page, saved untouched. *)
Lemma unchanged_edit_form_is_a_no_op_witness :
  exists r,
    Client.handleSubmit (Some 2) (Client.load Samples.bob) = Client.send r
    /\ handle r Samples.two_customers
       = (mkResponse 200 (customer_data (Some Samples.bob) "Customer updated"),
          Samples.two_customers).
Proof.
  apply (unchanged_edit_form_is_a_no_op Samples.two_customers 2 Samples.bob).
  - exists [POST_customers Samples.ann_body; POST_customers Samples.bob_body]. reflexivity.
  - reflexivity.
Defined.

End Forms.

(* ====================================================================== *)
(** ** What a creation request must look like *)
(* ====================================================================== *)

Section CreateValidation.
Import SQLite Server Stored.

Lemma check_not_empty_nil (v : option string) (msg : string) :
  check_not_empty v msg = [] <-> Spec.missing_or_blank v = false.
Proof.
  unfold check_not_empty. rewrite trim_blank.
  destruct (Spec.missing_or_blank v); split; intros H; try discriminate; reflexivity.
Qed.

(** The bodies POST [/api/customers] accepts.  A body that passes the
    validation chains has a [first_name] and a [last_name] that are present
    and not blank, and a trimmed [phone_number] of at least 6 characters and,
    its variation selectors left out, at most 20.  A body with such names
    and a trimmed [phone_number] of at most 20 characters and, its variation
    selectors left out, at least 6 passes them.  For a phone number without
    variation selectors the two say that a body passes exactly when the
    names are not blank and the trimmed number has 6 to 20 characters.
    Every body that does not pass is answered 400 with the (non-empty) list
    of validation errors, and nothing is written. *)
Theorem create_accepts_exactly (db : database) (b : customer_body) :
  let phone := JS.trim (JS.to_string (body_phone_number b)) in
  let named :=
    Spec.missing_or_blank (body_first_name b) = false
    /\ Spec.missing_or_blank (body_last_name b) = false in
  (validate_create b = [] ->
   named /\ 6 <= Spec.code_points phone
   /\ Spec.code_points phone - Spec.variation_selectors phone <= 20)
  /\ (named ->
      6 <= Spec.code_points phone - Spec.variation_selectors phone ->
      Spec.code_points phone <= 20 ->
      validate_create b = [])
  /\ (validate_create b <> [] ->
      post_customers b db = (mkResponse 400 (validation_errors (validate_create b)), db)).
Proof.
  intros phone named.
  destruct (characters_split phone) as [E [V1 V2]].
  split; [|split].
  - unfold validate_create, sanitized, isLength. fold phone.
    intros H. apply app_eq_nil in H as [H1 H]. apply app_eq_nil in H as [H2 H].
    apply app_eq_nil in H as [_ H4].
    apply check_not_empty_nil in H1, H2.
    destruct ((6 <=? JS.characters phone) && (JS.characters phone <=? 20)) eqn:A;
      [|discriminate].
    apply andb_true_iff in A as [A B]. apply Z.leb_le in A, B.
    repeat split; try assumption; lia.
  - intros [H1 H2] A B. unfold validate_create, sanitized, isLength. fold phone.
    apply check_not_empty_nil with (msg := "first_name required") in H1.
    apply check_not_empty_nil with (msg := "last_name required") in H2.
    rewrite H1, H2. cbn [app].
    replace ((6 <=? JS.characters phone) && (JS.characters phone <=? 20)) with true
      by (symmetry; apply andb_true_iff; split; apply Z.leb_le; lia).
    rewrite app_nil_r. apply check_not_empty_nil.
    rewrite <- trim_blank. cbn [JS.to_string].
    fold phone. destruct phone; [cbn in *; lia | reflexivity].
  - intros H. unfold post_customers.
    destruct (validate_create b); [contradiction | reflexivity].
Qed.

End CreateValidation.

(* ====================================================================== *)
(** ** The rows of a page *)
(* ====================================================================== *)

Section PageRows.
Import SQLite Server Stored.

Lemma insert_row_distinct {A B} (key : A -> B) (le : A -> A -> bool) (x : A) (l : list A) :
  NoDup (map key (x :: l)) -> NoDup (map key (insert_row le x l)).
Proof.
  induction l as [|y t IH]; intros H; [exact H|].
  cbn [insert_row]. destruct (le x y); [exact H|].
  cbn [map] in *.
  apply NoDup_cons_iff in H as [Hx H]. apply NoDup_cons_iff in H as [Hy Ht].
  constructor.
  - intros Hin. apply in_map_iff in Hin as [z [Ez Hz]].
    apply insert_row_In in Hz as [-> | Hz].
    + apply Hx. left. now symmetry.
    + apply Hy. rewrite <- Ez. now apply in_map.
  - apply IH. constructor; [|exact Ht]. intros Hin. apply Hx. now right.
Qed.

Lemma sort_rows_distinct {A B} (key : A -> B) (le : A -> A -> bool) (l : list A) :
  NoDup (map key l) -> NoDup (map key (sort_rows le l)).
Proof.
  induction l as [|x t IH]; intros H; [constructor|].
  cbn [sort_rows]. apply insert_row_distinct. cbn [map] in *.
  apply NoDup_cons_iff in H as [Hx Ht]. constructor; [|now apply IH].
  intros Hin. apply Hx. apply in_map_iff in Hin as [z [Ez Hz]].
  apply sort_rows_In in Hz. rewrite <- Ez. now apply in_map.
Qed.

Lemma limit_offset_distinct {A B} (key : A -> B) (limit offset : Z) (l : list A) :
  NoDup (map key l) -> NoDup (map key (limit_offset limit offset l)).
Proof.
  intros H. rewrite !limit_offset_nat.
  assert (Hs : NoDup (map key (skipn (Z.to_nat offset) l))).
  { rewrite <- (firstn_skipn (Z.to_nat offset) l), map_app in H.
    now apply NoDup_app_remove_l in H. }
  destruct (limit <? 0); [exact Hs|].
  rewrite <- (firstn_skipn (Z.to_nat limit) (skipn _ l)), map_app in Hs.
  now apply NoDup_app_remove_r in Hs.
Qed.

(** The rows of a page.  In a database the service has reached, a list
    request whose LIMIT and OFFSET SQLite takes is answered 200 with rows
    among which no customer appears twice.  Each row is a customer of the
    table; for each of [city], [state] and [pin_code] that is present and not
    empty the customer owns an address with exactly that value; and a search
    text without [%], [_] and NUL occurs, case ignored, in the customer's
    name or phone number. *)
Theorem page_rows_are_distinct_matches (db : database) (q : query) (l o : Z) :
  reachable db ->
  Spec.window q = Some (l, o) ->
  exists rows m,
    get_customers q db = (mkResponse 200 (customer_page rows m), db)
    /\ NoDup (map id rows)
    /\ Forall
         (fun c =>
            In c (customers db)
            /\ (forall v, Spec.active (query_city q) = Some v ->
                exists a, In a (addresses db) /\ customer_id a = id c
                          /\ SQLite.city a = v)
            /\ (forall v, Spec.active (query_state q) = Some v ->
                exists a, In a (addresses db) /\ customer_id a = id c
                          /\ SQLite.state a = v)
            /\ (forall v, Spec.active (query_pin_code q) = Some v ->
                exists a, In a (addresses db) /\ customer_id a = id c
                          /\ SQLite.pin_code a = v)
            /\ (forall s, Spec.active (query_search q) = Some s -> Spec.plain s = true ->
                Spec.search_matches s c = true))
         rows.
Proof.
  intros Hr W. destruct (reachable_well_formed db Hr) as [[_ [I1 _]] _].
  eexists _, _. split; [apply (get_customers_window db q l o W)|]. split.
  - apply limit_offset_distinct, sort_rows_distinct. now apply NoDup_map_filter.
  - apply Forall_forall. intros c Hc.
    apply limit_offset_In, sort_rows_In, filter_In in Hc as [Hc Hs].
    unfold Spec.selected in Hs. rewrite !andb_true_iff in Hs.
    destruct Hs as [[[S1 S2] S3] S4].
    rewrite location_filter_exists in S2, S3, S4.
    repeat split; try assumption.
    intros s Es Hp. unfold Spec.search_filter in S1. rewrite Es in S1.
    unfold Spec.search_matches. now rewrite <- !like_contains by exact Hp.
Qed.

(** [?city=Pune&state=Kerala] on the sample database with three addresses. *)
Lemma page_rows_are_distinct_matches_witness :
  exists rows m,
    get_customers Samples.pune_kerala Samples.three_addresses
    = (mkResponse 200 (customer_page rows m), Samples.three_addresses)
    /\ NoDup (map id rows)
    /\ Forall
         (fun c =>
            In c (customers Samples.three_addresses)
            /\ (forall v, Spec.active (query_city Samples.pune_kerala) = Some v ->
                exists a, In a (addresses Samples.three_addresses)
                          /\ customer_id a = id c /\ SQLite.city a = v)
            /\ (forall v, Spec.active (query_state Samples.pune_kerala) = Some v ->
                exists a, In a (addresses Samples.three_addresses)
                          /\ customer_id a = id c /\ SQLite.state a = v)
            /\ (forall v, Spec.active (query_pin_code Samples.pune_kerala) = Some v ->
                exists a, In a (addresses Samples.three_addresses)
                          /\ customer_id a = id c /\ SQLite.pin_code a = v)
            /\ (forall s, Spec.active (query_search Samples.pune_kerala) = Some s ->
                Spec.plain s = true -> Spec.search_matches s c = true))
         rows.
Proof.
  apply (page_rows_are_distinct_matches Samples.three_addresses Samples.pune_kerala 10 0).
  - exists [POST_customers Samples.ann_body; POST_customers Samples.bob_body;
            POST_address 1 (mkAddressBody (Some "2 Hill Rd") (Some "Delhi") (Some "Goa")
                                          (Some "110001"));
            POST_address 1 (mkAddressBody (Some "3 Lake Rd") (Some "Agra") (Some "Kerala")
                                          (Some "282001"))].
    reflexivity.
  - reflexivity.
Defined.

End PageRows.
